(** * Alshival Node.js SDK: level coercion, resource references,
      the configuration store and the cloud forwarding decision

    A shallow embedding of [src/client.js] and [src/logger.js].

    - JavaScript values are the primitives the SDK inspects ([Js.Val]);
      a finite number carries the decimal text [String(n)] renders.
    - JavaScript strings are [string]s read as UTF-8 bytes; a string
      that is not well-formed UTF-8 stands for a JavaScript string with
      a lone surrogate.  [trim] strips the white space and line
      terminators of ECMAScript; [encodeURIComponent] and
      [decodeURIComponent] work on bytes as ECMAScript does on the UTF-8
      encoding.
    - [new URL(s)] belongs to node:url, not to the repository: it is a
      parameter of the development, the class [Js.Node].  What is proved
      in a section that opens with [Context {parser : Node}] holds for
      every parser.  The samples and the test-suite run on [Js.URL_parse], a
      parser for absolute http/https URLs with a plain host name.
    - A function that can throw returns [Js.result]; the configuration
      store is threaded explicitly, and a throwing [configure] returns the
      store as it stood when the exception left the function.  *)

From Stdlib Require Import ZArith QArith String Ascii List Bool Lia.
From stdpp Require Import base option gmap strings list.

Close Scope Q_scope.
Open Scope string_scope.
Open Scope list_scope.
Open Scope Z_scope.

(* ===================================================================== *)
(** * JavaScript values, strings and built-ins *)
(* ===================================================================== *)

Module Js.

(** What a [throw] carries: [new Error('Invalid log level: ...')] of
    [coerceLevel]/[coerceCloudLevel], the [URIError] of
    [decodeURIComponent] and [encodeURIComponent], and the [RangeError]
    of a recursion that exhausts the stack. *)
Inductive Thrown : Type := InvalidLevel | URIError | RangeError.

Inductive result (A : Type) : Type :=
| Ok (a : A)
| Throw (e : Thrown).
Arguments Ok {A} a.
Arguments Throw {A} e.

Definition bind {A B} (r : result A) (k : A -> result B) : result B :=
  match r with Ok a => k a | Throw e => Throw e end.

(** try { r } catch { d } *)
Definition try_catch {A} (r : result A) (d : A) : A :=
  match r with Ok a => a | Throw _ => d end.

Inductive Num : Type :=
| Finite (q : Q) (shown : string)   (* value, and the text String(n) gives *)
| NaN
| PosInf
| NegInf.

Inductive Val : Type :=
| VUndefined
| VNull
| VBool (b : bool)
| VNum (n : Num)
| VStr (s : string).

(** ToBoolean: what [if (v)], [!v], [a || b] and [Boolean(v)] test. *)
Definition truthy (v : Val) : bool :=
  match v with
  | VUndefined | VNull => false
  | VBool b => b
  | VNum (Finite q _) => negb (Qeq_bool q 0)
  | VNum NaN => false
  | VNum _ => true
  | VStr s => negb (String.eqb s "")
  end.

(** [String(v)] *)
Definition ToString (v : Val) : string :=
  match v with
  | VUndefined => "undefined"
  | VNull => "null"
  | VBool true => "true"
  | VBool false => "false"
  | VNum (Finite _ shown) => shown
  | VNum NaN => "NaN"
  | VNum PosInf => "Infinity"
  | VNum NegInf => "-Infinity"
  | VStr s => s
  end.

(** [a || b] *)
Definition or_else (a b : Val) : Val := if truthy a then a else b.

(** [Number.isFinite] and [Math.trunc] *)
Definition isFinite (v : Val) : bool :=
  match v with VNum (Finite _ _) => true | _ => false end.

Definition Math_trunc (q : Q) : Z := Z.quot (Qnum q) (Z.pos (Qden q)).

(** ** Characters *)

Definition code (a : ascii) : nat := nat_of_ascii a.

Definition between (lo hi : nat) (a : ascii) : bool :=
  (lo <=? code a)%nat && (code a <=? hi)%nat.

(** TAB, LF, VT, FF, CR and SPACE: the white space and line terminators
    of one byte. *)
Definition is_white_space (a : ascii) : bool :=
  between 9 13 a || (code a =? 32)%nat.

(** U+00A0, the white space of two bytes. *)
Definition is_white_space2 (a b : ascii) : bool :=
  (code a =? 194)%nat && (code b =? 160)%nat.

(** The white space and line terminators of three bytes: U+1680, U+2000
    to U+200A, U+2028, U+2029, U+202F, U+205F, U+3000 and U+FEFF. *)
Definition is_white_space3 (a b c : ascii) : bool :=
  ((code a =? 225)%nat && (code b =? 154)%nat && (code c =? 128)%nat)
  || ((code a =? 226)%nat && (code b =? 128)%nat
      && (between 128 138 c || (code c =? 168)%nat || (code c =? 169)%nat
          || (code c =? 175)%nat))
  || ((code a =? 226)%nat && (code b =? 129)%nat && (code c =? 159)%nat)
  || ((code a =? 227)%nat && (code b =? 128)%nat && (code c =? 128)%nat)
  || ((code a =? 239)%nat && (code b =? 187)%nat && (code c =? 191)%nat).

Definition is_ascii (a : ascii) : bool := (code a <? 128)%nat.

Definition is_upper (a : ascii) : bool := between 65 90 a.
Definition is_lower (a : ascii) : bool := between 97 122 a.
Definition is_digit (a : ascii) : bool := between 48 57 a.
Definition is_alpha (a : ascii) : bool := is_upper a || is_lower a.
Definition is_alnum (a : ascii) : bool := is_alpha a || is_digit a.

Definition upper_char (a : ascii) : ascii :=
  if is_lower a then ascii_of_nat (code a - 32) else a.
Definition lower_char (a : ascii) : ascii :=
  if is_upper a then ascii_of_nat (code a + 32) else a.

(** ** Strings *)

Fixpoint map_string (f : ascii -> ascii) (s : string) : string :=
  match s with
  | EmptyString => EmptyString
  | String a r => String (f a) (map_string f r)
  end.

(** "ASCII lower case" of the URL standard. *)
Definition ascii_lower : string -> string := map_string lower_char.

(** The characters outside ASCII whose upper case is ASCII text: sharp
    s, dotless i, long s (two bytes) and the ligatures U+FB00 to U+FB06
    (three bytes, all starting with EF AC). *)
Definition upper2 (a b : ascii) : option string :=
  if (code a =? 195)%nat && (code b =? 159)%nat then Some "SS"
  else if (code a =? 196)%nat && (code b =? 177)%nat then Some "I"
  else if (code a =? 197)%nat && (code b =? 191)%nat then Some "S"
  else None.

Definition upper3 (a b c : ascii) : option string :=
  if (code a =? 239)%nat && (code b =? 172)%nat then
    match code c with
    | 128 => Some "FF"
    | 129 => Some "FI"
    | 130 => Some "FL"
    | 131 => Some "FFI"
    | 132 => Some "FFL"
    | 133 | 134 => Some "ST"
    | _ => None
    end%nat
  else None.

(** The one character outside ASCII whose lower case is ASCII text: the
    Kelvin sign U+212A. *)
Definition lower3 (a b c : ascii) : option string :=
  if (code a =? 226)%nat && (code b =? 132)%nat && (code c =? 170)%nat
  then Some "k" else None.

(** A case conversion that maps the ASCII letters by [f] and the
    characters [two] and [three] name to their images; every other byte
    stands for itself. *)
Fixpoint convert_case (f : ascii -> ascii) (two : ascii -> ascii -> option string)
    (three : ascii -> ascii -> ascii -> option string) (s : string) : string :=
  match s with
  | EmptyString => EmptyString
  | String a r =>
      let plain := String (f a) (convert_case f two three r) in
      match r with
      | String b r2 =>
          match two a b with
          | Some image => image +:+ convert_case f two three r2
          | None =>
              match r2 with
              | String c r3 =>
                  match three a b c with
                  | Some image => image +:+ convert_case f two three r3
                  | None => plain
                  end
              | EmptyString => plain
              end
          end
      | EmptyString => plain
      end
  end.

(** [s.toUpperCase()] and [s.toLowerCase()], as far as a comparison with
    ASCII text can tell: exact on ASCII and on the characters whose image
    is ASCII text; a character whose image has a character outside ASCII
    is left as it is, so that the result is ASCII text exactly when the
    JavaScript result is, and then equal to it. *)
Definition toUpperCase : string -> string :=
  convert_case upper_char upper2 upper3.
Definition toLowerCase : string -> string :=
  convert_case lower_char (fun _ _ => None) lower3.

Fixpoint forall_string (p : ascii -> bool) (s : string) : bool :=
  match s with
  | EmptyString => true
  | String a r => p a && forall_string p r
  end.

Definition is_empty (s : string) : bool :=
  match s with EmptyString => true | _ => false end.

Fixpoint drop_start (p : ascii -> bool) (s : string) : string :=
  match s with
  | EmptyString => EmptyString
  | String a r => if p a then drop_start p r else s
  end.

Fixpoint drop_end (p : ascii -> bool) (s : string) : string :=
  match s with
  | EmptyString => EmptyString
  | String a r =>
      let t := drop_end p r in
      if p a && is_empty t then EmptyString else String a t
  end.

(** [s.trimStart()] *)
Fixpoint trimStart (s : string) : string :=
  match s with
  | EmptyString => EmptyString
  | String a r =>
      if is_white_space a then trimStart r
      else
        match r with
        | String b r2 =>
            if is_white_space2 a b then trimStart r2
            else
              match r2 with
              | String c r3 => if is_white_space3 a b c then trimStart r3 else s
              | EmptyString => s
              end
        | EmptyString => s
        end
  end.

(** Nothing but white space. *)
Definition blank (s : string) : bool := is_empty (trimStart s).

(** [s.trimEnd()]: the longest blank end of [s] goes. *)
Fixpoint trimEnd (s : string) : string :=
  match s with
  | EmptyString => EmptyString
  | String a r => if blank s then EmptyString else String a (trimEnd r)
  end.

(** [s.trim()] *)
Definition trim (s : string) : string := trimEnd (trimStart s).

Definition is_slash (a : ascii) : bool := (code a =? 47)%nat.

(** [s.replace(/\/$/, '')]: one trailing slash goes. *)
Fixpoint strip_one_trailing_slash (s : string) : string :=
  match s with
  | EmptyString => EmptyString
  | String a EmptyString => if is_slash a then EmptyString else s
  | String a r => String a (strip_one_trailing_slash r)
  end.

(** [s.replace(/^\/+|\/+$/g, '')]: the leading and the trailing run go. *)
Definition strip_slashes (s : string) : string :=
  drop_end is_slash (drop_start is_slash s).

(** [s.split(sep)] for a one-character separator. *)
Fixpoint split (sep : ascii -> bool) (s : string) : list string :=
  match s with
  | EmptyString => [EmptyString]
  | String a r =>
      if sep a then EmptyString :: split sep r
      else match split sep r with
           | h :: t => String a h :: t
           | [] => [String a EmptyString]
           end
  end.

(** [l.join(sep)] *)
Fixpoint join (sep : string) (l : list string) : string :=
  match l with
  | [] => EmptyString
  | [x] => x
  | x :: r => x +:+ sep +:+ join sep r
  end.

(** [l.filter(Boolean)] on strings: the empty ones go. *)
Definition filter_nonempty (l : list string) : list string :=
  List.filter (fun s => negb (is_empty s)) l.

(** ** Percent-encoding *)

Definition hex_digit (n : nat) : ascii :=
  if (n <? 10)%nat then ascii_of_nat (48 + n) else ascii_of_nat (55 + n).

Definition hex_value (a : ascii) : option nat :=
  if is_digit a then Some (code a - 48)%nat
  else if between 65 70 a then Some (code a - 55)%nat
  else if between 97 102 a then Some (code a - 87)%nat
  else None.

Definition is_percent (a : ascii) : bool := (code a =? 37)%nat.

Definition percent (a : ascii) : string :=
  String "%" (String (hex_digit (code a / 16))
                     (String (hex_digit (code a mod 16)) EmptyString)).

Fixpoint percent_encode (keep : ascii -> bool) (s : string) : string :=
  match s with
  | EmptyString => EmptyString
  | String a r =>
      if keep a then String a (percent_encode keep r)
      else percent a +:+ percent_encode keep r
  end.

Definition one_of (l : list nat) (a : ascii) : bool :=
  existsb (fun n => (code a =? n)%nat) l.

(** A-Z a-z 0-9 - _ . ! ~ * ' ( ) stay as they are. *)
Definition uri_unreserved (a : ascii) : bool :=
  is_alnum a || one_of [45; 95; 46; 33; 126; 42; 39; 40; 41]%nat a.


(** The escapes of a string: [(true, b)] for [%XX], [(false, c)] for a
    character standing for itself; [None] when a [%] lacks its two hex
    digits. *)
Fixpoint unescape (s : string) : option (list (bool * ascii)) :=
  match s with
  | EmptyString => Some []
  | String a r =>
      if is_percent a then
        match r with
        | String h (String l r') =>
            match hex_value h, hex_value l with
            | Some x, Some y =>
                option_map (cons (true, ascii_of_nat (16 * x + y))) (unescape r')
            | _, _ => None
            end
        | _ => None
        end
      else option_map (cons (false, a)) (unescape r)
  end.

(** The continuation bytes a UTF-8 lead byte asks for, as ranges. *)
Definition utf8_lead (a : ascii) : option (list (nat * nat)) :=
  let c := code a in
  let tail := (128, 191)%nat in
  if between 194 223 a then Some [tail]
  else if (c =? 224)%nat then Some [(160, 191)%nat; tail]
  else if (c =? 237)%nat then Some [(128, 159)%nat; tail]
  else if between 225 239 a then Some [tail; tail]
  else if (c =? 240)%nat then Some [(144, 191)%nat; tail; tail]
  else if between 241 243 a then Some [tail; tail; tail]
  else if (c =? 244)%nat then Some [(128, 143)%nat; tail; tail]
  else None.

(** Escaped bytes above 0x7F must spell well-formed UTF-8, each byte of a
    sequence escaped. *)
Fixpoint utf8_escapes_ok (pending : list (nat * nat)) (ts : list (bool * ascii))
  : bool :=
  match ts with
  | [] => match pending with [] => true | _ => false end
  | (esc, a) :: r =>
      match pending with
      | (lo, hi) :: p => esc && between lo hi a && utf8_escapes_ok p r
      | [] =>
          if esc && (128 <=? code a)%nat then
            match utf8_lead a with
            | Some p => utf8_escapes_ok p r
            | None => false
            end
          else utf8_escapes_ok [] r
      end
  end.

(** Well-formed UTF-8: no lone surrogate among the characters. *)
Fixpoint utf8_ok (pending : list (nat * nat)) (s : string) : bool :=
  match s with
  | EmptyString => match pending with [] => true | _ => false end
  | String a r =>
      match pending with
      | (lo, hi) :: p => between lo hi a && utf8_ok p r
      | [] =>
          if (128 <=? code a)%nat then
            match utf8_lead a with
            | Some p => utf8_ok p r
            | None => false
            end
          else utf8_ok [] r
      end
  end.

Definition well_formed (s : string) : bool := utf8_ok [] s.

(** The UTF-8 bytes of [s], all but the unreserved ones escaped. *)
Definition uri_encode (s : string) : string := percent_encode uri_unreserved s.

(** [encodeURIComponent(s)]; throws URIError on a lone surrogate. *)
Definition encodeURIComponent (s : string) : result string :=
  if well_formed s then Ok (uri_encode s) else Throw URIError.

(** [err.message] of the errors the engine raises.  (The message of
    InvalidLevel goes on with the level; [emit], the one reader of
    messages, never sees that error.) *)
Definition message_of (e : Thrown) : string :=
  match e with
  | InvalidLevel => "Invalid log level"
  | URIError => "URI malformed"
  | RangeError => "Maximum call stack size exceeded"
  end.

Fixpoint string_of_chars (l : list ascii) : string :=
  match l with
  | [] => EmptyString
  | a :: r => String a (string_of_chars r)
  end.

(** [decodeURIComponent(s)]; throws URIError on a malformed escape. *)
Definition decodeURIComponent (s : string) : result string :=
  match unescape s with
  | Some ts =>
      if utf8_escapes_ok [] ts then Ok (string_of_chars (map snd ts))
      else Throw URIError
  | None => Throw URIError
  end.

(** ** [new URL(s)]

    The parser belongs to node:url.  The SDK reads four properties of
    the URL it returns and catches the TypeError it throws; [None]
    stands for that TypeError. *)

Record URL : Type := mkURL {
  protocol : string;
  host : string;
  hostname : string;
  pathname : string
}.

Class Node : Type := { new_URL : string -> option URL }.

(** ** A parser for plain URLs

    What node:url answers for an absolute [http:] or [https:] URL whose
    authority is a plain lower- or upper-case host name: labels of
    letters, digits and hyphens, none starting with [xn--], the last one
    starting with a letter (so it is a domain, not an IPv4 number).
    Credentials, ports, IP literals, IDNA labels and other schemes are
    outside it: there [URL_parse] answers [None], which says nothing
    about Node.  The samples and the replayed tests, whose URLs are all
    plain, run on this parser, and so do the two round trips between a
    resource reference and its endpoint. *)

Definition is_c0_or_space (a : ascii) : bool := (code a <=? 32)%nat.
Definition is_tab_or_newline (a : ascii) : bool := one_of [9; 10; 13]%nat a.
Definition is_path_sep (a : ascii) : bool := one_of [47; 92]%nat a.
Definition ends_path (a : ascii) : bool := one_of [63; 35]%nat a.
Definition ends_authority (a : ascii) : bool := is_path_sep a || ends_path a.
Definition is_dot (a : ascii) : bool := (code a =? 46)%nat.

Fixpoint remove_chars (p : ascii -> bool) (s : string) : string :=
  match s with
  | EmptyString => EmptyString
  | String a r => if p a then remove_chars p r else String a (remove_chars p r)
  end.

Fixpoint take_until (p : ascii -> bool) (s : string) : string :=
  match s with
  | EmptyString => EmptyString
  | String a r => if p a then EmptyString else String a (take_until p r)
  end.

Fixpoint drop_until (p : ascii -> bool) (s : string) : string :=
  match s with
  | EmptyString => EmptyString
  | String a r => if p a then s else drop_until p r
  end.

(** [s] without the prefix [p], compared without regard to ASCII case. *)
Fixpoint strip_prefix_ci (p s : string) : option string :=
  match p, s with
  | EmptyString, _ => Some s
  | String a p', String b s' =>
      if Ascii.eqb a (lower_char b) then strip_prefix_ci p' s' else None
  | _, EmptyString => None
  end.

Definition parse_scheme (s : string) : option (string * string) :=
  match strip_prefix_ci "https:" s with
  | Some r => Some ("https:", r)
  | None =>
      match strip_prefix_ci "http:" s with
      | Some r => Some ("http:", r)
      | None => None
      end
  end.

Definition starts_with (p s : string) : bool :=
  match strip_prefix_ci p s with Some _ => true | None => false end.

Definition first_char_is (p : ascii -> bool) (s : string) : bool :=
  match s with String a _ => p a | EmptyString => false end.

Definition is_host_char (a : ascii) : bool :=
  is_lower a || is_digit a || one_of [45; 46]%nat a.

Definition label_ok (l : string) : bool :=
  negb (is_empty l) && negb (starts_with "xn--" l).

(** The host names of the model, already in lower case. *)
Definition host_ok (h : string) : bool :=
  forall_string is_host_char h
  && forallb label_ok (split is_dot h)
  && first_char_is is_lower (List.last (split is_dot h) EmptyString).

Definition parse_host (authority : string) : option string :=
  let h := ascii_lower authority in
  if host_ok h then Some h else None.

(** The path percent-encode set: C0 controls, space, the double quote, #,
    <, >, ?, the backquote, the braces, and every byte above ~. *)
Definition path_keep (a : ascii) : bool :=
  negb ((code a <=? 32)%nat || (127 <=? code a)%nat
        || one_of [34; 35; 60; 62; 63; 96; 123; 125]%nat a).

Definition is_single_dot (s : string) : bool :=
  existsb (String.eqb (ascii_lower s)) ["."; "%2e"].
Definition is_double_dot (s : string) : bool :=
  existsb (String.eqb (ascii_lower s)) [".."; ".%2e"; "%2e."; "%2e%2e"].

(** The path state: dot segments are resolved, the others encoded. *)
Fixpoint path_state (path : list string) (segs : list string) : list string :=
  match segs with
  | [] => path
  | [s] =>
      if is_double_dot s then removelast path ++ [EmptyString]
      else if is_single_dot s then path ++ [EmptyString]
      else path ++ [percent_encode path_keep s]
  | s :: r =>
      if is_double_dot s then path_state (removelast path) r
      else if is_single_dot s then path_state path r
      else path_state (path ++ [percent_encode path_keep s]) r
  end.

Fixpoint serialize_path (path : list string) : string :=
  match path with
  | [] => EmptyString
  | s :: r => String "/" s +:+ serialize_path r
  end.

Definition parse_path (rest : string) : string :=
  let p := take_until ends_path rest in
  let p := match p with
           | String a r => if is_path_sep a then r else p
           | EmptyString => p
           end in
  serialize_path (path_state [] (split is_path_sep p)).

Definition URL_parse (input : string) : option URL :=
  let s := drop_end is_c0_or_space (drop_start is_c0_or_space input) in
  let s := remove_chars is_tab_or_newline s in
  match parse_scheme s with
  | None => None
  | Some (scheme, rest) =>
      let rest := drop_start is_path_sep rest in
      match parse_host (take_until ends_authority rest) with
      | None => None
      | Some h =>
          Some {| protocol := scheme; host := h; hostname := h;
                  pathname := parse_path (drop_until ends_authority rest) |}
      end
  end.

#[export] Instance plain_URLs : Node := {| new_URL := URL_parse |}.

End Js.

(* ===================================================================== *)
(** * client.js *)
(* ===================================================================== *)

Module Client.
Import Js.

Section WithNode.

Context {parser : Node}.

Definition ALERT_LEVEL : Z := 45.
Definition DEFAULT_BASE_URL : string := "https://alshival.dev".

Definition TRUE_ENV_VALUES : gset string :=
  list_to_set ["1"; "true"; "t"; "yes"; "y"; "on"].

Definition DISABLED_LEVEL_VALUES : gset string :=
  list_to_set ["NONE"; "NULL"; "FALSE"; "OFF"; "DISABLE"; "DISABLED"].

Definition CLOUD_LEVEL_TABLE : list (string * Z) :=
  [("ALERT", ALERT_LEVEL); ("ERROR", 40); ("WARNING", 30); ("INFO", 20);
   ("DEBUG", 10)].

Definition LEVEL_TABLE : list (string * Z) :=
  [("ALERT", ALERT_LEVEL); ("ALERTS", ALERT_LEVEL); ("CRITICAL", 50);
   ("FATAL", 50); ("ERROR", 40); ("WARNING", 30); ("WARN", 30); ("INFO", 20);
   ("DEBUG", 10); ("NOTSET", 0)].

Definition CLOUD_LEVEL_NAME_TO_NO : gmap string Z := list_to_map CLOUD_LEVEL_TABLE.
Definition LEVEL_NAME_TO_NO : gmap string Z := list_to_map LEVEL_TABLE.

Definition LEVEL_DEBUG : Z := 10.
Definition LEVEL_INFO : Z := 20.

(** ** Level coercion *)

(** The tail of [coerceLevel], reached by everything that is not null, a
    boolean or a finite number. *)
Definition coerceLevelName (level : Val) : result (option Z) :=
  let name := toUpperCase (trim (ToString level)) in
  if decide (name ∈ DISABLED_LEVEL_VALUES) then Ok None
  else match LEVEL_NAME_TO_NO !! name with
       | Some n => Ok (Some n)
       | None => Throw InvalidLevel
       end.

Definition coerceLevel (level : Val) : result (option Z) :=
  match level with
  | VNull => Ok None
  | VBool false => Ok None
  | VBool true => Throw InvalidLevel
  | VNum (Finite q _) => Ok (Some (Math_trunc q))
  | _ => coerceLevelName level
  end.

Definition coerceCloudLevel (level : Val) : result (option Z) :=
  match level with
  | VStr s =>
      let name := toUpperCase (trim s) in
      if decide (name = "NONE") then Ok None
      else match CLOUD_LEVEL_NAME_TO_NO !! name with
           | Some n => Ok (Some n)
           | None => Throw InvalidLevel
           end
  | _ => Throw InvalidLevel
  end.

(** ** The environment *)

Definition getenv (env : gmap string string) (name : string) : Val :=
  match env !! name with Some s => VStr s | None => VUndefined end.

Definition envBool (env : gmap string string) (name : string) (defaultValue : bool)
  : bool :=
  match getenv env name with
  | VUndefined => defaultValue
  | value =>
      bool_decide (toLowerCase (trim (ToString value)) ∈ TRUE_ENV_VALUES)
  end.

Definition envCloudLevel (env : gmap string string) (name : string)
    (defaultValue : option Z) : option Z :=
  match getenv env name with
  | VUndefined => defaultValue
  | value =>
      if is_empty (trim (ToString value)) then defaultValue
      else try_catch (coerceCloudLevel value) defaultValue
  end.

(** ** Portal prefixes and resource references *)

Definition normalizePortalPrefix (value : Val) : option string :=
  match value with
  | VUndefined | VNull => None
  | _ =>
      let raw := trim (ToString value) in
      if is_empty raw then Some EmptyString
      else
        let cleaned := String "/" (strip_slashes raw) in
        Some (if decide (cleaned = "/") then EmptyString else cleaned)
  end.

Record ResourceReference : Type := mkReference {
  ref_baseUrl : string;
  ref_portalPrefix : string;
  ref_resourceOwnerUsername : string;
  ref_resourceId : string
}.

(** The scan [for (index = 0; index <= segments.length - 4; index += 1)]:
    [count] iterations are left. *)
Fixpoint scan_segments (segments : list string) (index count : nat) : option nat :=
  match count with
  | O => None
  | S count' =>
      if bool_decide (segments !! index = Some "u")
         && bool_decide (segments !! (index + 2)%nat = Some "resources")
      then Some index
      else scan_segments segments (S index) count'
  end.

Definition find_resource_index (segments : list string) : option nat :=
  scan_segments segments 0 (length segments - 3).

(** The segments of the path, a last [logs] dropped. *)
Definition path_segments (pathname : string) : list string :=
  let segments := filter_nonempty (split is_slash pathname) in
  match last segments with
  | Some l =>
      if decide (toLowerCase l = "logs") then removelast segments else segments
  | None => segments
  end.

Definition decode_segment (segments : list string) (i : nat) : result string :=
  bind (decodeURIComponent (default EmptyString (segments !! i)))
       (fun s => Ok (trim s)).

Definition parseResourceReference (resource : Val)
  : result (option ResourceReference) :=
  match resource with
  | VUndefined | VNull => Ok None
  | _ =>
      let raw := trim (ToString resource) in
      if is_empty raw then Ok None
      else
        match new_URL raw with
        | None => Ok None
        | Some parsed =>
            let segments := path_segments (pathname parsed) in
            match find_resource_index segments with
            | None => Ok None
            | Some index =>
                bind (decode_segment segments (index + 1)) (fun owner =>
                bind (decode_segment segments (index + 3)) (fun resourceId =>
                  if is_empty owner || is_empty resourceId then Ok None
                  else
                    let prefixSegments := take index segments in
                    let portalPrefix :=
                      match prefixSegments with
                      | [] => EmptyString
                      | _ => String "/" (join "/" prefixSegments)
                      end in
                    let portalPrefix :=
                      if decide (portalPrefix = "/") then EmptyString
                      else portalPrefix in
                    Ok (Some {|
                      ref_baseUrl :=
                        strip_one_trailing_slash
                          (protocol parsed +:+ "//" +:+ host parsed);
                      ref_portalPrefix := portalPrefix;
                      ref_resourceOwnerUsername := owner;
                      ref_resourceId := resourceId |})))
            end
        end
  end.

(** ** The configuration store *)

Record Config : Type := mkConfig {
  username : Val;
  resourceOwnerUsername : option string;
  apiKey : Val;
  baseUrl : string;
  portalPrefix : option string;
  resourceId : option string;
  enabled : bool;
  cloudLevel : option Z;
  timeoutSeconds : Num;
  verifySsl : bool;
  debug : bool
}.

Definition set_username (v : Val) (c : Config) : Config :=
  mkConfig v (resourceOwnerUsername c) (apiKey c) (baseUrl c) (portalPrefix c)
    (resourceId c) (enabled c) (cloudLevel c) (timeoutSeconds c) (verifySsl c)
    (debug c).
Definition set_resourceOwnerUsername (v : option string) (c : Config) : Config :=
  mkConfig (username c) v (apiKey c) (baseUrl c) (portalPrefix c)
    (resourceId c) (enabled c) (cloudLevel c) (timeoutSeconds c) (verifySsl c)
    (debug c).
Definition set_apiKey (v : Val) (c : Config) : Config :=
  mkConfig (username c) (resourceOwnerUsername c) v (baseUrl c) (portalPrefix c)
    (resourceId c) (enabled c) (cloudLevel c) (timeoutSeconds c) (verifySsl c)
    (debug c).
Definition set_baseUrl (v : string) (c : Config) : Config :=
  mkConfig (username c) (resourceOwnerUsername c) (apiKey c) v (portalPrefix c)
    (resourceId c) (enabled c) (cloudLevel c) (timeoutSeconds c) (verifySsl c)
    (debug c).
Definition set_portalPrefix (v : option string) (c : Config) : Config :=
  mkConfig (username c) (resourceOwnerUsername c) (apiKey c) (baseUrl c) v
    (resourceId c) (enabled c) (cloudLevel c) (timeoutSeconds c) (verifySsl c)
    (debug c).
Definition set_resourceId (v : option string) (c : Config) : Config :=
  mkConfig (username c) (resourceOwnerUsername c) (apiKey c) (baseUrl c)
    (portalPrefix c) v (enabled c) (cloudLevel c) (timeoutSeconds c)
    (verifySsl c) (debug c).
Definition set_enabled (v : bool) (c : Config) : Config :=
  mkConfig (username c) (resourceOwnerUsername c) (apiKey c) (baseUrl c)
    (portalPrefix c) (resourceId c) v (cloudLevel c) (timeoutSeconds c)
    (verifySsl c) (debug c).
Definition set_cloudLevel (v : option Z) (c : Config) : Config :=
  mkConfig (username c) (resourceOwnerUsername c) (apiKey c) (baseUrl c)
    (portalPrefix c) (resourceId c) (enabled c) v (timeoutSeconds c)
    (verifySsl c) (debug c).
Definition set_timeoutSeconds (v : Num) (c : Config) : Config :=
  mkConfig (username c) (resourceOwnerUsername c) (apiKey c) (baseUrl c)
    (portalPrefix c) (resourceId c) (enabled c) (cloudLevel c) v (verifySsl c)
    (debug c).
Definition set_verifySsl (v : bool) (c : Config) : Config :=
  mkConfig (username c) (resourceOwnerUsername c) (apiKey c) (baseUrl c)
    (portalPrefix c) (resourceId c) (enabled c) (cloudLevel c)
    (timeoutSeconds c) v (debug c).
Definition set_debug (v : bool) (c : Config) : Config :=
  mkConfig (username c) (resourceOwnerUsername c) (apiKey c) (baseUrl c)
    (portalPrefix c) (resourceId c) (enabled c) (cloudLevel c)
    (timeoutSeconds c) (verifySsl c) v.

(** [process.env.X || null] *)
Definition env_or_null (env : gmap string string) (name : string) : Val :=
  or_else (getenv env name) VNull.

Definition buildClientConfigFromEnv (env : gmap string string) : result Config :=
  bind (parseResourceReference
          (or_else (getenv env "ALSHIVAL_RESOURCE")
                   (getenv env "ALSHIVAL_RESOURCE_URL")))
  (fun resourceEnv =>
    let debugEnv := envBool env "ALSHIVAL_DEBUG" false in
    let defaultCloudLevel := if debugEnv then LEVEL_DEBUG else LEVEL_INFO in
    let baseUrl :=
      match resourceEnv with
      | Some r => ref_baseUrl r
      | None =>
          ToString (or_else (getenv env "ALSHIVAL_BASE_URL") (VStr DEFAULT_BASE_URL))
      end in
    let portalPrefix :=
      match resourceEnv with
      | Some r => Some (ref_portalPrefix r)
      | None => normalizePortalPrefix (getenv env "ALSHIVAL_PORTAL_PREFIX")
      end in
    Ok {|
      username := env_or_null env "ALSHIVAL_USERNAME";
      resourceOwnerUsername := ref_resourceOwnerUsername <$> resourceEnv;
      apiKey := env_or_null env "ALSHIVAL_API_KEY";
      baseUrl := strip_one_trailing_slash baseUrl;
      portalPrefix := portalPrefix;
      resourceId := ref_resourceId <$> resourceEnv;
      enabled := true;
      cloudLevel :=
        envCloudLevel env "ALSHIVAL_CLOUD_LEVEL" (Some defaultCloudLevel);
      timeoutSeconds := Finite 5 "5";
      verifySsl := true;
      debug := debugEnv |}).

(** ** configure *)

(** The options object: its own properties. *)
Definition has (options : gmap string Val) (key : string) : bool :=
  bool_decide (is_Some (options !! key)).

Definition get (options : gmap string Val) (key : string) : Val :=
  default VUndefined (options !! key).

(** [hasOwnProperty(options, a) ? options.a : options.b] *)
Definition get2 (options : gmap string Val) (a b : string) : Val :=
  if has options a then get options a else get options b.

Definition is_undefined (v : Val) : bool :=
  match v with VUndefined => true | _ => false end.

Definition is_true (v : Val) : bool :=
  match v with VBool true => true | _ => false end.

(** [if (v !== undefined) store = f(store)] *)
Definition when_defined (v : Val) (f : Config -> Config) (c : Config) : Config :=
  if is_undefined v then c else f c.

(** Lines 203-218: the resource reference. *)
Definition apply_resource (resource baseUrl portalPrefix : Val) (c : Config)
  : result Config :=
  if is_undefined resource then Ok c
  else
    bind (parseResourceReference resource) (fun parsedResource =>
      match parsedResource with
      | Some r =>
          let c := if is_undefined baseUrl then set_baseUrl (ref_baseUrl r) c else c in
          let c := if is_undefined portalPrefix
                   then set_portalPrefix (Some (ref_portalPrefix r)) c else c in
          let c := set_resourceOwnerUsername (Some (ref_resourceOwnerUsername r)) c in
          Ok (set_resourceId (Some (ref_resourceId r)) c)
      | None =>
          Ok (set_resourceId None (set_resourceOwnerUsername None c))
      end).

(** Lines 220-234: the fields written before the cloud level. *)
Definition apply_fields (username apiKey baseUrl portalPrefix enabled : Val)
    (c : Config) : Config :=
  let c := when_defined username (set_username username) c in
  let c := when_defined apiKey (set_apiKey apiKey) c in
  let c := when_defined baseUrl
             (set_baseUrl (strip_one_trailing_slash (ToString baseUrl))) c in
  let c := when_defined portalPrefix
             (set_portalPrefix (normalizePortalPrefix portalPrefix)) c in
  when_defined enabled (set_enabled (truthy enabled)) c.

(** Lines 236-248: the cloud level. *)
Definition apply_cloud_level (options : gmap string Val) (debug : Val) (c : Config)
  : result Config :=
  if has options "cloudLevel" || has options "cloud_level" then
    bind (coerceCloudLevel (get2 options "cloudLevel" "cloud_level"))
         (fun l => Ok (set_cloudLevel l c))
  else if is_true debug && bool_decide (cloudLevel c <> None) then
    Ok (set_cloudLevel (Some LEVEL_DEBUG) c)
  else Ok c.

(** Lines 250-258: the fields written after the cloud level. *)
Definition apply_tail (timeoutSeconds verifySsl debug : Val) (c : Config) : Config :=
  let c := when_defined timeoutSeconds
             (fun c => match timeoutSeconds with
                       | VNum (Finite q shown) => set_timeoutSeconds (Finite q shown) c
                       | _ => c
                       end) c in
  let c := when_defined verifySsl (set_verifySsl (truthy verifySsl)) c in
  when_defined debug (set_debug (truthy debug)) c.

(** [configure(options)] on the store [_config]: the store it leaves, and
    what it threw, if anything.  The two refresh hooks that end it are
    no-ops on the store and cannot raise. *)
Definition configure (options : gmap string Val) (_config : Config)
  : Config * option Thrown :=
  let username := get options "username" in
  let resource := get options "resource" in
  let apiKey := get2 options "apiKey" "api_key" in
  let baseUrl := get2 options "baseUrl" "base_url" in
  let portalPrefix := get2 options "portalPrefix" "portal_prefix" in
  let enabled := get options "enabled" in
  let timeoutSeconds := get2 options "timeoutSeconds" "timeout_seconds" in
  let verifySsl := get2 options "verifySsl" "verify_ssl" in
  let debug := get options "debug" in
  match apply_resource resource baseUrl portalPrefix _config with
  | Throw e => (_config, Some e)
  | Ok c =>
      let c := apply_fields username apiKey baseUrl portalPrefix enabled c in
      match apply_cloud_level options debug c with
      | Throw e => (c, Some e)
      | Ok c => (apply_tail timeoutSeconds verifySsl debug c, None)
      end
  end.

Definition setEnabled (v : Val) (c : Config) : Config := set_enabled (truthy v) c.

(** ** Endpoints *)

Definition MARKETING_HOSTS : list string := ["alshival.ai"; "www.alshival.ai"].

Definition resolvedPortalPrefix (cfg : Config) : string :=
  match portalPrefix cfg with
  | Some p => p
  | None =>
      match new_URL (baseUrl cfg) with
      | None => EmptyString
      | Some parsed =>
          match normalizePortalPrefix (VStr (pathname parsed)) with
          | Some (String a r) => String a r
          | _ =>
              let host := toLowerCase (trim (hostname parsed)) in
              if bool_decide (host ∈ MARKETING_HOSTS) then "/DevTools"
              else EmptyString
          end
      end
  end.

(** The [base] of [buildResourceLogsEndpoint]. *)
Definition endpoint_base (cfg : Config) : string :=
  match new_URL (ToString (or_else (VStr (baseUrl cfg)) (VStr DEFAULT_BASE_URL))) with
  | Some parsed => protocol parsed +:+ "//" +:+ host parsed
  | None => DEFAULT_BASE_URL
  end.

Definition buildResourceLogsEndpoint (cfg : Config) (username resourceId : Val)
  : result string :=
  let base := endpoint_base cfg in
  let portalPrefix := resolvedPortalPrefix cfg in
  bind (encodeURIComponent (trim (ToString (or_else username (VStr EmptyString)))))
  (fun safeUser =>
  bind (encodeURIComponent (trim (ToString (or_else resourceId (VStr EmptyString)))))
  (fun safeResource =>
    Ok (base +:+ portalPrefix +:+ "/u/" +:+ safeUser +:+ "/resources/"
        +:+ safeResource +:+ "/logs/"))).

End WithNode.

End Client.

(* ===================================================================== *)
(** * logger.js: safeValue *)
(* ===================================================================== *)

Module Safe.
Import Js.

(** The values [safeValue] is called on, without cycles: a primitive, an
    array without holes, an object with its own enumerable string-keyed
    properties in the order [Object.entries] lists them, or a function,
    symbol or bigint with the text [String] gives for it. *)
#[warnings="-register-all"]
Inductive Data : Type :=
| DPrim (v : Val)
| DArray (items : list Data)
| DObject (entries : list (string * Data))
| DOther (shown : string).

(** [out[key] = item] on an object that started as [{}]: the name
    [__proto__] reaches the prototype setter and makes no property; a
    name that is there keeps its place; a new name goes last. *)
Fixpoint put (key : string) (item : Data) (out : list (string * Data))
  : list (string * Data) :=
  match out with
  | [] => [(key, item)]
  | (k, v) :: rest =>
      if String.eqb k key then (k, item) :: rest else (k, v) :: put key item rest
  end.

Definition assign (key : string) (item : Data) (out : list (string * Data))
  : list (string * Data) :=
  if String.eqb key "__proto__" then out else put key item out.

Fixpoint safeValue (value : Data) : Data :=
  match value with
  | DPrim v => DPrim v
  | DArray items => DArray (map safeValue items)
  | DObject entries =>
      DObject (fold_left (fun out kv => assign kv.1 (safeValue kv.2) out) entries [])
  | DOther shown => DPrim (VStr shown)
  end.

(** Data that JSON can carry as it is: primitives, arrays and objects
    all the way down, no property named [__proto__]. *)
Fixpoint json_like (d : Data) : bool :=
  match d with
  | DPrim _ => true
  | DArray items => forallb json_like items
  | DObject entries =>
      forallb (fun kv => negb (String.eqb kv.1 "__proto__") && json_like kv.2) entries
  | DOther _ => false
  end.

(** The property names of every object are distinct, as they are in
    JavaScript. *)
Fixpoint distinct_keys (d : Data) : bool :=
  match d with
  | DPrim _ | DOther _ => true
  | DArray items => forallb distinct_keys items
  | DObject entries =>
      bool_decide (NoDup (map fst entries))
      && forallb (fun kv => distinct_keys kv.2) entries
  end.

End Safe.

(* ===================================================================== *)
(** * logger.js *)
(* ===================================================================== *)

Module Logger.
Import Js Client Safe.

Section WithNode.

Context {parser : Node}.

Definition LEVEL_NO_TO_NAME : gmap Z string :=
  list_to_map [(0, "NOTSET"); (10, "DEBUG"); (20, "INFO"); (30, "WARNING");
               (40, "ERROR"); (45, "ALERT"); (50, "CRITICAL")].

Definition normalizedLevelNo (level : Val) : result (option Z) := coerceLevel level.

Definition levelNameFromNo (levelNo : Z) : string :=
  match LEVEL_NO_TO_NAME !! levelNo with
  | Some name => name
  | None =>
      if 50 <=? levelNo then "CRITICAL"
      else if ALERT_LEVEL <=? levelNo then "ALERT"
      else if 40 <=? levelNo then "ERROR"
      else if 30 <=? levelNo then "WARNING"
      else if 20 <=? levelNo then "INFO"
      else if 10 <=? levelNo then "DEBUG"
      else "NOTSET"
  end.

(** What the [extra] of a record holds: a value without cycles, or one
    that contains itself. *)
Inductive Extra : Type :=
| acyclic (d : Data)
| cyclic.

(** ToBoolean of a value: an array, an object, a function and a symbol
    are truthy; the one falsy bigint is [0n], which [String] shows as
    [0]. *)
Definition data_truthy (d : Data) : bool :=
  match d with
  | DPrim v => truthy v
  | DOther shown => negb (String.eqb shown "0")
  | DArray _ | DObject _ => true
  end.

(** [x || {}] *)
Definition or_empty_object (x : Extra) : Extra :=
  match x with
  | acyclic d => acyclic (if data_truthy d then d else DObject [])
  | cyclic => cyclic
  end.

(** The record of one log call; [stack_info], [exception] and the
    source position only travel in the payload and are left out. *)
Record LogRecord : Type := mkRecord {
  name : string;
  levelno : Z;
  levelname : string;
  message : string;
  alshival_resource_id : option string;
  extra : Extra
}.

Record CloudLogHandler : Type := mkHandler {
  handler_resourceId : option string;
  handler_cloudLevel : option Z;
  _inEmit : bool
}.

(** [new CloudLogHandler({ resourceId, cloudLevel })] *)
Definition new_handler (resourceId : option string) (cloudLevel : option Z)
  : CloudLogHandler :=
  {| handler_resourceId := resourceId; handler_cloudLevel := cloudLevel;
     _inEmit := false |}.

Definition set_inEmit (b : bool) (h : CloudLogHandler) : CloudLogHandler :=
  mkHandler (handler_resourceId h) (handler_cloudLevel h) b.
Definition set_handler_cloudLevel (l : option Z) (h : CloudLogHandler)
  : CloudLogHandler :=
  mkHandler (handler_resourceId h) l (_inEmit h).

(** An entry of [logs]: [entry_extra] is its [extra.extra]; the time
    stamp and the other properties of its [extra] are left out. *)
Record LogEntry : Type := mkEntry {
  entry_level : string;
  entry_message : string;
  entry_logger : string;
  entry_extra : Data
}.

(** The payload, without [sdk_version] (read from package.json). *)
Record Payload : Type := mkPayload {
  resource_id : string;
  sdk : string;
  logs : list LogEntry
}.

(** The argument of one [transport(...)] call. *)
Record Request : Type := mkRequest {
  url : string;
  payload : Payload;
  headers : gmap string Val;
  req_timeoutSeconds : Num;
  req_verifySsl : bool
}.

Definition nullable (o : option string) : Val :=
  match o with Some s => VStr s | None => VNull end.

Definition shouldForward (h : CloudLogHandler) (cfg : Config) (record : LogRecord)
  : bool :=
  if negb (enabled cfg) then false
  else match cloudLevel cfg with
       | None => false
       | Some cfgLevel =>
           let minLevel := default cfgLevel (handler_cloudLevel h) in
           if levelno record <? minLevel then false
           else if negb (truthy (apiKey cfg)) then false
           else if negb (truthy (username cfg)) then false
           else true
       end.

(** [for (const value of candidates) if (value && String(value).trim()) ...] *)
Fixpoint first_resource (candidates : list Val) : string :=
  match candidates with
  | [] => EmptyString
  | value :: rest =>
      if truthy value && negb (is_empty (trim (ToString value)))
      then trim (ToString value)
      else first_resource rest
  end.

Definition resolvedResourceId (h : CloudLogHandler) (cfg : Config)
    (record : LogRecord) : string :=
  first_resource [nullable (handler_resourceId h);
                  nullable (alshival_resource_id record);
                  nullable (resourceId cfg)].

(** [debug(msg)]: a line on stderr when the store's [debug] is set. *)
Definition debug_write (cfg : Config) (msg : string) : list string :=
  if debug cfg then [msg] else [].

Record Emitted : Type := mkEmitted {
  handler_after : CloudLogHandler;
  calls : list Request;
  diagnostics : list string
}.

(** [safeValue(record.extra || {})]: on a value that contains itself
    the recursion of [safeValue] does not end, and the engine raises
    RangeError when the stack is exhausted. *)
Definition safe_extra (x : Extra) : result Data :=
  match or_empty_object x with
  | acyclic d => Ok (safeValue d)
  | cyclic => Throw RangeError
  end.

Definition build_payload (resolvedResource : string) (record : LogRecord)
  : result Payload :=
  bind (safe_extra (extra record)) (fun safe =>
    Ok {| resource_id := resolvedResource;
          sdk := "alshival-nodejs";
          logs := [ {| entry_level :=
                         toLowerCase (ToString (or_else (VStr (levelname record))
                                                        (VStr "INFO")));
                       entry_message :=
                         ToString (or_else (VStr (message record)) (VStr EmptyString));
                       entry_logger :=
                         ToString (or_else (VStr (name record)) (VStr "alshival"));
                       entry_extra := safe |} ]
       |}).

Definition build_headers (cfg : Config) : gmap string Val :=
  let headers : gmap string Val :=
    {[ "x-api-key" := or_else (apiKey cfg) (VStr EmptyString) ]} in
  if truthy (username cfg) then <[ "x-user-username" := username cfg ]> headers
  else headers.

(** The argument of the transport call: the payload, then the owner
    and the endpoint, then the headers. *)
Definition build_request (cfg : Config) (resolvedResource : string)
    (record : LogRecord) : result Request :=
  bind (build_payload resolvedResource record) (fun payload =>
    let resourceOwner :=
      trim (ToString (or_else (or_else (nullable (resourceOwnerUsername cfg))
                                       (username cfg))
                              (VStr EmptyString))) in
    bind (buildResourceLogsEndpoint cfg (VStr resourceOwner) (VStr resolvedResource))
    (fun endpoint =>
      Ok {| url := endpoint;
            payload := payload;
            headers := build_headers cfg;
            req_timeoutSeconds := timeoutSeconds cfg;
            req_verifySsl := verifySsl cfg |})).

(** The body of the [try] in [emit]: the transport calls it makes and
    the diagnostics it writes, or what it throws. *)
Definition emit_body (h : CloudLogHandler) (cfg : Config) (record : LogRecord)
  : result (list Request * list string) :=
  if negb (shouldForward h cfg record) then Ok ([], [])
  else
    let resolvedResource := resolvedResourceId h cfg record in
    if is_empty resolvedResource then
      Ok ([], debug_write cfg
         "skipping cloud log: missing resource target (set ALSHIVAL_RESOURCE or pass resourceId)")
    else
      bind (build_request cfg resolvedResource record) (fun request =>
        Ok ([request], [])).

(** [handler.emit(record)]: the transport calls it makes, the diagnostics
    it writes before returning, and the handler it leaves.  What the body
    throws is caught and reported by [debug]; the transport is one that
    returns, as [postJson] does (its failures reject the promise). *)
Definition emit (h : CloudLogHandler) (cfg : Config) (record : LogRecord) : Emitted :=
  if _inEmit h then {| handler_after := h; calls := []; diagnostics := [] |}
  else
    let h := set_inEmit true h in
    match emit_body h cfg record with
    | Ok (cs, ds) =>
        {| handler_after := set_inEmit false h; calls := cs; diagnostics := ds |}
    | Throw e =>
        {| handler_after := set_inEmit false h; calls := [];
           diagnostics :=
             debug_write cfg ("cloud log emit failed: " +:+ message_of e) |}
    end.

(** ** Loggers and their handler lists *)

Record AlshivalLogger : Type := mkLogger {
  _loggerName : string;
  _minLevel : Z;
  handlers : list CloudLogHandler
}.

(** [dedupeAddHandler(target, handler)] on the handler list of the target:
    the list it leaves and the position of the handler it returns. *)
Fixpoint dedupe_from (index : nat) (hs : list CloudLogHandler)
    (handler : CloudLogHandler) : list CloudLogHandler * nat :=
  match hs with
  | [] => ([handler], index)
  | existing :: rest =>
      if decide (handler_resourceId existing = handler_resourceId handler) then
        (match handler_cloudLevel handler with
         | Some l => set_handler_cloudLevel (Some l) existing
         | None => existing
         end :: rest, index)
      else
        let '(rest', k) := dedupe_from (S index) rest handler in
        (existing :: rest', k)
  end.

Definition dedupeAddHandler (hs : list CloudLogHandler) (handler : CloudLogHandler)
  : list CloudLogHandler * nat :=
  dedupe_from 0 hs handler.

(** [new AlshivalLogger(name, { minLevel, cloudLevel, resourceId })] *)
Definition new_logger (name : string) (minLevel : Z) (cloudLevel : option Z)
    (resourceId : option string) : AlshivalLogger :=
  {| _loggerName := name; _minLevel := minLevel;
     handlers := fst (dedupeAddHandler [] (new_handler resourceId cloudLevel)) |}.

(** [log.attach(target, { level, cloudLevel, resourceId })] for a target
    that is an [AlshivalLogger]. *)
Definition attach (target : AlshivalLogger) (level cloudLevel : Val)
    (resourceId : option string) : result (AlshivalLogger * nat) :=
  let resolved := if is_undefined cloudLevel then level else cloudLevel in
  bind (if is_undefined resolved then Ok None else normalizedLevelNo resolved)
  (fun normalizedCloudLevel =>
    let '(hs, k) :=
      dedupeAddHandler (handlers target) (new_handler resourceId normalizedCloudLevel) in
    Ok (mkLogger (_loggerName target) (_minLevel target) hs, k)).

(** [for (const currentHandler of this.handlers) currentHandler.emit(record)] *)
Fixpoint emit_each (hs : list CloudLogHandler) (cfg : Config) (record : LogRecord)
  : list CloudLogHandler * list Request :=
  match hs with
  | [] => ([], [])
  | h :: rest =>
      let e := emit h cfg record in
      let '(rest', cs) := emit_each rest cfg record in
      (handler_after e :: rest', calls e ++ cs)
  end.

(** [logger.emit(record)] without a local logger. *)
Definition logger_emit (l : AlshivalLogger) (cfg : Config) (record : LogRecord)
  : AlshivalLogger * list Request :=
  if levelno record <? _minLevel l then (l, [])
  else
    let '(hs, cs) := emit_each (handlers l) cfg record in
    (mkLogger (_loggerName l) (_minLevel l) hs, cs).

End WithNode.

End Logger.

(* ===================================================================== *)
(** * White space, character by character *)
(* ===================================================================== *)

Module Text.
Import Js.

(** What follows a leading white space character. *)
Definition after_white_space (s : string) : option string :=
  match s with
  | EmptyString => None
  | String a r =>
      if is_white_space a then Some r
      else
        match r with
        | String b r2 =>
            if is_white_space2 a b then Some r2
            else
              match r2 with
              | String c r3 => if is_white_space3 a b c then Some r3 else None
              | EmptyString => None
              end
        | EmptyString => None
        end
  end.

(** A byte that starts a white space character. *)
Definition starts_white_space (a : ascii) : bool :=
  is_white_space a || one_of [194; 225; 226; 227; 239]%nat a.

(** The ranges of continuation bytes. *)
Definition continuation (pending : list (nat * nat)) : Prop :=
  Forall (fun range => (128 <= range.1)%nat) pending.

End Text.

(* ===================================================================== *)
(** * The specification's vocabulary *)
(* ===================================================================== *)

Module Spec.
Import Js Client Logger.

Section WithNode.

Context {parser : Node}.

(** A resource id that is not blank, trimmed. *)
Definition nonblank (o : option string) : option string :=
  match o with
  | Some s => if is_empty (trim s) then None else Some (trim s)
  | None => None
  end.

(** The resource id of a record: the handler's bound id, then the
    per-call override, then the store's. *)
Definition resolves (h : CloudLogHandler) (cfg : Config) (r : LogRecord)
  : option string :=
  match nonblank (handler_resourceId h) with
  | Some i => Some i
  | None =>
      match nonblank (alshival_resource_id r) with
      | Some i => Some i
      | None => nonblank (resourceId cfg)
      end
  end.

(** The effective minimum: the handler's override if set, else the
    store's cloud level. *)
Definition effective_minimum (h : CloudLogHandler) (cfg : Config) : option Z :=
  match handler_cloudLevel h with
  | Some l => Some l
  | None => cloudLevel cfg
  end.

(** The six conditions of the forwarding decision.  Non-empty is truthy:
    for a string, not the empty one. *)
Definition forwarding_conditions (h : CloudLogHandler) (cfg : Config)
    (r : LogRecord) : Prop :=
  enabled cfg = true
  /\ cloudLevel cfg <> None
  /\ (exists m, effective_minimum h cfg = Some m /\ m <= levelno r)
  /\ truthy (apiKey cfg) = true
  /\ truthy (username cfg) = true
  /\ is_Some (resolves h cfg r).

(** The user of an endpoint: [resourceOwnerUsername] if set, else
    [username]. *)
Definition owner_or_username (cfg : Config) : Val :=
  match resourceOwnerUsername cfg with
  | Some o => if is_empty o then username cfg else VStr o
  | None => username cfg
  end.

(** The request of a record can be built: its [extra] does not contain
    itself, and the trimmed user of the endpoint and the resource id are
    well-formed strings. *)
Definition request_can_be_built (h : CloudLogHandler) (cfg : Config)
    (r : LogRecord) : Prop :=
  extra r <> cyclic
  /\ well_formed (trim (ToString (owner_or_username cfg))) = true
  /\ forall id, resolves h cfg r = Some id -> well_formed id = true.

(** The forwarding rule as the specification words it. *)
Definition forwarding_as_stated (h : CloudLogHandler) (cfg : Config)
    (r : LogRecord) : Prop :=
  (exists request, calls (emit h cfg r) = [request]) <-> forwarding_conditions h cfg r.

(** The endpoint as the specification words it: scheme and host of
    [baseUrl], the resolved prefix, the encoded user and resource id. *)
Definition endpoint_as_stated (cfg : Config) (id endpoint : string) : Prop :=
  exists parsed,
    new_URL (baseUrl cfg) = Some parsed
    /\ endpoint =
         protocol parsed +:+ "//" +:+ host parsed +:+ resolvedPortalPrefix cfg
         +:+ "/u/" +:+ uri_encode (ToString (owner_or_username cfg))
         +:+ "/resources/" +:+ uri_encode id +:+ "/logs/".

(** The resource ids the handlers of a list are bound to. *)
Definition bound_ids (hs : list CloudLogHandler) : list (option string) :=
  handler_resourceId <$> hs.

(** What a merge leaves of the first-registered handler: itself, its
    override replaced by the later handler's when that one has one. *)
Definition merged (existing later : CloudLogHandler) : CloudLogHandler :=
  {| handler_resourceId := handler_resourceId existing;
     handler_cloudLevel :=
       match handler_cloudLevel later with
       | Some l => Some l
       | None => handler_cloudLevel existing
       end;
     _inEmit := _inEmit existing |}.

(** The transport calls one record causes through the handlers bound to
    [rid]. *)
Definition calls_bound_to (rid : option string) (hs : list CloudLogHandler)
    (cfg : Config) (r : LogRecord) : list Request :=
  flat_map (fun h => calls (emit h cfg r))
           (List.filter (fun h => bool_decide (handler_resourceId h = rid)) hs).

(** The prefix rule as the specification words it, for a store with no
    explicit prefix and a [baseUrl] without a path: /DevTools exactly on
    the host alshival.ai. *)
Definition host_rule_as_stated (cfg : Config) : Prop :=
  forall parsed,
    portalPrefix cfg = None ->
    new_URL (baseUrl cfg) = Some parsed ->
    strip_slashes (trim (pathname parsed)) = EmptyString ->
    resolvedPortalPrefix cfg
    = if decide (hostname parsed = "alshival.ai") then "/DevTools" else EmptyString.

(** The resource URL of the environment: ALSHIVAL_RESOURCE, else
    ALSHIVAL_RESOURCE_URL. *)
Definition env_resource (env : gmap string string) : Val :=
  or_else (getenv env "ALSHIVAL_RESOURCE") (getenv env "ALSHIVAL_RESOURCE_URL").

(** The environment rule as the specification words it: an explicit
    base-URL variable wins over the base URL of the resource. *)
Definition env_base_url_as_stated (env : gmap string string) (cfg : Config) : Prop :=
  forall b, env !! "ALSHIVAL_BASE_URL" = Some b -> b <> EmptyString ->
            baseUrl cfg = strip_one_trailing_slash b.

(** The resource step of a [configure] call. *)
Definition resource_step (options : gmap string Val) (cfg : Config) : result Config :=
  apply_resource (get options "resource") (get2 options "baseUrl" "base_url")
    (get2 options "portalPrefix" "portal_prefix") cfg.

(** A field is supplied when the call gives it a value other than
    undefined, under its canonical name or, failing that, its alias. *)
Definition supplied (options : gmap string Val) (canonical alias : string) : bool :=
  negb (is_undefined (get2 options canonical alias)).
Definition supplied1 (options : gmap string Val) (key : string) : bool :=
  negb (is_undefined (get options key)).

(** The cloud level is given explicitly when one of its two keys is an
    own property of the options. *)
Definition has_cloud_level (options : gmap string Val) : bool :=
  has options "cloudLevel" || has options "cloud_level".

(** The frame rule as the specification words it, for the cloud level:
    a call that does not supply it leaves it as it was. *)
Definition cloud_level_frame_as_stated (options : gmap string Val) (cfg : Config)
  : Prop :=
  has_cloud_level options = false ->
  cloudLevel (configure options cfg).1 = cloudLevel cfg.

(** A plain character: a letter, a digit, or one of - . _ ~ (the URL
    parser and [decodeURIComponent] leave it as it is). *)
Definition is_plain (a : ascii) : bool :=
  is_alnum a || one_of [45; 46; 95; 126]%nat a.

(** A plain path segment: not empty, of plain characters, and not a dot
    segment. *)
Definition plain_segment (s : string) : Prop :=
  s <> EmptyString /\ forall_string is_plain s = true /\ s <> "." /\ s <> "..".

(** The resource URL of the specification and its logs-suffixed form. *)
Definition resource_url (host prefix owner id : string) : string :=
  "https://" +:+ host +:+ "/" +:+ prefix +:+ "/u/" +:+ owner +:+ "/resources/"
  +:+ id +:+ "/".
Definition resource_logs_url (host prefix owner id : string) : string :=
  "https://" +:+ host +:+ "/" +:+ prefix +:+ "/u/" +:+ owner +:+ "/resources/"
  +:+ id +:+ "/logs/".

Definition reference_of (host prefix owner id : string) : ResourceReference :=
  {| ref_baseUrl := "https://" +:+ host;
     ref_portalPrefix := "/" +:+ prefix;
     ref_resourceOwnerUsername := owner;
     ref_resourceId := id |}.

(** The round trip as the specification words it. *)
Definition roundtrip_as_stated (host prefix owner id : string) : Prop :=
  parseResourceReference (VStr (resource_url host prefix owner id))
  = Ok (Some (reference_of host prefix owner id))
  /\ parseResourceReference (VStr (resource_logs_url host prefix owner id))
     = Ok (Some (reference_of host prefix owner id)).

(** A path segment: not empty, and without a slash. *)
Definition segment (s : string) : Prop :=
  s <> EmptyString /\ forall_string (fun a => negb (is_slash a)) s = true.

(** The URL written with the scheme https, a host and the segments of a
    path, and what [new URL] makes of it when it reads the scheme, the
    host and the path as they are written. *)
Definition https_url (host : string) (segments : list string) : string :=
  "https://" +:+ host +:+ serialize_path segments.

Definition read_as_written (host : string) (segments : list string) : Prop :=
  exists parsed,
    new_URL (https_url host segments) = Some parsed
    /\ protocol parsed = "https:" /\ Js.host parsed = host
    /\ pathname parsed = serialize_path segments.

(** Owner and id as [parseResourceReference] reads them off a segment:
    URL-decoded, then trimmed. *)
Definition decoded (s : string) : result string :=
  bind (decodeURIComponent s) (fun x => Ok (trim x)).

(** The pattern u/<owner>/resources/<id> starts at segment [i]. *)
Definition pattern_at (segments : list string) (i : nat) : Prop :=
  segments !! i = Some "u" /\ segments !! (i + 2)%nat = Some "resources"
  /\ (i + 3 < length segments)%nat.

(** The request [emit] hands to the transport when it forwards. *)
Definition forwarded_request (h : CloudLogHandler) (cfg : Config) (r : LogRecord)
  : result Request :=
  build_request cfg (resolvedResourceId h cfg r) r.

(** What a step keeps. *)
Definition same_identity (a b : Config) : Prop :=
  username a = username b /\ apiKey a = apiKey b /\ enabled a = enabled b.
Definition same_tail (a b : Config) : Prop :=
  timeoutSeconds a = timeoutSeconds b /\ verifySsl a = verifySsl b
  /\ debug a = debug b.
Definition same_target (a b : Config) : Prop :=
  resourceOwnerUsername a = resourceOwnerUsername b /\ resourceId a = resourceId b.
Definition same_location (a b : Config) : Prop :=
  baseUrl a = baseUrl b /\ portalPrefix a = portalPrefix b.

(** A segment the path state passes through unchanged. *)
Definition passes (s : string) : Prop :=
  is_double_dot s = false /\ is_single_dot s = false
  /\ percent_encode path_keep s = s.

(** Segments of plain characters, none of them a dot segment. *)
Definition plain_path (segs : list string) : Prop :=
  segs <> []
  /\ Forall (fun s => forall_string is_plain s = true /\ s <> "." /\ s <> "..") segs.

End WithNode.

End Spec.

(* ===================================================================== *)
(** * Sample stores, handlers and records *)
(* ===================================================================== *)

Module Samples.
Import Js Client Safe Logger.

(** The store the test-suite resets to. *)
Definition reset_config : Config :=
  {| username := VNull; resourceOwnerUsername := None; apiKey := VNull;
     baseUrl := "https://alshival.ai"; portalPrefix := None; resourceId := None;
     enabled := true; cloudLevel := Some 20; timeoutSeconds := Finite 5 "5";
     verifySsl := true; debug := false |}.

(** After [configure({ username: 'u', apiKey: 'k', resource:
    'https://alshival.dev/u/u/resources/r/' })]. *)
Definition ready_config : Config :=
  {| username := VStr "u"; resourceOwnerUsername := Some "u"; apiKey := VStr "k";
     baseUrl := "https://alshival.dev"; portalPrefix := Some EmptyString;
     resourceId := Some "r";
     enabled := true; cloudLevel := Some 20; timeoutSeconds := Finite 5 "5";
     verifySsl := true; debug := false |}.

(** After [configure({ username: ' bob ', apiKey: 'k', baseUrl:
    'https://alshival.dev' })]: no resource, a padded user name. *)
Definition padded_user_config : Config :=
  {| username := VStr " bob "; resourceOwnerUsername := None; apiKey := VStr "k";
     baseUrl := "https://alshival.dev"; portalPrefix := None; resourceId := None;
     enabled := true; cloudLevel := Some 20; timeoutSeconds := Finite 5 "5";
     verifySsl := true; debug := false |}.

(** U+00A0, the no-break space, and U+0131, the dotless i, in UTF-8. *)
Definition no_break_space : string := String "194" (String "160" EmptyString).
Definition dotless_i : string := String "196" (String "177" EmptyString).

(** [log.info('hello')] *)
Definition info_record : LogRecord :=
  {| name := "alshival"; levelno := 20; levelname := "INFO"; message := "hello";
     alshival_resource_id := None; extra := acyclic (DObject []) |}.

(** [log.info('hello', { resourceId: 'r' })] *)
Definition info_record_for_r : LogRecord :=
  {| name := "alshival"; levelno := 20; levelname := "INFO"; message := "hello";
     alshival_resource_id := Some "r"; extra := acyclic (DObject []) |}.

(** [const extra = {}; extra.self = extra; log.info('hello', { extra })] *)
Definition info_record_with_cycle : LogRecord :=
  {| name := "alshival"; levelno := 20; levelname := "INFO"; message := "hello";
     alshival_resource_id := None; extra := cyclic |}.

(** The module's own logger, [new AlshivalLogger('alshival')]. *)
Definition log : AlshivalLogger := new_logger "alshival" 10 None None.

(** The record of [log.<level>(message)]. *)
Definition record (levelNo : Z) (levelName message : string) : LogRecord :=
  {| name := "alshival"; levelno := levelNo; levelname := levelName;
     message := message; alshival_resource_id := None;
     extra := acyclic (DObject []) |}.

(** The store after the [configure] call most tests start with. *)
Definition configured (cloudLevel : Val) : Config :=
  (configure {[ "username" := VStr "u"; "apiKey" := VStr "k";
                "resource" := VStr "https://alshival.dev/u/u/resources/r/";
                "enabled" := VBool true; "cloudLevel" := cloudLevel ]}
             reset_config).1.

End Samples.

(* ===================================================================== *)
(** * logger.js: the logger facade *)
(* ===================================================================== *)

Module Facade.
Import Js Client Safe Logger.

Section WithNode.

Context {parser : Node}.

(** [logger.buildRecord(levelNo, levelName, msg, args, options)].  The
    text [format(msg, ...args)] of node:util is the parameter [message];
    [resourceId] is [options.resourceId], a primitive, and [extra] is
    [options.extra].  The record keeps the resource id when it is truthy;
    [resolvedResourceId], its only reader, takes [String] of it, which is
    what the field holds here. *)
Definition buildRecord (l : AlshivalLogger) (levelNo : Z) (levelName message : string)
    (resourceId : Val) (extra : Extra) : LogRecord :=
  {| name := _loggerName l;
     levelno := levelNo;
     levelname := levelName;
     message := message;
     alshival_resource_id :=
       if truthy resourceId then Some (ToString resourceId) else None;
     Logger.extra := or_empty_object extra |}.

(** [logger.log(level, msg, ...rawArgs)] *)
Definition log (l : AlshivalLogger) (cfg : Config) (level : Val) (message : string)
    (resourceId : Val) (extra : Extra) : result (AlshivalLogger * list Request) :=
  bind (normalizedLevelNo level) (fun levelNo =>
    match levelNo with
    | None => Ok (l, [])
    | Some n =>
        Ok (logger_emit l cfg
              (buildRecord l n (levelNameFromNo n) message resourceId extra))
    end).

(** [logger.debug], [info], [warning], [error], [critical], [alert]:
    [warn] calls [warning]. *)
Inductive LevelMethod : Type :=
| m_debug | m_info | m_warning | m_warn | m_error | m_critical | m_alert.

Definition method_level (m : LevelMethod) : Z * string :=
  match m with
  | m_debug => (10, "DEBUG")
  | m_info => (20, "INFO")
  | m_warning | m_warn => (30, "WARNING")
  | m_error => (40, "ERROR")
  | m_critical => (50, "CRITICAL")
  | m_alert => (ALERT_LEVEL, "ALERT")
  end.

Definition log_at (m : LevelMethod) (l : AlshivalLogger) (cfg : Config)
    (message : string) (resourceId : Val) (extra : Extra)
  : AlshivalLogger * list Request :=
  logger_emit l cfg
    (buildRecord l (method_level m).1 (method_level m).2 message resourceId extra).

(** [log.getLogger(name, { level, cloudLevel, resourceId })]; [level]
    defaults to INFO when it is undefined. *)
Definition getLogger (name level cloudLevel : Val) (resourceId : option string)
  : result AlshivalLogger :=
  let level := if is_undefined level then VNum (Finite 20 "20") else level in
  bind (normalizedLevelNo level) (fun minLevel =>
    let resolvedMinLevel := default LEVEL_INFO minLevel in
    bind (if is_undefined cloudLevel then Ok (Some resolvedMinLevel)
          else normalizedLevelNo cloudLevel)
    (fun resolvedCloud =>
      Ok (new_logger (ToString (or_else name (VStr "alshival")))
            resolvedMinLevel resolvedCloud resourceId))).

(** The methods [patchExternalLogger] wraps. *)
Inductive ExternalMethod : Type :=
| x_debug | x_info | x_warn | x_warning | x_error | x_critical | x_log.

(** An argument of a wrapped call: a primitive, or an object, array or
    function. *)
Inductive Arg : Type :=
| APrim (v : Val)
| ANonPrim.

Definition external_record (name : string) (levelNo : Z) (message : string)
  : LogRecord :=
  {| name := name; levelno := levelNo; levelname := levelNameFromNo levelNo;
     message := message; alshival_resource_id := None;
     extra := acyclic (DObject []) |}.

(** [buildExternalRecord(logger, method, args)]; [name] is
    [String(logger.name || logger.constructor.name || 'logger')] and
    [message] the formatted text. *)
Definition buildExternalRecord (name message : string) (method : ExternalMethod)
    (args : list Arg) : result (option LogRecord) :=
  match method with
  | x_log =>
      match args with
      | [] => Ok None
      | APrim (VNum n) :: _ =>
          bind (normalizedLevelNo (VNum n))
               (fun c => Ok ((fun k => external_record name k message) <$> c))
      | APrim (VStr t) :: _ =>
          bind (normalizedLevelNo (VStr t))
               (fun c => Ok ((fun k => external_record name k message) <$> c))
      | APrim (VBool b) :: _ =>
          bind (normalizedLevelNo (VBool b))
               (fun c => Ok ((fun k => external_record name k message) <$> c))
      | _ => Ok (Some (external_record name LEVEL_INFO message))
      end
  | x_debug => Ok (Some (external_record name 10 message))
  | x_info => Ok (Some (external_record name 20 message))
  | x_warn | x_warning => Ok (Some (external_record name 30 message))
  | x_error => Ok (Some (external_record name 40 message))
  | x_critical => Ok (Some (external_record name 50 message))
  end.

(** What the wrapper of [patchExternalLogger] does after the original
    method: the record goes to every handler attached to the target, and
    whatever the synthesis throws is swallowed. *)
Definition wrapped_emit (hs : list CloudLogHandler) (cfg : Config)
    (name message : string) (method : ExternalMethod) (args : list Arg)
  : list CloudLogHandler * list Request :=
  match buildExternalRecord name message method args with
  | Ok (Some record) => emit_each hs cfg record
  | Ok None => (hs, [])
  | Throw _ => (hs, [])
  end.


End WithNode.

End Facade.

(* ===================================================================== *)
(** * client.js: envLevel *)
(* ===================================================================== *)

Module EnvLevels.
Import Js Client.

Definition envLevel (env : gmap string string) (name : string)
    (defaultValue : option Z) : option Z :=
  match getenv env name with
  | VUndefined => defaultValue
  | value =>
      if is_empty (trim (ToString value)) then defaultValue
      else try_catch (coerceLevel value) defaultValue
  end.

End EnvLevels.

(* ===================================================================== *)
(** * mcp-tools.js *)
(* ===================================================================== *)

Module Mcp.
Import Js Client.

Section WithNode.

Context {parser : Node}.

Definition DEFAULT_MCP_URL : string := "https://mcp.alshival.ai/mcp/".
Definition DEFAULT_GITHUB_MCP_URL : string := "https://mcp.alshival.ai/github/".

Definition clean (value : Val) : string :=
  trim (ToString (or_else value (VStr EmptyString))).

Fixpoint pick (values : list Val) : string :=
  match values with
  | [] => EmptyString
  | value :: rest =>
      let cleaned := clean value in
      if truthy (VStr cleaned) then cleaned else pick rest
  end.

Definition resolvedIdentity (env : gmap string string) (cfg : Config)
    (apiKey username : Val) : string * string :=
  (pick [apiKey; Client.apiKey cfg; getenv env "ALSHIVAL_API_KEY"],
   pick [username; Client.username cfg; getenv env "ALSHIVAL_USERNAME"]).

Definition resolvedRequireApproval (env : gmap string string) (value : Val) : string :=
  pick [value; getenv env "ALSHIVAL_MCP_REQUIRE_APPROVAL"; VStr "never"].

(** [headers[name] = value] on an object literal, for a string [value]:
    the name [__proto__] reaches the prototype setter, which ignores a
    string. *)
Definition set_header (name value : string) (headers : gmap string string)
  : gmap string string :=
  if decide (name = "__proto__") then headers else <[ name := value ]> headers.

(** [buildHeaders({ apiKey, username })] with [includeAccept] at its
    default; [buildTool], its only caller, passes two strings. *)
Definition buildHeaders (env : gmap string string) (apiKey username : string)
  : gmap string string :=
  let headers : gmap string string := ∅ in
  let apiKeyHeader := pick [getenv env "ALSHIVAL_MCP_API_KEY_HEADER"; VStr "x-api-key"] in
  let usernameHeader :=
    pick [getenv env "ALSHIVAL_MCP_USERNAME_HEADER"; VStr "x-user-username"] in
  let headers := if truthy (VStr apiKey) then set_header apiKeyHeader apiKey headers
                 else headers in
  let headers := if truthy (VStr username)
                 then set_header usernameHeader username headers else headers in
  <[ "accept" := "application/json, text/event-stream" ]> headers.

Record Tool : Type := mkTool {
  type : string;
  server_label : string;
  server_url : string;
  require_approval : string;
  tool_headers : gmap string string
}.

Definition buildTool (env : gmap string string) (cfg : Config)
    (serverLabel : string) (serverUrl apiKey username requireApproval : Val) : Tool :=
  let '(resolvedApiKey, resolvedUsername) := resolvedIdentity env cfg apiKey username in
  {| type := "mcp";
     server_label := serverLabel;
     server_url := clean serverUrl;
     require_approval := resolvedRequireApproval env requireApproval;
     tool_headers := buildHeaders env resolvedApiKey resolvedUsername |}.

Definition mcpTool (env : gmap string string) (cfg : Config)
    (serverUrl apiKey username requireApproval : Val) : Tool :=
  buildTool env cfg "alshival-mcp"
    (VStr (pick [serverUrl; getenv env "ALSHIVAL_MCP_URL"; VStr DEFAULT_MCP_URL]))
    apiKey username requireApproval.

Definition githubMcpTool (env : gmap string string) (cfg : Config)
    (serverUrl apiKey username requireApproval : Val) : Tool :=
  buildTool env cfg "github-mcp"
    (VStr (pick [serverUrl; getenv env "ALSHIVAL_GITHUB_MCP_URL";
                 VStr DEFAULT_GITHUB_MCP_URL]))
    apiKey username requireApproval.

(** [MCPToolSpec.refresh()], which is [refreshMcp()]: the fields of the
    descriptor [mcp] are those of [mcpTool()]. *)
Definition refreshMcp (env : gmap string string) (cfg : Config) : Tool :=
  mcpTool env cfg VUndefined VUndefined VUndefined VUndefined.

(** [configure(options)] on the store and the descriptor [mcp]: the call
    of [refreshMcp] is the last statement of [configure], reached when
    nothing was thrown before it. *)
Definition configure_and_refresh (env : gmap string string)
    (options : gmap string Val) (state : Config * Tool)
  : (Config * Tool) * option Thrown :=
  match configure options state.1 with
  | (cfg, Some e) => ((cfg, state.2), Some e)
  | (cfg, None) => ((cfg, refreshMcp env cfg), None)
  end.

End WithNode.

End Mcp.

(* ===================================================================== *)
(** * Well-formed stores *)
(* ===================================================================== *)

Module Shape.
Import Js Client.

Fixpoint last_char_is (p : ascii -> bool) (s : string) : bool :=
  match s with
  | EmptyString => false
  | String a EmptyString => p a
  | String _ r => last_char_is p r
  end.

(** A path segment: not empty, and without a slash. *)
Definition not_slash (a : ascii) : bool := negb (is_slash a).
Definition segment_ok (s : string) : bool :=
  negb (is_empty s) && forall_string not_slash s.

(** A portal prefix is null, empty, or one slash followed by a text that
    neither starts nor ends with a slash. *)
Definition prefix_ok (p : option string) : bool :=
  match p with
  | None | Some EmptyString => true
  | Some (String a r) =>
      is_slash a && first_char_is not_slash r && last_char_is not_slash r
  end.

(** The characters [encodeURIComponent] writes: the unreserved ones and
    [%] (the hex digits are unreserved). *)
Definition is_encoded (a : ascii) : bool := uri_unreserved a || is_percent a.

(** A cloud level is null or one of the five numbers of
    CLOUD_LEVEL_NAME_TO_NO. *)
Definition cloud_level_ok (c : option Z) : bool :=
  match c with
  | None => true
  | Some n => bool_decide (n ∈ CLOUD_LEVEL_TABLE.*2)
  end.

Definition store_ok (cfg : Config) : bool :=
  cloud_level_ok (cloudLevel cfg)
  && isFinite (VNum (timeoutSeconds cfg))
  && prefix_ok (portalPrefix cfg).

End Shape.

(* ===================================================================== *)

(* ===================================================================== *)
(** * Properties *)
(* ===================================================================== *)

Import Js Client Safe Logger Text Spec.

(** ** Strings *)

Section Strings.

Variable p : ascii -> bool.

Lemma drop_end_idem (s : string) : drop_end p (drop_end p s) = drop_end p s.
Proof.
  induction s as [|a r IH]; [reflexivity|].
  cbn [drop_end].
  destruct (p a && is_empty (drop_end p r)) eqn:E; [reflexivity|].
  cbn [drop_end]. rewrite IH, E. reflexivity.
Qed.

Lemma drop_end_first (s : string) :
  first_char_is (fun a => negb (p a)) s = true ->
  first_char_is (fun a => negb (p a)) (drop_end p s) = true.
Proof.
  destruct s as [|a r]; [discriminate|].
  cbn. intros H. apply negb_true_iff in H. rewrite H. cbn. rewrite H. reflexivity.
Qed.

Lemma drop_start_first (s : string) :
  drop_start p s = EmptyString
  \/ first_char_is (fun a => negb (p a)) (drop_start p s) = true.
Proof.
  induction s as [|a r IH]; [left; reflexivity|].
  cbn [drop_start]. destruct (p a) eqn:E; [exact IH|].
  right. cbn. rewrite E. reflexivity.
Qed.

Lemma drop_start_fixed (s : string) :
  first_char_is (fun a => negb (p a)) s = true -> drop_start p s = s.
Proof.
  destruct s as [|a r]; [discriminate|].
  cbn. intros H. apply negb_true_iff in H. rewrite H. reflexivity.
Qed.

End Strings.

Lemma is_empty_true (s : string) : is_empty s = true <-> s = EmptyString.
Proof. destruct s; split; (reflexivity || discriminate). Qed.

Lemma is_empty_false (s : string) : is_empty s = false <-> s <> EmptyString.
Proof. destruct s; split; try (reflexivity || discriminate || congruence). Qed.

(** For a string, truthy is non-empty; null and undefined are falsy. *)
Lemma truthy_string (s : string) : truthy (VStr s) = negb (is_empty s).
Proof. destruct s; reflexivity. Qed.

Lemma or_else_string (s d : string) :
  ToString (or_else (VStr s) (VStr d)) = if is_empty s then d else s.
Proof. destruct s; reflexivity. Qed.

Lemma append_assoc (x y z : string) : (x +:+ y) +:+ z = x +:+ y +:+ z.
Proof.
  induction x as [|a r IH]; [reflexivity|].
  change (String a ((r +:+ y) +:+ z) = String a (r +:+ y +:+ z)).
  rewrite IH. reflexivity.
Qed.

Lemma append_empty_r (s : string) : s +:+ EmptyString = s.
Proof.
  induction s as [|a r IH]; [reflexivity|].
  change (String a (r +:+ EmptyString) = String a r). rewrite IH. reflexivity.
Qed.

Section CharacterRuns.

Variable p : ascii -> bool.

(** [none s]: no character of [s] satisfies [p]. *)
Let none (s : string) : Prop := forall_string (fun a => negb (p a)) s = true.

Lemma forall_string_app (q : ascii -> bool) (x y : string) :
  forall_string q (x +:+ y) = forall_string q x && forall_string q y.
Proof.
  induction x as [|a r IH]; [reflexivity|].
  simpl. rewrite IH. destruct (q a); reflexivity.
Qed.

Lemma forall_string_impl (q q' : ascii -> bool) (s : string) :
  (forall a, q a = true -> q' a = true) ->
  forall_string q s = true -> forall_string q' s = true.
Proof.
  intros H. induction s as [|a r IH]; [reflexivity|].
  cbn. intros Hs. apply andb_true_iff in Hs as [Ha Hr].
  rewrite (H a Ha), (IH Hr). reflexivity.
Qed.

Lemma none_cons (a : ascii) (r : string) : none (String a r) -> p a = false /\ none r.
Proof.
  unfold none. simpl. intros H. apply andb_true_iff in H as [Ha Hr].
  apply negb_true_iff in Ha. split; assumption.
Qed.

Lemma drop_start_none (s : string) : none s -> drop_start p s = s.
Proof.
  destruct s as [|a r]; [reflexivity|]. intros H.
  apply none_cons in H as [Ha _]. simpl. rewrite Ha. reflexivity.
Qed.

Lemma drop_end_none (s : string) : none s -> drop_end p s = s.
Proof.
  induction s as [|a r IH]; [reflexivity|]. intros H.
  apply none_cons in H as [Ha Hr]. simpl. rewrite Ha, (IH Hr). reflexivity.
Qed.

Lemma remove_chars_none (s : string) : none s -> remove_chars p s = s.
Proof.
  induction s as [|a r IH]; [reflexivity|]. intros H.
  apply none_cons in H as [Ha Hr]. simpl. rewrite Ha, (IH Hr). reflexivity.
Qed.

Lemma take_until_none (s : string) : none s -> take_until p s = s.
Proof.
  induction s as [|a r IH]; [reflexivity|]. intros H.
  apply none_cons in H as [Ha Hr]. simpl. rewrite Ha, (IH Hr). reflexivity.
Qed.

Lemma take_until_app (x : string) (c : ascii) (y : string) :
  none x -> p c = true -> take_until p (x +:+ String c y) = x.
Proof.
  intros Hx Hc. induction x as [|a r IH]; simpl.
  - rewrite Hc. reflexivity.
  - apply none_cons in Hx as [Ha Hr]. rewrite Ha, (IH Hr). reflexivity.
Qed.

Lemma drop_until_app (x : string) (c : ascii) (y : string) :
  none x -> p c = true -> drop_until p (x +:+ String c y) = String c y.
Proof.
  intros Hx Hc. induction x as [|a r IH]; simpl.
  - rewrite Hc. reflexivity.
  - apply none_cons in Hx as [Ha Hr]. rewrite Ha. exact (IH Hr).
Qed.

Lemma drop_until_none (s : string) : none s -> drop_until p s = EmptyString.
Proof.
  induction s as [|a r IH]; [reflexivity|]. intros H.
  apply none_cons in H as [Ha Hr]. simpl. rewrite Ha. exact (IH Hr).
Qed.

Lemma split_none (x : string) : none x -> split p x = [x].
Proof.
  induction x as [|a r IH]; [reflexivity|]. intros H.
  apply none_cons in H as [Ha Hr]. simpl. rewrite Ha, (IH Hr). reflexivity.
Qed.

Lemma split_app (x : string) (c : ascii) (y : string) :
  none x -> p c = true -> split p (x +:+ String c y) = x :: split p y.
Proof.
  intros Hx Hc. induction x as [|a r IH]; simpl.
  - rewrite Hc. reflexivity.
  - apply none_cons in Hx as [Ha Hr]. rewrite Ha, (IH Hr). reflexivity.
Qed.

Lemma percent_encode_kept (s : string) :
  forall_string p s = true -> percent_encode p s = s.
Proof.
  induction s as [|a r IH]; [reflexivity|]. simpl. intros H.
  apply andb_true_iff in H as [Ha Hr]. rewrite Ha, (IH Hr). reflexivity.
Qed.

End CharacterRuns.

(** ** White space *)

Section WhiteSpace.

Lemma code_is (a : ascii) (n : nat) : (code a =? n)%nat = true -> a = ascii_of_nat n.
Proof.
  intros H. apply Nat.eqb_eq in H. rewrite <- H. unfold code.
  symmetry. apply ascii_nat_embedding.
Qed.

Lemma trimStart_step (s : string) :
  trimStart s = match after_white_space s with Some r => trimStart r | None => s end.
Proof.
  destruct s as [|a [|b [|c r]]]; cbn [trimStart after_white_space];
    try reflexivity;
    destruct (is_white_space a); try reflexivity;
    destruct (is_white_space2 a b); try reflexivity;
    destruct (is_white_space3 a b c); reflexivity.
Qed.

Lemma after_white_space_shorter (s r : string) :
  after_white_space s = Some r -> (String.length r < String.length s)%nat.
Proof.
  destruct s as [|a [|b [|c t]]]; cbn [after_white_space]; try discriminate;
    destruct (is_white_space a); try discriminate;
    try (intros [= <-]; cbn; lia);
    destruct (is_white_space2 a b); try discriminate;
    try (intros [= <-]; cbn; lia);
    destruct (is_white_space3 a b c); try discriminate;
    intros [= <-]; cbn; lia.
Qed.

(** Induction along the white space a string starts with. *)
Lemma white_space_ind (P : string -> Prop) :
  (forall s, after_white_space s = None -> P s) ->
  (forall s r, after_white_space s = Some r -> P r -> P s) ->
  forall s, P s.
Proof.
  intros Hn Hs s.
  assert (G : forall n s, (String.length s <= n)%nat -> P s).
  { induction n as [|n IH]; intros t Ht.
    - apply Hn. destruct t; [reflexivity | cbn in Ht; lia].
    - destruct (after_white_space t) as [r|] eqn:E; [|exact (Hn t E)].
      apply (Hs t r E). apply IH.
      pose proof (after_white_space_shorter t r E). lia. }
  exact (G (String.length s) s (le_n _)).
Qed.

(** A white space character is what it is, whatever follows. *)
Lemma after_white_space_app (s r x : string) :
  after_white_space s = Some r -> after_white_space (s +:+ x) = Some (r +:+ x).
Proof.
  destruct s as [|a [|b [|c t]]]; cbn [after_white_space]; try discriminate.
  - destruct (is_white_space a) eqn:A; [|discriminate]. intros [= <-].
    change (String a EmptyString +:+ x) with (String a x).
    cbn [after_white_space]. rewrite A. reflexivity.
  - change (String a (String b EmptyString) +:+ x) with (String a (String b x)).
    destruct (is_white_space a) eqn:A.
    + intros [= <-]. cbn [after_white_space]. rewrite A. reflexivity.
    + destruct (is_white_space2 a b) eqn:B; [|discriminate]. intros [= <-].
      cbn [after_white_space]. rewrite A, B. reflexivity.
  - change (String a (String b (String c t)) +:+ x)
      with (String a (String b (String c (t +:+ x)))).
    cbn [after_white_space].
    destruct (is_white_space a); [intros [= <-]; reflexivity|].
    destruct (is_white_space2 a b); [intros [= <-]; reflexivity|].
    destruct (is_white_space3 a b c); [intros [= <-]; reflexivity | discriminate].
Qed.

(** The string is the character and what follows it. *)
Lemma after_white_space_split (s r : string) :
  after_white_space s = Some r ->
  exists c, s = c +:+ r /\ after_white_space c = Some EmptyString.
Proof.
  destruct s as [|a [|b [|c t]]]; cbn [after_white_space]; try discriminate.
  - destruct (is_white_space a) eqn:A; [|discriminate]. intros [= <-].
    exists (String a EmptyString). cbn [after_white_space]. rewrite A. auto.
  - destruct (is_white_space a) eqn:A.
    + intros [= <-]. exists (String a EmptyString).
      cbn [after_white_space]. rewrite A. auto.
    + destruct (is_white_space2 a b) eqn:B; [|discriminate]. intros [= <-].
      exists (String a (String b EmptyString)).
      cbn [after_white_space]. rewrite A, B. auto.
  - destruct (is_white_space a) eqn:A.
    + intros [= <-]. exists (String a EmptyString).
      cbn [after_white_space]. rewrite A. auto.
    + destruct (is_white_space2 a b) eqn:B.
      * intros [= <-]. exists (String a (String b EmptyString)).
        cbn [after_white_space]. rewrite A, B. auto.
      * destruct (is_white_space3 a b c) eqn:C; [|discriminate]. intros [= <-].
        exists (String a (String b (String c EmptyString))).
        cbn [after_white_space]. rewrite A, B, C. auto.
Qed.

Lemma after_white_space_starts (a : ascii) (r x : string) :
  after_white_space (String a r) = Some x -> starts_white_space a = true.
Proof.
  unfold starts_white_space. cbn [after_white_space].
  destruct (is_white_space a); [reflexivity|]. cbn [orb].
  destruct r as [|b [|c t]]; try discriminate.
  - destruct (is_white_space2 a b) eqn:B; [|discriminate]. intros _.
    unfold is_white_space2 in B. apply andb_true_iff in B as [B _].
    rewrite (code_is a _ B). reflexivity.
  - destruct (is_white_space2 a b) eqn:B.
    + intros _. unfold is_white_space2 in B. apply andb_true_iff in B as [B _].
      rewrite (code_is a _ B). reflexivity.
    + destruct (is_white_space3 a b c) eqn:C; [|discriminate]. intros _.
      unfold is_white_space3 in C.
      repeat (apply orb_true_iff in C as [C|C]);
        repeat (apply andb_true_iff in C as [C _]);
        rewrite (code_is a _ C); reflexivity.
Qed.

(** What a byte that starts a white space character is not: the second
    or the third byte of one. *)
Lemma starts_white_space_byte (b : ascii) :
  starts_white_space b = true ->
  (forall a, is_white_space2 a b = false)
  /\ (forall a c, is_white_space3 a b c = false)
  /\ (forall a c, is_white_space3 a c b = false).
Proof.
  intros H.
  assert (K : (code b =? 160)%nat = false /\ (code b =? 154)%nat = false
              /\ (code b =? 128)%nat = false /\ (code b =? 129)%nat = false
              /\ (code b =? 187)%nat = false /\ between 128 138 b = false
              /\ (code b =? 168)%nat = false /\ (code b =? 169)%nat = false
              /\ (code b =? 175)%nat = false /\ (code b =? 159)%nat = false
              /\ (code b =? 191)%nat = false).
  { revert H. destruct b as [b0 b1 b2 b3 b4 b5 b6 b7].
    destruct b0, b1, b2, b3, b4, b5, b6, b7; vm_compute;
      intros H; try discriminate H; repeat split. }
  destruct K as (K1 & K2 & K3 & K4 & K5 & K6 & K7 & K8 & K9 & K10 & K11).
  split; [|split].
  - intros a. unfold is_white_space2. rewrite K1. apply andb_false_r.
  - intros a c. unfold is_white_space3. rewrite K2, K3, K4, K5.
    rewrite !andb_false_r. reflexivity.
  - intros a c. unfold is_white_space3. rewrite K3, K6, K7, K8, K9, K10, K11.
    cbn [orb]. rewrite !andb_false_r. reflexivity.
Qed.

Lemma trimStart_none (s : string) : after_white_space (trimStart s) = None.
Proof.
  induction s as [s E | s r E IH] using white_space_ind;
    rewrite trimStart_step, E; assumption.
Qed.

Lemma trimStart_idem (s : string) : trimStart (trimStart s) = trimStart s.
Proof. rewrite (trimStart_step (trimStart s)), trimStart_none. reflexivity. Qed.

Lemma trimStart_fixed (s : string) :
  first_char_is (fun a => negb (starts_white_space a)) s = true -> trimStart s = s.
Proof.
  destruct s as [|a r]; [discriminate|]. cbn [first_char_is]. intros H.
  apply negb_true_iff in H. rewrite trimStart_step.
  destruct (after_white_space (String a r)) as [x|] eqn:E; [|reflexivity].
  apply after_white_space_starts in E. congruence.
Qed.

Lemma blank_empty (s : string) : blank s = true <-> trimStart s = EmptyString.
Proof. unfold blank. apply is_empty_true. Qed.

Lemma blank_after (s r : string) :
  after_white_space s = Some r -> blank s = blank r.
Proof. intros E. unfold blank. rewrite trimStart_step, E. reflexivity. Qed.

(** A blank string is empty or starts with a white space character. *)
Lemma blank_starts (s : string) :
  blank s = true -> s = EmptyString \/ exists r, after_white_space s = Some r.
Proof.
  intros B. destruct (after_white_space s) as [r|] eqn:E; [eauto|].
  left. apply blank_empty in B. rewrite trimStart_step, E in B. exact B.
Qed.

(** White space that follows a text does not make its end part of a
    white space character. *)
Lemma after_white_space_blank (x w : string) :
  x <> EmptyString -> blank w = true ->
  after_white_space (x +:+ w)
  = match after_white_space x with Some r => Some (r +:+ w) | None => None end.
Proof.
  intros Nx Bw.
  destruct (after_white_space x) as [r|] eqn:E;
    [exact (after_white_space_app x r w E)|].
  destruct (blank_starts w Bw) as [-> | [t Ew]]; [rewrite append_empty_r; exact E|].
  destruct w as [|d w']; [discriminate Ew|].
  pose proof (after_white_space_starts d w' t Ew) as Sd.
  destruct (starts_white_space_byte d Sd) as (D2 & D3 & D3').
  destruct x as [|a [|b [|c x']]]; [contradiction| | |].
  - change (String a EmptyString +:+ String d w') with (String a (String d w')).
    cbn [after_white_space] in E |- *.
    destruct (is_white_space a); [discriminate E|]. rewrite D2.
    destruct w'; [reflexivity|]. rewrite D3. reflexivity.
  - change (String a (String b EmptyString) +:+ String d w')
      with (String a (String b (String d w'))).
    cbn [after_white_space] in E |- *.
    destruct (is_white_space a); [discriminate E|].
    destruct (is_white_space2 a b); [discriminate E|].
    rewrite D3'. reflexivity.
  - change (String a (String b (String c x')) +:+ String d w')
      with (String a (String b (String c (x' +:+ String d w')))).
    cbn [after_white_space] in E |- *.
    destruct (is_white_space a); [discriminate E|].
    destruct (is_white_space2 a b); [discriminate E|].
    destruct (is_white_space3 a b c); [discriminate E | reflexivity].
Qed.

Lemma blank_app (x w : string) : blank w = true -> blank (x +:+ w) = blank x.
Proof.
  intros Bw. induction x as [x E | x r E IH] using white_space_ind.
  - destruct x as [|a t]; [exact Bw|].
    assert (Nx : String a t <> EmptyString) by discriminate.
    pose proof (after_white_space_blank _ w Nx Bw) as A. rewrite E in A.
    unfold blank. rewrite (trimStart_step (String a t +:+ w)), A.
    rewrite (trimStart_step (String a t)), E. reflexivity.
  - rewrite (blank_after _ _ (after_white_space_app x r w E)), (blank_after x r E).
    exact IH.
Qed.

Lemma trimStart_split (s : string) :
  exists u, s = u +:+ trimStart s /\ blank u = true.
Proof.
  induction s as [s E | s r E IH] using white_space_ind.
  - exists EmptyString. rewrite trimStart_step, E. split; reflexivity.
  - destruct IH as (u & Hr & Bu).
    destruct (after_white_space_split s r E) as (c & Hs & Ec).
    exists (c +:+ u). rewrite (trimStart_step s), E. split.
    + rewrite append_assoc, <- Hr. exact Hs.
    + rewrite (blank_after _ _ (after_white_space_app c _ u Ec)). exact Bu.
Qed.

Lemma trimEnd_split (s : string) :
  exists w, s = trimEnd s +:+ w /\ blank w = true.
Proof.
  induction s as [|a r IH]; [exists EmptyString; split; reflexivity|].
  cbn [trimEnd]. destruct (blank (String a r)) eqn:B.
  - exists (String a r). split; [reflexivity | exact B].
  - destruct IH as (w & Hr & Bw). exists w. split; [|exact Bw].
    change (String a (trimEnd r) +:+ w) with (String a (trimEnd r +:+ w)).
    rewrite <- Hr. reflexivity.
Qed.

Lemma trimEnd_empty (s : string) : is_empty (trimEnd s) = blank s.
Proof.
  destruct s as [|a r]; [reflexivity|]. cbn [trimEnd].
  destruct (blank (String a r)); reflexivity.
Qed.

Lemma trimEnd_idem (s : string) : trimEnd (trimEnd s) = trimEnd s.
Proof.
  induction s as [|a r IH]; [reflexivity|]. cbn [trimEnd].
  destruct (blank (String a r)) eqn:B; [reflexivity|].
  cbn [trimEnd]. rewrite IH.
  destruct (trimEnd_split r) as (w & Hr & Bw).
  assert (B' : blank (String a (trimEnd r)) = false).
  { rewrite <- B. rewrite Hr at 2.
    change (String a (trimEnd r +:+ w)) with (String a (trimEnd r) +:+ w).
    symmetry. apply blank_app, Bw. }
  rewrite B'. reflexivity.
Qed.

(** Cutting the end leaves the start as it is. *)
Lemma trimEnd_start (s : string) :
  after_white_space s = None -> after_white_space (trimEnd s) = None.
Proof.
  intros E. destruct (trimEnd_split s) as (w & Hs & Bw).
  destruct (trimEnd s) as [|a t] eqn:T; [reflexivity|].
  assert (Nx : String a t <> EmptyString) by discriminate.
  pose proof (after_white_space_blank _ w Nx Bw) as A.
  rewrite <- Hs, E in A.
  destruct (after_white_space (String a t)); [discriminate A | reflexivity].
Qed.

Lemma trim_idem (s : string) : trim (trim s) = trim s.
Proof.
  unfold trim.
  rewrite (trimStart_step (trimEnd (trimStart s))),
    (trimEnd_start _ (trimStart_none s)).
  apply trimEnd_idem.
Qed.

Lemma trim_split (s : string) :
  exists u w, s = u +:+ trim s +:+ w /\ blank u = true /\ blank w = true.
Proof.
  destruct (trimStart_split s) as (u & Hs & Bu).
  destruct (trimEnd_split (trimStart s)) as (w & Ht & Bw).
  exists u, w. unfold trim. rewrite <- Ht. auto.
Qed.

Lemma trim_forall (p : ascii -> bool) (s : string) :
  forall_string p s = true -> forall_string p (trim s) = true.
Proof.
  destruct (trim_split s) as (u & w & Hs & _). intros H. rewrite Hs in H.
  rewrite !forall_string_app in H.
  apply andb_true_iff in H as [_ H]. apply andb_true_iff in H as [H _]. exact H.
Qed.

(** A text without a byte that starts a white space character is
    trimmed. *)
Lemma trimEnd_fixed (s : string) :
  forall_string (fun a => negb (starts_white_space a)) s = true -> trimEnd s = s.
Proof.
  induction s as [|a r IH]; [reflexivity|]. intros H.
  assert (F : trimStart (String a r) = String a r).
  { apply trimStart_fixed. cbn [forall_string] in H.
    apply andb_true_iff in H as [H _]. exact H. }
  cbn [forall_string] in H. apply andb_true_iff in H as [_ Hr].
  cbn [trimEnd]. unfold blank. rewrite F. cbn [is_empty]. rewrite (IH Hr).
  reflexivity.
Qed.

Lemma trim_fixed (s : string) :
  forall_string (fun a => negb (starts_white_space a)) s = true -> trim s = s.
Proof.
  intros H. unfold trim.
  assert (F : trimStart s = s).
  { destruct s as [|a r]; [reflexivity|]. apply trimStart_fixed.
    cbn [forall_string] in H. apply andb_true_iff in H as [H _]. exact H. }
  rewrite F. apply trimEnd_fixed, H.
Qed.

Lemma trim_empty (s : string) : is_empty (trim s) = blank s.
Proof.
  unfold trim. rewrite trimEnd_empty. unfold blank. rewrite trimStart_idem.
  reflexivity.
Qed.

End WhiteSpace.

(** ** Well-formed strings *)

Section WellFormed.

Lemma utf8_lead_continuation (a : ascii) (p : list (nat * nat)) :
  utf8_lead a = Some p -> continuation p.
Proof.
  unfold utf8_lead, continuation.
  repeat match goal with
         | |- context [if ?c then _ else _] => destruct c
         end; intros [= <-]; repeat (apply Forall_cons; split; [cbn; lia|]);
    apply Forall_nil_2.
Qed.

(** ASCII text is well-formed. *)
Lemma ascii_well_formed (s : string) :
  forall_string is_ascii s = true -> well_formed s = true.
Proof.
  unfold well_formed. induction s as [|a r IH]; [reflexivity|].
  cbn [forall_string utf8_ok]. intros H. apply andb_true_iff in H as [Ha Hr].
  unfold is_ascii in Ha. apply Nat.ltb_lt in Ha.
  destruct (Nat.leb_spec 128 (code a)); [lia|]. exact (IH Hr).
Qed.

(** A white space character is a whole character. *)
Lemma utf8_ok_after (s r : string) :
  after_white_space s = Some r -> utf8_ok [] s = utf8_ok [] r.
Proof.
  destruct s as [|a t]; [discriminate|]. cbn [after_white_space].
  destruct (is_white_space a) eqn:A.
  { intros [= <-]. cbn [utf8_ok].
    assert (L : (128 <=? code a)%nat = false).
    { revert A. destruct a as [b0 b1 b2 b3 b4 b5 b6 b7].
      destruct b0, b1, b2, b3, b4, b5, b6, b7; vm_compute;
        intros H; try discriminate H; reflexivity. }
    rewrite L. reflexivity. }
  destruct t as [|b [|c u]]; try discriminate.
  - destruct (is_white_space2 a b) eqn:B; [|discriminate]. intros [= <-].
    unfold is_white_space2 in B. apply andb_true_iff in B as [Ba Bb].
    rewrite (code_is a _ Ba), (code_is b _ Bb). reflexivity.
  - destruct (is_white_space2 a b) eqn:B.
    + intros [= <-].
      unfold is_white_space2 in B. apply andb_true_iff in B as [Ba Bb].
      rewrite (code_is a _ Ba), (code_is b _ Bb). reflexivity.
    + destruct (is_white_space3 a b c) eqn:C; [|discriminate]. intros [= <-].
      unfold is_white_space3 in C.
      repeat (apply orb_true_iff in C as [C|C]).
      * apply andb_true_iff in C as [C Cc]. apply andb_true_iff in C as [Ca Cb].
        rewrite (code_is a _ Ca), (code_is b _ Cb), (code_is c _ Cc). reflexivity.
      * apply andb_true_iff in C as [C Cc]. apply andb_true_iff in C as [Ca Cb].
        rewrite (code_is a _ Ca), (code_is b _ Cb).
        assert (T : between 128 191 c = true).
        { revert Cc. destruct c as [b0 b1 b2 b3 b4 b5 b6 b7].
          destruct b0, b1, b2, b3, b4, b5, b6, b7; vm_compute;
            intros H; try discriminate H; reflexivity. }
        change (utf8_ok [] (String (ascii_of_nat 226)
                              (String (ascii_of_nat 128) (String c u))))
          with (between 128 191 c && utf8_ok [] u).
        rewrite T. reflexivity.
      * apply andb_true_iff in C as [C Cc]. apply andb_true_iff in C as [Ca Cb].
        rewrite (code_is a _ Ca), (code_is b _ Cb), (code_is c _ Cc). reflexivity.
      * apply andb_true_iff in C as [C Cc]. apply andb_true_iff in C as [Ca Cb].
        rewrite (code_is a _ Ca), (code_is b _ Cb), (code_is c _ Cc). reflexivity.
      * apply andb_true_iff in C as [C Cc]. apply andb_true_iff in C as [Ca Cb].
        rewrite (code_is a _ Ca), (code_is b _ Cb), (code_is c _ Cc). reflexivity.
Qed.

Lemma blank_well_formed (w : string) : blank w = true -> utf8_ok [] w = true.
Proof.
  induction w as [w E | w r E IH] using white_space_ind; intros B.
  - apply blank_empty in B. rewrite trimStart_step, E in B. subst w. reflexivity.
  - rewrite (utf8_ok_after w r E). apply IH. rewrite <- (blank_after w r E). exact B.
Qed.

Lemma utf8_ok_blank_start (u v : string) :
  blank u = true -> utf8_ok [] (u +:+ v) = utf8_ok [] v.
Proof.
  induction u as [u E | u r E IH] using white_space_ind; intros B.
  - apply blank_empty in B. rewrite trimStart_step, E in B. subst u. reflexivity.
  - rewrite (utf8_ok_after _ _ (after_white_space_app u r v E)).
    apply IH. rewrite <- (blank_after u r E). exact B.
Qed.

(** No white space character starts with a continuation byte. *)
Lemma starts_white_space_low (d : ascii) (lo hi : nat) :
  starts_white_space d = true -> (128 <= lo)%nat -> between lo hi d = false
  \/ (192 <= code d)%nat.
Proof.
  intros S L.
  assert (K : (code d < 128)%nat \/ (192 <= code d)%nat).
  { revert S. destruct d as [b0 b1 b2 b3 b4 b5 b6 b7].
    destruct b0, b1, b2, b3, b4, b5, b6, b7; vm_compute;
      intros H; try discriminate H; lia. }
  destruct K as [K|K]; [left | right; exact K].
  unfold between. destruct (Nat.leb_spec lo (code d)); [lia | reflexivity].
Qed.

Lemma utf8_ok_continuation (p : list (nat * nat)) (s : string) :
  continuation p -> utf8_ok p s = true ->
  Forall (fun range => (range.2 <= 191)%nat) p ->
  p = [] \/ exists a r, s = String a r /\ (128 <= code a <= 191)%nat.
Proof.
  intros C H U. destruct p as [|[lo hi] q]; [left; reflexivity|]. right.
  destruct s as [|a r]; [discriminate H|]. exists a, r. split; [reflexivity|].
  cbn [utf8_ok] in H. apply andb_true_iff in H as [H _].
  unfold between in H. apply andb_true_iff in H as [H1 H2].
  apply Nat.leb_le in H1. apply Nat.leb_le in H2.
  apply Forall_cons in C as [C _]. apply Forall_cons in U as [U _].
  cbn in C, U. lia.
Qed.

Lemma utf8_lead_upper (a : ascii) (p : list (nat * nat)) :
  utf8_lead a = Some p -> Forall (fun range => (range.2 <= 191)%nat) p.
Proof.
  unfold utf8_lead.
  repeat match goal with
         | |- context [if ?c then _ else _] => destruct c
         end; intros [= <-]; repeat (apply Forall_cons; split; [cbn; lia|]);
    apply Forall_nil_2.
Qed.

Lemma utf8_ok_blank_end (w : string) :
  blank w = true ->
  forall (x : string) (p : list (nat * nat)),
    continuation p -> Forall (fun range => (range.2 <= 191)%nat) p ->
    utf8_ok p (x +:+ w) = true -> utf8_ok p x = true.
Proof.
  intros B. induction x as [|a r IH]; intros p C U H.
  - change (EmptyString +:+ w) with w in H.
    destruct (utf8_ok_continuation p w C H U) as [-> | (d & t & -> & Hd)];
      [reflexivity|]. exfalso.
    destruct (blank_starts _ B) as [E | [y E]]; [discriminate E|].
    apply after_white_space_starts in E.
    assert (K : (code d < 128)%nat \/ (192 <= code d)%nat).
    { revert E. clear. destruct d as [b0 b1 b2 b3 b4 b5 b6 b7].
      destruct b0, b1, b2, b3, b4, b5, b6, b7; vm_compute;
        intros H; try discriminate H; lia. }
    lia.
  - change (String a r +:+ w) with (String a (r +:+ w)) in H.
    cbn [utf8_ok] in H |- *.
    destruct p as [|[lo hi] q].
    + destruct (128 <=? code a)%nat.
      * destruct (utf8_lead a) as [q|] eqn:L; [|discriminate H].
        exact (IH q (utf8_lead_continuation a q L) (utf8_lead_upper a q L) H).
      * exact (IH [] (Forall_nil_2 _) (Forall_nil_2 _) H).
    + apply andb_true_iff in H as [H1 H2]. rewrite H1.
      apply Forall_cons in C as [_ C]. apply Forall_cons in U as [_ U].
      exact (IH q C U H2).
Qed.

(** Trimming a well-formed string leaves a well-formed string. *)
Lemma trim_well_formed (s : string) :
  well_formed s = true -> well_formed (trim s) = true.
Proof.
  unfold well_formed. destruct (trim_split s) as (u & w & Hs & Bu & Bw).
  intros H. rewrite Hs, (utf8_ok_blank_start u _ Bu) in H.
  exact (utf8_ok_blank_end w Bw (trim s) [] (Forall_nil_2 _) (Forall_nil_2 _) H).
Qed.

(** What [decodeURIComponent] returns for ASCII text is well-formed. *)
Lemma unescape_ascii (s : string) (ts : list (bool * ascii)) :
  forall_string is_ascii s = true -> unescape s = Some ts ->
  Forall (fun t => t.1 = false -> is_ascii t.2 = true) ts.
Proof.
  revert ts.
  assert (G : forall n s ts, (String.length s <= n)%nat ->
                forall_string is_ascii s = true -> unescape s = Some ts ->
                Forall (fun t => t.1 = false -> is_ascii t.2 = true) ts).
  { induction n as [|n IH]; intros t ts L A U.
    - destruct t; [|cbn in L; lia]. injection U as <-. apply Forall_nil_2.
    - destruct t as [|a r]; [injection U as <-; apply Forall_nil_2|].
      cbn [forall_string] in A. apply andb_true_iff in A as [Aa Ar].
      cbn [unescape] in U. destruct (is_percent a).
      + destruct r as [|h [|l r']]; try discriminate U.
        destruct (hex_value h), (hex_value l); try discriminate U.
        destruct (unescape r') as [ts'|] eqn:E; [|discriminate U].
        injection U as <-. apply Forall_cons. split; [discriminate|].
        apply (IH r' ts'); [cbn in L; lia | | exact E].
        cbn [forall_string] in Ar.
        apply andb_true_iff in Ar as [_ Ar]. apply andb_true_iff in Ar as [_ Ar].
        exact Ar.
      + destruct (unescape r) as [ts'|] eqn:E; [|discriminate U].
        injection U as <-. apply Forall_cons. split; [intros _; exact Aa|].
        apply (IH r ts'); [cbn in L; lia | exact Ar | exact E]. }
  intros ts. exact (G (String.length s) s ts (le_n _)).
Qed.

Lemma utf8_escapes_well_formed (ts : list (bool * ascii)) :
  Forall (fun t => t.1 = false -> is_ascii t.2 = true) ts ->
  forall p, utf8_escapes_ok p ts = true ->
            utf8_ok p (string_of_chars (map snd ts)) = true.
Proof.
  induction 1 as [|[esc a] r Ha Hr IH]; intros p H.
  - destruct p; [reflexivity | discriminate H].
  - cbn [utf8_escapes_ok] in H. cbn [map snd string_of_chars utf8_ok].
    destruct p as [|[lo hi] q].
    + destruct esc; cbn [andb] in H.
      * destruct (128 <=? code a)%nat.
        -- destruct (utf8_lead a) as [q|]; [exact (IH q H) | discriminate H].
        -- exact (IH [] H).
      * assert (L : (128 <=? code a)%nat = false).
        { specialize (Ha eq_refl). cbn [snd] in Ha. unfold is_ascii in Ha.
          apply Nat.ltb_lt in Ha. destruct (Nat.leb_spec 128 (code a)); [lia|].
          reflexivity. }
        rewrite L. exact (IH [] H).
    + apply andb_true_iff in H as [H H2]. apply andb_true_iff in H as [_ H1].
      rewrite H1. exact (IH q H2).
Qed.

Lemma decodeURIComponent_well_formed (s o : string) :
  forall_string is_ascii s = true -> decodeURIComponent s = Ok o ->
  well_formed o = true.
Proof.
  intros A. unfold decodeURIComponent.
  destruct (unescape s) as [ts|] eqn:U; [|discriminate].
  destruct (utf8_escapes_ok [] ts) eqn:E; [|discriminate].
  intros [= <-]. apply utf8_escapes_well_formed; [|exact E].
  exact (unescape_ascii s ts A U).
Qed.

Lemma encodeURIComponent_well_formed (s : string) :
  well_formed s = true -> encodeURIComponent s = Ok (uri_encode s).
Proof. intros H. unfold encodeURIComponent. rewrite H. reflexivity. Qed.

Lemma encodeURIComponent_ok (s e : string) :
  encodeURIComponent s = Ok e -> well_formed s = true /\ e = uri_encode s.
Proof.
  unfold encodeURIComponent. destruct (well_formed s); [|discriminate].
  intros [= <-]. auto.
Qed.

Lemma encodeURIComponent_throws (s : string) (e : Thrown) :
  encodeURIComponent s = Throw e -> well_formed s = false /\ e = URIError.
Proof.
  unfold encodeURIComponent. destruct (well_formed s); [discriminate|].
  intros [= <-]. auto.
Qed.

End WellFormed.

(** ** Letter case *)

Section LetterCase.

(** On ASCII text the case conversions map the letters and nothing
    else. *)
Lemma convert_case_ascii (f : ascii -> ascii) (two : ascii -> ascii -> option string)
    (three : ascii -> ascii -> ascii -> option string) (s : string) :
  (forall a b, is_ascii a = true -> two a b = None) ->
  (forall a b c, is_ascii a = true -> three a b c = None) ->
  forall_string is_ascii s = true ->
  convert_case f two three s = map_string f s.
Proof.
  intros H2 H3. induction s as [|a r IH]; [reflexivity|].
  cbn [forall_string]. intros H. apply andb_true_iff in H as [Ha Hr].
  cbn [convert_case map_string]. rewrite (IH Hr).
  destruct r as [|b [|c t]]; [reflexivity | |].
  - rewrite (H2 a b Ha). reflexivity.
  - rewrite (H2 a b Ha), (H3 a b c Ha). reflexivity.
Qed.

Lemma ascii_not_special (a : ascii) :
  is_ascii a = true ->
  (code a =? 195)%nat = false /\ (code a =? 196)%nat = false
  /\ (code a =? 197)%nat = false /\ (code a =? 239)%nat = false
  /\ (code a =? 226)%nat = false.
Proof.
  intros H. unfold is_ascii in H. apply Nat.ltb_lt in H.
  repeat split; apply Nat.eqb_neq; lia.
Qed.

Lemma toUpperCase_ascii (s : string) :
  forall_string is_ascii s = true -> toUpperCase s = map_string upper_char s.
Proof.
  apply convert_case_ascii.
  - intros a b Ha. destruct (ascii_not_special a Ha) as (E1 & E2 & E3 & _).
    unfold upper2. rewrite E1, E2, E3. reflexivity.
  - intros a b c Ha. destruct (ascii_not_special a Ha) as (_ & _ & _ & E4 & _).
    unfold upper3. rewrite E4. reflexivity.
Qed.

Lemma toLowerCase_ascii (s : string) :
  forall_string is_ascii s = true -> toLowerCase s = ascii_lower s.
Proof.
  apply convert_case_ascii.
  - reflexivity.
  - intros a b c Ha. destruct (ascii_not_special a Ha) as (_ & _ & _ & _ & E5).
    unfold lower3. rewrite E5. reflexivity.
Qed.

End LetterCase.

(** ** Level coercion *)

Section Levels.

Lemma level_table_keys_NoDup : NoDup (LEVEL_TABLE.*1).
Proof. compute_done. Qed.

Lemma cloud_table_keys_NoDup : NoDup (CLOUD_LEVEL_TABLE.*1).
Proof. compute_done. Qed.

Lemma level_lookup (name : string) (n : Z) :
  LEVEL_NAME_TO_NO !! name = Some n <-> (name, n) ∈ LEVEL_TABLE.
Proof.
  unfold LEVEL_NAME_TO_NO. split.
  - apply elem_of_list_to_map_2.
  - apply elem_of_list_to_map_1, level_table_keys_NoDup.
Qed.

Lemma cloud_lookup (name : string) (n : Z) :
  CLOUD_LEVEL_NAME_TO_NO !! name = Some n <-> (name, n) ∈ CLOUD_LEVEL_TABLE.
Proof.
  unfold CLOUD_LEVEL_NAME_TO_NO. split.
  - apply elem_of_list_to_map_2.
  - apply elem_of_list_to_map_1, cloud_table_keys_NoDup.
Qed.

Lemma disabled_tokens (name : string) :
  name ∈ DISABLED_LEVEL_VALUES
  <-> name ∈ ["NONE"; "NULL"; "FALSE"; "OFF"; "DISABLE"; "DISABLED"].
Proof. unfold DISABLED_LEVEL_VALUES. apply elem_of_list_to_set. Qed.

(** [Math.trunc] rounds toward zero: the result is the integer of the
    same sign within one of the argument. *)
Lemma Math_trunc_toward_zero (q : Q) :
  (0 <= Qnum q ->
     0 <= Math_trunc q /\
     Math_trunc q * Z.pos (Qden q) <= Qnum q < (Math_trunc q + 1) * Z.pos (Qden q))
  /\ (Qnum q <= 0 ->
     Math_trunc q <= 0 /\
     (Math_trunc q - 1) * Z.pos (Qden q) < Qnum q <= Math_trunc q * Z.pos (Qden q)).
Proof.
  unfold Math_trunc. set (d := Z.pos (Qden q)). set (n := Qnum q).
  assert (Hd : 0 < d) by (subst d; lia).
  split; intros Hn.
  - rewrite Z.quot_div_nonneg by lia.
    pose proof (Z.div_pos n d Hn Hd).
    pose proof (Z.mul_div_le n d Hd).
    pose proof (Z.mul_succ_div_gt n d Hd). nia.
  - replace n with (- (- n)) by lia. rewrite Z.quot_opp_l by lia.
    rewrite Z.quot_div_nonneg by lia.
    assert (Hm : 0 <= - n) by lia.
    pose proof (Z.div_pos (- n) d Hm Hd).
    pose proof (Z.mul_div_le (- n) d Hd).
    pose proof (Z.mul_succ_div_gt (- n) d Hd). nia.
Qed.

Lemma coerceLevel_disabled (s : string) :
  toUpperCase (trim s) ∈ ["NONE"; "NULL"; "FALSE"; "OFF"; "DISABLE"; "DISABLED"] ->
  coerceLevel (VStr s) = Ok None.
Proof.
  intros H. apply disabled_tokens in H.
  cbn [coerceLevel]. unfold coerceLevelName. cbn [ToString].
  destruct (decide _) as [|N]; [reflexivity | contradiction].
Qed.

Lemma coerceLevel_named (s : string) (n : Z) :
  (toUpperCase (trim s), n) ∈ LEVEL_TABLE -> coerceLevel (VStr s) = Ok (Some n).
Proof.
  intros H. cbn [coerceLevel]. unfold coerceLevelName. cbn [ToString].
  destruct (decide _) as [D|_].
  - apply disabled_tokens in D. exfalso.
    unfold LEVEL_TABLE in H.
    repeat (apply elem_of_cons in H as [H|H];
            [injection H as H _; rewrite H in D; revert D;
             compute_done |]).
    inversion H.
  - apply level_lookup in H. rewrite H. reflexivity.
Qed.

Lemma coerceLevel_unrecognized (s : string) :
  toUpperCase (trim s) ∉ ["NONE"; "NULL"; "FALSE"; "OFF"; "DISABLE"; "DISABLED"] ->
  toUpperCase (trim s) ∉ LEVEL_TABLE.*1 ->
  coerceLevel (VStr s) = Throw InvalidLevel.
Proof.
  intros Hd Hn. cbn [coerceLevel]. unfold coerceLevelName. cbn [ToString].
  destruct (decide _) as [D|_].
  - apply disabled_tokens in D. contradiction.
  - unfold LEVEL_NAME_TO_NO. rewrite (not_elem_of_list_to_map_1 _ _ Hn). reflexivity.
Qed.

Lemma coerceCloudLevel_named (s : string) (n : Z) :
  coerceCloudLevel (VStr s) = Ok (Some n)
  <-> (toUpperCase (trim s), n) ∈ CLOUD_LEVEL_TABLE.
Proof.
  cbn [coerceCloudLevel]. split.
  - destruct (decide _) as [|_]; [discriminate|].
    destruct (CLOUD_LEVEL_NAME_TO_NO !! _) as [m|] eqn:E; [|discriminate].
    intros [= <-]. apply cloud_lookup, E.
  - intros H. destruct (decide _) as [D|_].
    + exfalso. rewrite D in H. revert H. compute_done.
    + apply cloud_lookup in H. rewrite H. reflexivity.
Qed.

End Levels.

(** C6.  [coerceLevel] gives null for null and false, the truncated
    integer for a finite number, null for the six disable tokens in any
    case, the table's number for every name and alias (WARN and WARNING
    30, ALERTS and ALERT 45, FATAL and CRITICAL 50), and throws
    InvalidLevel for true and for every other string.  [coerceCloudLevel]
    throws InvalidLevel for everything that is not a string, gives null
    for NONE in any case, a number exactly for ALERT, ERROR, WARNING, INFO
    and DEBUG, and throws InvalidLevel otherwise. *)
Theorem coerce_levels_by_kind :
  let disable := ["NONE"; "NULL"; "FALSE"; "OFF"; "DISABLE"; "DISABLED"] in
  let names := [("ALERT", 45); ("ALERTS", 45); ("CRITICAL", 50); ("FATAL", 50);
                ("ERROR", 40); ("WARNING", 30); ("WARN", 30); ("INFO", 20);
                ("DEBUG", 10); ("NOTSET", 0)] in
  let cloud := [("ALERT", 45); ("ERROR", 40); ("WARNING", 30); ("INFO", 20);
                ("DEBUG", 10)] in
  coerceLevel VNull = Ok None
  /\ coerceLevel (VBool false) = Ok None
  /\ (forall q shown, coerceLevel (VNum (Finite q shown)) = Ok (Some (Math_trunc q)))
  /\ (forall s, toUpperCase (trim s) ∈ disable -> coerceLevel (VStr s) = Ok None)
  /\ (forall s n, (toUpperCase (trim s), n) ∈ names ->
        coerceLevel (VStr s) = Ok (Some n))
  /\ coerceLevel (VBool true) = Throw InvalidLevel
  /\ (forall s, toUpperCase (trim s) ∉ disable ->
        toUpperCase (trim s) ∉ names.*1 ->
        coerceLevel (VStr s) = Throw InvalidLevel)
  /\ (forall v, (forall s, v <> VStr s) -> coerceCloudLevel v = Throw InvalidLevel)
  /\ (forall s, toUpperCase (trim s) = "NONE" -> coerceCloudLevel (VStr s) = Ok None)
  /\ (forall s n, coerceCloudLevel (VStr s) = Ok (Some n)
                  <-> (toUpperCase (trim s), n) ∈ cloud)
  /\ (forall s, toUpperCase (trim s) <> "NONE" ->
        toUpperCase (trim s) ∉ cloud.*1 ->
        coerceCloudLevel (VStr s) = Throw InvalidLevel).
Proof.
  cbv zeta. repeat split.
  - apply coerceLevel_disabled.
  - apply coerceLevel_named.
  - apply coerceLevel_unrecognized.
  - intros v Hv. destruct v; try reflexivity. exfalso. eapply Hv. reflexivity.
  - intros s H. cbn [coerceCloudLevel]. rewrite H. reflexivity.
  - apply coerceCloudLevel_named.
  - apply coerceCloudLevel_named.
  - intros s Hn Hc. cbn [coerceCloudLevel].
    destruct (decide _) as [|_]; [contradiction|].
    change (toUpperCase (trim s) ∉ CLOUD_LEVEL_TABLE.*1) in Hc.
    unfold CLOUD_LEVEL_NAME_TO_NO.
    rewrite (not_elem_of_list_to_map_1 _ _ Hc). reflexivity.
Qed.

(** The tokens are matched after trimming and without regard to case;
    numbers are cut toward zero; a non-finite number is read as its name
    and rejected. *)
Example coerce_levels_samples :
  coerceLevel (VStr "warn") = Ok (Some 30)
  /\ coerceLevel (VStr " Warning ") = Ok (Some 30)
  /\ coerceLevel (VStr "alerts") = Ok (Some 45)
  /\ coerceLevel (VStr "Fatal") = Ok (Some 50)
  /\ coerceLevel (VStr " oFf ") = Ok None
  /\ coerceLevel (VStr "disabled") = Ok None
  /\ coerceLevel (VNum (Finite 30.9%Q "30.9")) = Ok (Some 30)
  /\ coerceLevel (VNum (Finite (-30.9)%Q "-30.9")) = Ok (Some (-30))
  /\ coerceLevel (VNum NaN) = Throw InvalidLevel
  /\ coerceLevel (VStr "verbose") = Throw InvalidLevel
  /\ coerceLevel VUndefined = Throw InvalidLevel
  /\ coerceCloudLevel (VStr "None") = Ok None
  /\ coerceCloudLevel (VStr " debug ") = Ok (Some 10)
  /\ coerceCloudLevel (VStr "WARN") = Throw InvalidLevel
  /\ coerceCloudLevel (VStr "CRITICAL") = Throw InvalidLevel
  /\ coerceCloudLevel (VStr "off") = Throw InvalidLevel
  /\ coerceCloudLevel (VBool false) = Throw InvalidLevel
  /\ coerceCloudLevel (VNum (Finite 20 "20")) = Throw InvalidLevel
  /\ coerceCloudLevel VNull = Throw InvalidLevel.
Proof. repeat split; vm_compute; reflexivity. Qed.

(** Beyond ASCII: [trim] strips the no-break space, and [toUpperCase]
    turns the dotless i into I. *)
Example coerce_levels_beyond_ascii :
  coerceLevel (VStr (Samples.no_break_space +:+ "info" +:+ Samples.no_break_space))
  = Ok (Some 20)
  /\ coerceLevel (VStr (Samples.dotless_i +:+ "nfo")) = Ok (Some 20)
  /\ coerceCloudLevel (VStr (Samples.no_break_space +:+ "none")) = Ok None
  /\ coerceCloudLevel (VStr (Samples.dotless_i +:+ "nfo")) = Ok (Some 20)
  /\ trim (Samples.no_break_space +:+ " r-1 " +:+ Samples.no_break_space) = "r-1".
Proof. repeat split; vm_compute; reflexivity. Qed.

(** ** The forwarding decision *)

Section Forwarding.

Context {parser : Node}.

Lemma first_resource_step (o : option string) (rest : list Val) :
  first_resource (nullable o :: rest)
  = match nonblank o with Some i => i | None => first_resource rest end.
Proof.
  destruct o as [s|]; [|reflexivity].
  cbn [first_resource nullable nonblank ToString].
  rewrite truthy_string.
  destruct (is_empty (trim s)) eqn:E.
  - rewrite andb_false_r. reflexivity.
  - destruct s; [discriminate E | reflexivity].
Qed.

Lemma nonblank_not_empty (o : option string) (i : string) :
  nonblank o = Some i -> is_empty i = false.
Proof.
  destruct o as [s|]; [|discriminate]. cbn.
  destruct (is_empty (trim s)) eqn:E; [discriminate|]. intros [= <-]. exact E.
Qed.

(** The id [resolvedResourceId] returns is the one the priority order
    picks, and the empty string when none is there. *)
Lemma resolvedResourceId_resolves (h : CloudLogHandler) (cfg : Config)
    (r : LogRecord) :
  resolvedResourceId h cfg r = default EmptyString (resolves h cfg r)
  /\ (is_empty (resolvedResourceId h cfg r) = false <-> is_Some (resolves h cfg r)).
Proof.
  unfold resolvedResourceId, resolves.
  rewrite !first_resource_step. cbn [first_resource].
  destruct (nonblank (handler_resourceId h)) as [i|] eqn:E1.
  { pose proof (nonblank_not_empty _ _ E1). cbn. intuition eauto. }
  destruct (nonblank (alshival_resource_id r)) as [i|] eqn:E2.
  { pose proof (nonblank_not_empty _ _ E2). cbn. intuition eauto. }
  destruct (nonblank (resourceId cfg)) as [i|] eqn:E3.
  { pose proof (nonblank_not_empty _ _ E3). cbn. intuition eauto. }
  cbn. split; [reflexivity|]. split; [discriminate|]. intros [? [=]].
Qed.

Lemma shouldForward_conditions (h : CloudLogHandler) (cfg : Config)
    (r : LogRecord) :
  shouldForward h cfg r = true
  <-> enabled cfg = true
      /\ cloudLevel cfg <> None
      /\ (exists m, effective_minimum h cfg = Some m /\ m <= levelno r)
      /\ truthy (apiKey cfg) = true
      /\ truthy (username cfg) = true.
Proof.
  unfold shouldForward, effective_minimum.
  destruct (enabled cfg); cbn [negb]; [|intuition discriminate].
  destruct (cloudLevel cfg) as [c|]; [|intuition congruence].
  assert (K : forall l : Z,
    (if levelno r <? l then false
     else if negb (truthy (apiKey cfg)) then false
     else if negb (truthy (username cfg)) then false else true) = true
    <-> l <= levelno r /\ truthy (apiKey cfg) = true /\ truthy (username cfg) = true).
  { intros l. destruct (Z.ltb_spec (levelno r) l).
    - split; [discriminate | lia].
    - destruct (truthy (apiKey cfg)), (truthy (username cfg)); cbn [negb];
        intuition (discriminate || lia). }
  destruct (handler_cloudLevel h) as [l|]; cbn [default]; rewrite K.
  - split.
    + intros (? & ? & ?). repeat split; try congruence. eauto.
    + intros (_ & _ & (m & [= <-] & Hm) & ? & ?). auto.
  - split.
    + intros (? & ? & ?). repeat split; try congruence. eauto.
    + intros (_ & _ & (m & [= <-] & Hm) & ? & ?). auto.
Qed.

(** The six conditions are the two tests [emit] makes before it builds
    the request. *)
Lemma forwarding_conditions_tests (h : CloudLogHandler) (cfg : Config)
    (r : LogRecord) :
  forwarding_conditions h cfg r
  <-> shouldForward h cfg r && negb (is_empty (resolvedResourceId h cfg r)) = true.
Proof.
  unfold forwarding_conditions.
  pose proof (shouldForward_conditions h cfg r) as Hs.
  destruct (resolvedResourceId_resolves h cfg r) as [_ Hr].
  rewrite andb_true_iff, negb_true_iff, Hs, Hr. tauto.
Qed.

Lemma emit_unfolded (h : CloudLogHandler) (cfg : Config) (r : LogRecord) :
  _inEmit h = false ->
  emit h cfg r
  = if shouldForward h cfg r then
      if is_empty (resolvedResourceId h cfg r) then
        {| handler_after := h; calls := [];
           diagnostics := debug_write cfg
             "skipping cloud log: missing resource target (set ALSHIVAL_RESOURCE or pass resourceId)" |}
      else
        match forwarded_request h cfg r with
        | Ok request => {| handler_after := h; calls := [request]; diagnostics := [] |}
        | Throw e =>
            {| handler_after := h; calls := [];
               diagnostics :=
                 debug_write cfg ("cloud log emit failed: " +:+ message_of e) |}
        end
    else {| handler_after := h; calls := []; diagnostics := [] |}.
Proof.
  intros I. unfold emit, emit_body, forwarded_request. rewrite I.
  change (shouldForward (set_inEmit true h) cfg r) with (shouldForward h cfg r).
  change (resolvedResourceId (set_inEmit true h) cfg r)
    with (resolvedResourceId h cfg r).
  assert (H : set_inEmit false (set_inEmit true h) = h)
    by (destruct h; cbn in *; subst; reflexivity).
  rewrite H.
  destruct (shouldForward h cfg r); cbn [negb]; [|reflexivity].
  destruct (is_empty (resolvedResourceId h cfg r)); [reflexivity|].
  destruct (build_request cfg (resolvedResourceId h cfg r) r); reflexivity.
Qed.

Lemma emit_calls (rid : option string) (lvl : option Z) (cfg : Config)
    (r : LogRecord) :
  let h := new_handler rid lvl in
  calls (emit h cfg r)
  = if shouldForward h cfg r && negb (is_empty (resolvedResourceId h cfg r))
    then match forwarded_request h cfg r with Ok request => [request] | Throw _ => [] end
    else [].
Proof.
  cbv zeta. rewrite emit_unfolded by reflexivity.
  destruct (shouldForward _ cfg r); cbn [negb andb]; [|reflexivity].
  destruct (is_empty _); cbn [negb]; [reflexivity|].
  destruct (forwarded_request _ cfg r); reflexivity.
Qed.

(** A handler between two calls is as its constructor or a merge left
    it: [emit] clears the flag it sets. *)
Lemma emit_leaves_handler (h : CloudLogHandler) (cfg : Config) (r : LogRecord) :
  handler_after (emit h cfg r) = h.
Proof.
  destruct (_inEmit h) eqn:I.
  - unfold emit. rewrite I. reflexivity.
  - rewrite (emit_unfolded h cfg r I).
    destruct (shouldForward h cfg r); [|reflexivity].
    destruct (is_empty _); [reflexivity|].
    destruct (forwarded_request h cfg r); reflexivity.
Qed.

(** Inside a pending [emit] of the same handler a nested call does
    nothing. *)
Lemma emit_reentrant (h : CloudLogHandler) (cfg : Config) (r : LogRecord) :
  _inEmit h = true -> calls (emit h cfg r) = [] /\ diagnostics (emit h cfg r) = [].
Proof. unfold emit. intros ->. split; reflexivity. Qed.

Lemma emit_at_most_one (h : CloudLogHandler) (cfg : Config) (r : LogRecord) :
  (length (calls (emit h cfg r)) <= 1)%nat.
Proof.
  destruct (_inEmit h) eqn:I.
  - unfold emit. rewrite I. cbn. lia.
  - rewrite (emit_unfolded h cfg r I).
    destruct (shouldForward h cfg r); [|cbn; lia].
    destruct (is_empty _); [cbn; lia|].
    destruct (forwarded_request h cfg r); cbn; lia.
Qed.

Lemma emit_each_calls (hs : list CloudLogHandler) (cfg : Config) (r : LogRecord) :
  (emit_each hs cfg r).2 = flat_map (fun h => calls (emit h cfg r)) hs.
Proof.
  induction hs as [|h rest IH]; [reflexivity|].
  cbn [emit_each flat_map]. destruct (emit_each rest cfg r) as [rest' cs].
  cbn [snd] in *. rewrite IH. reflexivity.
Qed.

(** The handlers of a logger are as [new CloudLogHandler] and the merges
    left them: the constructor clears the flag, a merge only writes the
    level, and [emit] hands every handler back as it got it. *)
Lemma handlers_stay_idle (hs : list CloudLogHandler) (handler : CloudLogHandler)
    (cfg : Config) (r : LogRecord) :
  (Forall (fun h => _inEmit h = false) hs -> _inEmit handler = false ->
   Forall (fun h => _inEmit h = false) (dedupeAddHandler hs handler).1)
  /\ (emit_each hs cfg r).1 = hs
  /\ forall h, _inEmit h = false
               <-> h = new_handler (handler_resourceId h) (handler_cloudLevel h).
Proof.
  split; [|split].
  - unfold dedupeAddHandler. generalize 0%nat.
    induction hs as [|h0 rest IH]; intros k Hs Hh; cbn [dedupe_from].
    + apply Forall_cons. split; [exact Hh | apply Forall_nil_2].
    + apply Forall_cons in Hs as [H0 Hrest].
      destruct (decide _) as [_|_].
      * cbn [fst]. apply Forall_cons. split; [|exact Hrest].
        destruct (handler_cloudLevel handler); exact H0.
      * specialize (IH (S k) Hrest Hh).
        destruct (dedupe_from (S k) rest handler) as [rest' k'].
        cbn [fst] in *. apply Forall_cons. split; assumption.
  - induction hs as [|h0 rest IH]; [reflexivity|].
    cbn [emit_each]. destruct (emit_each rest cfg r) as [rest' cs].
    cbn [fst] in *. rewrite emit_leaves_handler, IH. reflexivity.
  - intros h. destruct h as [i l b]; cbn. split.
    + intros ->. reflexivity.
    + intros [= ->]. reflexivity.
Qed.

(** The user of the endpoint, when there is a user name. *)
Lemma owner_of_forwarded (cfg : Config) :
  truthy (username cfg) = true ->
  or_else (or_else (nullable (resourceOwnerUsername cfg)) (username cfg))
          (VStr EmptyString)
  = owner_or_username cfg.
Proof.
  intros U. unfold owner_or_username.
  destruct (resourceOwnerUsername cfg) as [o|]; cbn [nullable].
  - unfold or_else at 2. rewrite truthy_string.
    destruct (is_empty o) eqn:E; cbn [negb].
    + unfold or_else. rewrite U. reflexivity.
    + unfold or_else. rewrite truthy_string, E. reflexivity.
  - unfold or_else. cbn [truthy]. rewrite U. reflexivity.
Qed.

(** [buildResourceLogsEndpoint] on a user and an id that are trimmed. *)
Lemma endpoint_of_trimmed (cfg : Config) (user id : string) :
  buildResourceLogsEndpoint cfg (VStr (trim user)) (VStr (trim id))
  = bind (encodeURIComponent (trim user)) (fun safeUser =>
    bind (encodeURIComponent (trim id)) (fun safeResource =>
      Ok (endpoint_base cfg +:+ resolvedPortalPrefix cfg +:+ "/u/" +:+ safeUser
          +:+ "/resources/" +:+ safeResource +:+ "/logs/"))).
Proof.
  unfold buildResourceLogsEndpoint. rewrite !or_else_string.
  assert (T : forall x, trim (if is_empty (trim x) then EmptyString else trim x) = trim x).
  { intros x. destruct (is_empty (trim x)) eqn:E; [|apply trim_idem].
    apply is_empty_true in E. rewrite E. reflexivity. }
  rewrite !T. reflexivity.
Qed.

Lemma nonblank_trimmed (o : option string) (i : string) :
  nonblank o = Some i -> trim i = i.
Proof.
  destruct o as [s|]; [|discriminate]. cbn.
  destruct (is_empty (trim s)); [discriminate|]. intros [= <-]. apply trim_idem.
Qed.

Lemma resolves_trimmed (h : CloudLogHandler) (cfg : Config) (r : LogRecord)
    (i : string) :
  resolves h cfg r = Some i -> trim i = i.
Proof.
  unfold resolves.
  destruct (nonblank (handler_resourceId h)) eqn:E1;
    [intros [= <-]; exact (nonblank_trimmed _ _ E1)|].
  destruct (nonblank (alshival_resource_id r)) eqn:E2;
    [intros [= <-]; exact (nonblank_trimmed _ _ E2)|].
  apply nonblank_trimmed.
Qed.

Lemma resolved_is_trimmed (h : CloudLogHandler) (cfg : Config) (r : LogRecord) :
  trim (resolvedResourceId h cfg r) = resolvedResourceId h cfg r.
Proof.
  destruct (resolvedResourceId_resolves h cfg r) as [-> _].
  destruct (resolves h cfg r) as [i|] eqn:E; cbn [default]; [|reflexivity].
  exact (resolves_trimmed _ _ _ _ E).
Qed.

Lemma safe_extra_cases (x : Extra) :
  match x with
  | acyclic d => safe_extra x = Ok (safeValue (if data_truthy d then d else DObject []))
  | cyclic => safe_extra x = Throw RangeError
  end.
Proof. destruct x; reflexivity. Qed.

(** What [emit] builds once the two tests have passed: the request, or
    the error of the first step that fails. *)
Lemma forwarded_request_cases (h : CloudLogHandler) (cfg : Config) (r : LogRecord)
    (id : string) :
  truthy (username cfg) = true -> resolves h cfg r = Some id ->
  let user := trim (ToString (owner_or_username cfg)) in
  forwarded_request h cfg r
  = match extra r with
    | cyclic => Throw RangeError
    | acyclic d =>
        if well_formed user && well_formed id then
          Ok {| url := endpoint_base cfg +:+ resolvedPortalPrefix cfg +:+ "/u/"
                       +:+ uri_encode user +:+ "/resources/" +:+ uri_encode id
                       +:+ "/logs/";
                payload :=
                  {| resource_id := id;
                     sdk := "alshival-nodejs";
                     logs := [ {| entry_level :=
                                    toLowerCase (if is_empty (levelname r) then "INFO"
                                                 else levelname r);
                                  entry_message := message r;
                                  entry_logger :=
                                    if is_empty (name r) then "alshival" else name r;
                                  entry_extra :=
                                    safeValue (if data_truthy d then d
                                               else DObject []) |} ] |};
                headers := build_headers cfg;
                req_timeoutSeconds := timeoutSeconds cfg;
                req_verifySsl := verifySsl cfg |}
        else Throw URIError
    end.
Proof.
  intros U R. cbv zeta. unfold forwarded_request, build_request, build_payload.
  destruct (resolvedResourceId_resolves h cfg r) as [D _].
  rewrite D, R. change (default EmptyString (Some id)) with id.
  pose proof (safe_extra_cases (extra r)) as S.
  destruct (extra r) as [d|]; rewrite S; cbn [bind]; [|reflexivity].
  rewrite (owner_of_forwarded cfg U).
  pose proof (endpoint_of_trimmed cfg (ToString (owner_or_username cfg)) id) as E.
  rewrite (resolves_trimmed h cfg r id R) in E. rewrite E. clear E.
  unfold encodeURIComponent.
  destruct (well_formed (trim (ToString (owner_or_username cfg)))); cbn [bind andb];
    [|reflexivity].
  destruct (well_formed id); cbn [bind]; [|reflexivity].
  rewrite !or_else_string.
  assert (M : (if is_empty (message r) then EmptyString else message r) = message r)
    by (destruct (message r); reflexivity).
  rewrite M. reflexivity.
Qed.

Lemma forwarded_request_built (h : CloudLogHandler) (cfg : Config) (r : LogRecord) :
  forwarding_conditions h cfg r ->
  (exists request, forwarded_request h cfg r = Ok request)
  <-> request_can_be_built h cfg r.
Proof.
  intros (_ & _ & _ & _ & U & [id R]). unfold request_can_be_built.
  pose proof (forwarded_request_cases h cfg r id U R) as F. cbv zeta in F.
  rewrite F. clear F. destruct (extra r) as [d|].
  - destruct (well_formed (trim (ToString (owner_or_username cfg)))) eqn:W1;
      cbn [andb].
    + destruct (well_formed id) eqn:W2.
      * split; [|eauto]. intros _. split; [discriminate|]. split; [reflexivity|].
        intros i Hi. congruence.
      * split; [intros [? [=]]|]. intros (_ & _ & W). specialize (W id R). congruence.
    + split; [intros [? [=]]|]. intros (_ & W & _). discriminate W.
  - split; [intros [? [=]]|]. intros (C & _). contradiction.
Qed.

Lemma emit_calls_iff (rid : option string) (lvl : option Z) (cfg : Config)
    (r : LogRecord) :
  let h := new_handler rid lvl in
  ((exists request, calls (emit h cfg r) = [request])
   <-> forwarding_conditions h cfg r /\ request_can_be_built h cfg r)
  /\ (~ forwarding_conditions h cfg r -> calls (emit h cfg r) = [])
  /\ (~ request_can_be_built h cfg r -> calls (emit h cfg r) = []).
Proof.
  cbv zeta. rewrite emit_calls. set (h := new_handler rid lvl).
  pose proof (forwarding_conditions_tests h cfg r) as T.
  destruct (shouldForward h cfg r && negb (is_empty (resolvedResourceId h cfg r))).
  - assert (C : forwarding_conditions h cfg r) by (apply T; reflexivity).
    pose proof (forwarded_request_built h cfg r C) as B.
    destruct (forwarded_request h cfg r) as [request|e].
    + assert (Y : request_can_be_built h cfg r) by (apply B; eauto).
      split; [split; [tauto | eauto]|]. split; [tauto|]. intros X. contradiction.
    + assert (X : ~ request_can_be_built h cfg r)
        by (intros Y; apply B in Y as [? [=]]).
      split; [split; [intros [? [=]] | tauto]|]. split; reflexivity.
  - assert (C : ~ forwarding_conditions h cfg r)
      by (intros X; apply T in X; discriminate).
    split; [split; [intros [? [=]] | tauto]|]. split; reflexivity.
Qed.

(** C1, amended.  For every parser of URLs, every store, every handler
    (any bound resource id, any level override) and every record, [emit]
    hands the record to the transport, once, if and only if the six
    conditions hold and the request can be built: the record's [extra]
    does not contain itself, and the user of the endpoint and the
    resource id are well-formed strings.  When a condition fails, or the
    request cannot be built, there is no transport call; nothing is
    thrown, and nothing is written unless the store's debug flag is
    set. *)
Theorem emit_forwards_iff_conditions (rid : option string) (lvl : option Z)
    (cfg : Config) (r : LogRecord) :
  let h := new_handler rid lvl in
  ((exists request, calls (emit h cfg r) = [request])
   <-> forwarding_conditions h cfg r /\ request_can_be_built h cfg r)
  /\ (~ forwarding_conditions h cfg r -> calls (emit h cfg r) = [])
  /\ (~ request_can_be_built h cfg r -> calls (emit h cfg r) = [])
  /\ (length (calls (emit h cfg r)) <= 1)%nat
  /\ handler_after (emit h cfg r) = h
  /\ (debug cfg = false -> diagnostics (emit h cfg r) = []).
Proof.
  cbv zeta. destruct (emit_calls_iff rid lvl cfg r) as (I & C & B).
  split; [exact I|]. split; [exact C|]. split; [exact B|].
  split; [apply emit_at_most_one|]. split; [apply emit_leaves_handler|].
  intros D. rewrite emit_unfolded by reflexivity. unfold debug_write. rewrite D.
  destruct (shouldForward _ cfg r); [|reflexivity].
  destruct (is_empty _); [reflexivity|].
  destruct (forwarded_request _ cfg r); reflexivity.
Qed.

End Forwarding.

(** A record whose [extra] contains itself meets the six conditions and
    is not forwarded: [safeValue] exhausts the stack, [emit] catches the
    RangeError, and the transport is not called. *)
Lemma cyclic_extra_is_not_forwarded :
  let h := new_handler None None in
  forwarding_conditions h Samples.ready_config Samples.info_record_with_cycle
  /\ emit h (set_debug true Samples.ready_config) Samples.info_record_with_cycle
     = {| handler_after := h; calls := [];
          diagnostics :=
            ["cloud log emit failed: Maximum call stack size exceeded"] |}
  /\ calls (emit h Samples.ready_config Samples.info_record_with_cycle) = []
  /\ ~ forwarding_as_stated h Samples.ready_config Samples.info_record_with_cycle.
Proof.
  cbv zeta.
  assert (C : forwarding_conditions (new_handler None None) Samples.ready_config
                Samples.info_record_with_cycle).
  { unfold forwarding_conditions. repeat split; try reflexivity.
    - discriminate.
    - exists 20. split; [reflexivity | cbn; lia].
    - eexists. vm_compute. reflexivity. }
  split; [exact C|]. split; [vm_compute; reflexivity|].
  split; [vm_compute; reflexivity|].
  intros F. apply F in C as [request E]. vm_compute in E. discriminate E.
Qed.

(** ** The forwarded request *)

Section Request.

Context {parser : Node}.

Lemma build_headers_api_key (cfg : Config) :
  build_headers cfg !! "x-api-key" = Some (or_else (apiKey cfg) (VStr EmptyString)).
Proof.
  unfold build_headers. destruct (truthy (username cfg)).
  - rewrite lookup_insert_ne by discriminate. apply lookup_singleton_eq.
  - apply lookup_singleton_eq.
Qed.

(** The identity header is there exactly when the username is truthy. *)
Lemma build_headers_username (cfg : Config) :
  build_headers cfg !! "x-user-username"
  = if truthy (username cfg) then Some (username cfg) else None.
Proof.
  unfold build_headers. destruct (truthy (username cfg)).
  - apply lookup_insert_eq.
  - apply lookup_singleton_ne. discriminate.
Qed.

Lemma build_headers_keys (cfg : Config) (k : string) :
  is_Some (build_headers cfg !! k) ->
  k = "x-api-key" \/ (k = "x-user-username" /\ truthy (username cfg) = true).
Proof.
  unfold build_headers. destruct (truthy (username cfg)).
  - destruct (decide (k = "x-user-username")) as [->|Ne]; [auto|].
    rewrite lookup_insert_ne by congruence.
    destruct (decide (k = "x-api-key")) as [->|Ne']; [auto|].
    rewrite lookup_singleton_ne by congruence. intros [? [=]].
  - destruct (decide (k = "x-api-key")) as [->|Ne']; [auto|].
    rewrite lookup_singleton_ne by congruence. intros [? [=]].
Qed.

Lemma endpoint_base_parsed (cfg : Config) (parsed : URL) :
  baseUrl cfg <> EmptyString -> new_URL (baseUrl cfg) = Some parsed ->
  endpoint_base cfg = protocol parsed +:+ "//" +:+ host parsed.
Proof.
  intros Ne H. unfold endpoint_base. rewrite or_else_string.
  apply is_empty_false in Ne. rewrite Ne, H. reflexivity.
Qed.

(** The base when [baseUrl] is not a URL, and when it is empty: then
    the default base URL is read in its place. *)
Lemma endpoint_base_default (cfg : Config) :
  (baseUrl cfg <> EmptyString -> new_URL (baseUrl cfg) = None ->
   endpoint_base cfg = "https://alshival.dev")
  /\ (baseUrl cfg = EmptyString ->
      endpoint_base cfg = endpoint_base (set_baseUrl "https://alshival.dev" cfg)).
Proof.
  unfold endpoint_base. rewrite !or_else_string. split.
  - intros Ne E. apply is_empty_false in Ne. rewrite Ne, E. reflexivity.
  - intros ->. reflexivity.
Qed.

Lemma ascii_cased (s : string) :
  forall_string is_ascii s = true ->
  forall_string is_ascii (if is_empty s then "INFO" else s) = true.
Proof. destruct s; [reflexivity | auto]. Qed.

(** C9, amended.  For every parser of URLs: a forwarded record makes
    exactly one transport call.  Its URL is the base (scheme and host of
    [baseUrl] as [new URL] reads them; https://alshival.dev when
    [baseUrl] is not a URL; the base of the default URL when [baseUrl] is
    empty), the resolved portal prefix, [/u/], the URL-encoded trimmed
    owner-or-username, [/resources/], the URL-encoded resolved resource
    id and [/logs/].  Its headers are x-api-key and x-user-username, the
    latter present exactly when the username is; [logs[0].level] is the
    level name in lower case, INFO standing in for an empty name (shown
    for names of ASCII characters, as those of the SDK are). *)
Theorem forwarded_request_shape (rid : option string) (lvl : option Z)
    (cfg : Config) (r : LogRecord) (req : Request) :
  let h := new_handler rid lvl in
  req ∈ calls (emit h cfg r) ->
  calls (emit h cfg r) = [req]
  /\ (exists id,
        resolves h cfg r = Some id
        /\ resource_id (payload req) = id
        /\ url req =
             endpoint_base cfg +:+ resolvedPortalPrefix cfg +:+ "/u/"
             +:+ uri_encode (trim (ToString (owner_or_username cfg)))
             +:+ "/resources/" +:+ uri_encode id +:+ "/logs/")
  /\ (forall parsed, baseUrl cfg <> EmptyString ->
        new_URL (baseUrl cfg) = Some parsed ->
        endpoint_base cfg = protocol parsed +:+ "//" +:+ host parsed)
  /\ (baseUrl cfg <> EmptyString -> new_URL (baseUrl cfg) = None ->
        endpoint_base cfg = "https://alshival.dev")
  /\ (baseUrl cfg = EmptyString ->
        endpoint_base cfg = endpoint_base (set_baseUrl "https://alshival.dev" cfg))
  /\ headers req !! "x-api-key" = Some (apiKey cfg)
  /\ headers req !! "x-user-username" = Some (username cfg)
  /\ (forall k, is_Some (headers req !! k) -> k = "x-api-key" \/ k = "x-user-username")
  /\ (forall cfg', build_headers cfg' !! "x-user-username"
                   = if truthy (username cfg') then Some (username cfg') else None)
  /\ (exists entry,
        logs (payload req) = [entry]
        /\ (forall_string is_ascii (levelname r) = true ->
            entry_level entry
            = ascii_lower (if is_empty (levelname r) then "INFO" else levelname r))).
Proof.
  cbv zeta. rewrite emit_calls. set (h := new_handler rid lvl).
  destruct (shouldForward h cfg r) eqn:S; cbn [andb]; [|intros X; inversion X].
  destruct (is_empty (resolvedResourceId h cfg r)) eqn:E; cbn [negb];
    [intros X; inversion X|].
  apply shouldForward_conditions in S as (_ & _ & _ & A & U).
  destruct (resolvedResourceId_resolves h cfg r) as [D R].
  apply R in E as [id Hid].
  pose proof (forwarded_request_cases h cfg r id U Hid) as F. cbv zeta in F.
  rewrite F. clear F.
  destruct (extra r) as [d|]; [|intros X; inversion X].
  destruct (well_formed _ && well_formed id); [|intros X; inversion X].
  intros X. apply list_elem_of_singleton in X. subst req.
  split; [reflexivity|]. split; [exists id; repeat split; exact Hid|].
  split; [apply endpoint_base_parsed|].
  split; [apply endpoint_base_default|]. split; [apply endpoint_base_default|].
  cbn [headers payload logs].
  split; [rewrite build_headers_api_key; unfold or_else; rewrite A; reflexivity|].
  split; [rewrite build_headers_username, U; reflexivity|].
  split; [intros k Hk; apply build_headers_keys in Hk; tauto|].
  split; [apply build_headers_username|].
  eexists. split; [reflexivity|]. cbn [entry_level]. intros L.
  apply toLowerCase_ascii, ascii_cased, L.
Qed.

End Request.

Lemma forwarded_request_shape_witness :
  let h := new_handler None None in
  exists req,
    req ∈ calls (emit h Samples.ready_config Samples.info_record)
    /\ calls (emit h Samples.ready_config Samples.info_record) = [req]
    /\ url req = "https://alshival.dev/u/u/resources/r/logs/".
Proof.
  cbv zeta.
  assert (E : exists req,
            calls (emit (new_handler None None) Samples.ready_config
                     Samples.info_record) = [req]
            /\ url req = "https://alshival.dev/u/u/resources/r/logs/")
    by (eexists; split; vm_compute; reflexivity).
  destruct E as (req & E & Hu). exists req.
  assert (H : req ∈ calls (emit (new_handler None None) Samples.ready_config
                             Samples.info_record))
    by (rewrite E; left).
  split; [exact H|].
  split; [exact (proj1 (forwarded_request_shape _ _ _ _ _ H)) | exact Hu].
Defined.

(** The endpoint is not the one the specification words: a user name
    with blanks around it is trimmed before it is encoded. *)
Lemma endpoint_trims_the_user :
  exists req,
    calls (emit (new_handler None None) Samples.padded_user_config
             Samples.info_record_for_r) = [req]
    /\ url req = "https://alshival.dev/u/bob/resources/r/logs/"
    /\ ~ endpoint_as_stated Samples.padded_user_config "r" (url req).
Proof.
  eexists. split; [vm_compute; reflexivity|].
  split; [vm_compute; reflexivity|].
  intros (parsed & Hp & Hu). vm_compute in Hp. injection Hp as <-.
  vm_compute in Hu. discriminate Hu.
Qed.

(** ** Handler lists *)

Section Handlers.

Context {parser : Node}.

Lemma merged_spec (existing later : CloudLogHandler) :
  match handler_cloudLevel later with
  | Some l => set_handler_cloudLevel (Some l) existing
  | None => existing
  end = merged existing later.
Proof. destruct existing, later as [? [?|] ?]; reflexivity. Qed.

Lemma dedupe_from_match (hs : list CloudLogHandler) :
  forall (k i : nat) (handler existing : CloudLogHandler),
  hs !! i = Some existing ->
  handler_resourceId existing = handler_resourceId handler ->
  (forall j h', (j < i)%nat -> hs !! j = Some h' ->
                handler_resourceId h' <> handler_resourceId handler) ->
  dedupe_from k hs handler = (<[i := merged existing handler]> hs, (k + i)%nat).
Proof.
  induction hs as [|h0 rest IH]; intros k i handler existing Hi He Hfirst.
  - discriminate Hi.
  - destruct i as [|i]; cbn [dedupe_from].
    + injection Hi as ->. rewrite decide_True by exact He.
      rewrite merged_spec, Nat.add_0_r. reflexivity.
    + rewrite decide_False by (apply (Hfirst 0%nat h0); [lia | reflexivity]).
      rewrite (IH (S k) i handler existing Hi He).
      * cbn. f_equal. lia.
      * intros j h' Hj Hl. apply (Hfirst (S j) h'); [lia | exact Hl].
Qed.


Lemma bound_ids_insert_merged (hs : list CloudLogHandler) (i : nat)
    (existing later : CloudLogHandler) :
  hs !! i = Some existing ->
  bound_ids (<[i := merged existing later]> hs) = bound_ids hs.
Proof.
  intros Hi. unfold bound_ids. rewrite list_fmap_insert. cbn [merged handler_resourceId].
  apply list_insert_id. rewrite list_lookup_fmap, Hi. reflexivity.
Qed.



Lemma filter_bound_NoDup (hs : list CloudLogHandler) (rid : option string) :
  NoDup (bound_ids hs) ->
  (length (List.filter (fun h => bool_decide (handler_resourceId h = rid)) hs) <= 1)%nat.
Proof.
  induction hs as [|h rest IH]; intros Hnd; [cbn; lia|].
  unfold bound_ids in Hnd. rewrite fmap_cons in Hnd.
  apply NoDup_cons in Hnd as [Hh Hrest].
  cbn [List.filter]. destruct (bool_decide_reflect (handler_resourceId h = rid)) as [E|N].
  - assert (Z0 : List.filter (fun h => bool_decide (handler_resourceId h = rid)) rest = []).
    { clear IH Hrest. induction rest as [|h1 rest IH']; [reflexivity|].
      rewrite fmap_cons in Hh. apply not_elem_of_cons in Hh as [Hne Hh].
      cbn [List.filter]. rewrite bool_decide_eq_false_2 by congruence. auto. }
    rewrite Z0. cbn. lia.
  - apply IH, Hrest.
Qed.

Lemma calls_bound_to_at_most_one (rid : option string) (hs : list CloudLogHandler)
    (cfg : Config) (r : LogRecord) :
  NoDup (bound_ids hs) -> (length (calls_bound_to rid hs cfg r) <= 1)%nat.
Proof.
  intros Hnd. unfold calls_bound_to.
  pose proof (filter_bound_NoDup hs rid Hnd) as L.
  destruct (List.filter _ hs) as [|h [|h' t]].
  - cbn. lia.
  - cbn. rewrite app_nil_r. apply emit_at_most_one.
  - cbn in L. lia.
Qed.

(** [attach] builds the handler from the coerced level and hands it to
    [dedupeAddHandler]; a new logger starts with one handler. *)
Lemma attach_dedupes (target : AlshivalLogger) (level cloudLevel : Val)
    (rid : option string) (n : option Z) :
  (if is_undefined (if is_undefined cloudLevel then level else cloudLevel)
   then Ok None
   else normalizedLevelNo (if is_undefined cloudLevel then level else cloudLevel))
  = Ok n ->
  attach target level cloudLevel rid
  = Ok (mkLogger (_loggerName target) (_minLevel target)
          (dedupeAddHandler (handlers target) (new_handler rid n)).1,
        (dedupeAddHandler (handlers target) (new_handler rid n)).2).
Proof.
  intros H. unfold attach. rewrite H. cbn [bind].
  destruct (dedupeAddHandler _ _). reflexivity.
Qed.


(** C3.  Attaching a handler whose bound resource id is already bound
    by a handler of the list adds no handler: the list keeps its length,
    the handler returned is the first-registered one, at its place, with
    its resource id, and its level override is the later handler's when
    that one is not null (which is then the effective minimum), and
    untouched otherwise.  No id is bound twice afterwards, so one record
    causes at most one transport call through the handlers bound to an
    id. *)
Theorem dedupeAddHandler_merges (hs : list CloudLogHandler)
    (handler existing : CloudLogHandler) (i : nat) :
  hs !! i = Some existing ->
  handler_resourceId existing = handler_resourceId handler ->
  (forall j h', (j < i)%nat -> hs !! j = Some h' ->
                handler_resourceId h' <> handler_resourceId handler) ->
  let hs' := (dedupeAddHandler hs handler).1 in
  let returned := (dedupeAddHandler hs handler).2 in
  returned = i
  /\ length hs' = length hs
  /\ (forall j, j <> i -> hs' !! j = hs !! j)
  /\ (exists kept,
        hs' !! i = Some kept
        /\ handler_resourceId kept = handler_resourceId existing
        /\ (forall l cfg, handler_cloudLevel handler = Some l ->
              handler_cloudLevel kept = Some l
              /\ effective_minimum kept cfg = Some l)
        /\ (handler_cloudLevel handler = None -> kept = existing))
  /\ (NoDup (bound_ids hs) ->
        NoDup (bound_ids hs')
        /\ forall rid cfg r, (length (calls_bound_to rid hs' cfg r) <= 1)%nat).
Proof.
  intros Hi He Hfirst. cbv zeta. unfold dedupeAddHandler.
  rewrite (dedupe_from_match hs 0 i handler existing Hi He Hfirst). cbn [fst snd].
  assert (Hlt : (i < length hs)%nat) by (eapply lookup_lt_Some; exact Hi).
  repeat split.
  - apply length_insert.
  - intros j Hj. apply list_lookup_insert_ne. congruence.
  - exists (merged existing handler). split; [apply list_lookup_insert_eq; exact Hlt|].
    split; [reflexivity|]. split.
    + intros l cfg Hl. unfold effective_minimum. cbn [merged handler_cloudLevel].
      rewrite Hl. split; reflexivity.
    + intros Hn. unfold merged. rewrite Hn. destruct existing; reflexivity.
  - rewrite (bound_ids_insert_merged hs i existing handler Hi). exact H.
  - intros rid cfg r. apply calls_bound_to_at_most_one.
    rewrite (bound_ids_insert_merged hs i existing handler Hi). exact H.
Qed.

End Handlers.

Lemma dedupeAddHandler_merges_witness :
  let hs := [new_handler None None; new_handler (Some "r") (Some 20)] in
  let handler := new_handler (Some "r") (Some 40) in
  hs !! 1%nat = Some (new_handler (Some "r") (Some 20))
  /\ (dedupeAddHandler hs handler).2 = 1%nat
  /\ (dedupeAddHandler hs handler).1
     = [new_handler None None; new_handler (Some "r") (Some 40)].
Proof.
  cbv zeta.
  assert (Hi : [new_handler None None; new_handler (Some "r") (Some 20)] !! 1%nat
               = Some (new_handler (Some "r") (Some 20))) by reflexivity.
  split; [exact Hi|]. split.
  - refine (proj1 (dedupeAddHandler_merges _ (new_handler (Some "r") (Some 40))
                     _ 1 Hi _ _)).
    + reflexivity.
    + intros [|j] h' Hj Hl; [injection Hl as <-; discriminate | lia].
  - vm_compute. reflexivity.
Defined.

(** ** Portal prefixes *)

Section PortalPrefix.

Context {parser : Node}.

Lemma normalizePortalPrefix_string (s : string) :
  normalizePortalPrefix (VStr s)
  = Some (if is_empty (strip_slashes (trim s)) then EmptyString
          else String "/" (strip_slashes (trim s))).
Proof.
  cbn [normalizePortalPrefix ToString].
  destruct (is_empty (trim s)) eqn:E.
  - apply is_empty_true in E. rewrite E. reflexivity.
  - destruct (strip_slashes (trim s)) as [|a t] eqn:E'.
    + rewrite decide_True by reflexivity. reflexivity.
    + rewrite decide_False by discriminate. reflexivity.
Qed.

(** The prefix of a store with no explicit prefix whose [baseUrl] has
    no path: the host decides. *)
Lemma resolvedPortalPrefix_by_host (cfg : Config) (parsed : URL) :
  portalPrefix cfg = None -> new_URL (baseUrl cfg) = Some parsed ->
  strip_slashes (trim (pathname parsed)) = EmptyString ->
  resolvedPortalPrefix cfg
  = if bool_decide (toLowerCase (trim (hostname parsed)) ∈ MARKETING_HOSTS)
    then "/DevTools" else EmptyString.
Proof.
  intros Hp Hu He. unfold resolvedPortalPrefix.
  rewrite Hp, Hu, normalizePortalPrefix_string, He. reflexivity.
Qed.

(** C8, amended.  For every parser of URLs: a stored prefix that is not
    null is returned as it is, the empty string included.  Otherwise the
    prefix is the path of [baseUrl] when that has one; otherwise
    /DevTools exactly when the host is alshival.ai or www.alshival.ai,
    and the empty string for every other host and for a [baseUrl] that
    [new URL] rejects.  So it is /DevTools for https://alshival.ai,
    empty for https://alshival.dev, and empty for an explicit empty
    prefix on alshival.ai. *)
Theorem resolvedPortalPrefix_cases :
  (forall cfg p, portalPrefix cfg = Some p -> resolvedPortalPrefix cfg = p)
  /\ (forall cfg parsed,
        portalPrefix cfg = None -> new_URL (baseUrl cfg) = Some parsed ->
        strip_slashes (trim (pathname parsed)) <> EmptyString ->
        resolvedPortalPrefix cfg = String "/" (strip_slashes (trim (pathname parsed))))
  /\ (forall cfg parsed,
        portalPrefix cfg = None -> new_URL (baseUrl cfg) = Some parsed ->
        strip_slashes (trim (pathname parsed)) = EmptyString ->
        let host := toLowerCase (trim (hostname parsed)) in
        (host = "alshival.ai" \/ host = "www.alshival.ai" ->
           resolvedPortalPrefix cfg = "/DevTools")
        /\ (host <> "alshival.ai" -> host <> "www.alshival.ai" ->
           resolvedPortalPrefix cfg = EmptyString))
  /\ (forall cfg, portalPrefix cfg = None -> new_URL (baseUrl cfg) = None ->
        resolvedPortalPrefix cfg = EmptyString)
  /\ (new_URL "https://alshival.ai"
        = Some (mkURL "https:" "alshival.ai" "alshival.ai" "/") ->
      resolvedPortalPrefix (set_baseUrl "https://alshival.ai" Samples.reset_config)
      = "/DevTools")
  /\ (new_URL "https://alshival.dev"
        = Some (mkURL "https:" "alshival.dev" "alshival.dev" "/") ->
      resolvedPortalPrefix (set_baseUrl "https://alshival.dev" Samples.reset_config)
      = EmptyString)
  /\ resolvedPortalPrefix
       (set_portalPrefix (Some EmptyString)
          (set_baseUrl "https://alshival.ai" Samples.reset_config))
     = EmptyString.
Proof.
  split; [|split; [|split; [|split; [|split; [|split]]]]].
  - intros cfg p H. unfold resolvedPortalPrefix. rewrite H. reflexivity.
  - intros cfg parsed Hp Hu Hn. unfold resolvedPortalPrefix.
    rewrite Hp, Hu, normalizePortalPrefix_string.
    apply is_empty_false in Hn. rewrite Hn. reflexivity.
  - intros cfg parsed Hp Hu He host.
    rewrite (resolvedPortalPrefix_by_host cfg parsed Hp Hu He).
    fold host. unfold MARKETING_HOSTS. split.
    + intros Hh. rewrite bool_decide_eq_true_2; [reflexivity|].
      destruct Hh as [-> | ->]; [left | right; left].
    + intros N1 N2. rewrite bool_decide_eq_false_2; [reflexivity|].
      intros Hin. apply elem_of_cons in Hin as [Hin|Hin]; [contradiction|].
      apply list_elem_of_singleton in Hin. contradiction.
  - intros cfg Hp Hu. unfold resolvedPortalPrefix. rewrite Hp, Hu. reflexivity.
  - intros H.
    rewrite (resolvedPortalPrefix_by_host
               (set_baseUrl "https://alshival.ai" Samples.reset_config) _
               eq_refl H eq_refl).
    reflexivity.
  - intros H.
    rewrite (resolvedPortalPrefix_by_host
               (set_baseUrl "https://alshival.dev" Samples.reset_config) _
               eq_refl H eq_refl).
    reflexivity.
  - reflexivity.
Qed.

End PortalPrefix.

(** The three stores above, on the plain-URL parser; a port does not
    change the host rule. *)
Example resolvedPortalPrefix_samples :
  resolvedPortalPrefix (set_baseUrl "https://alshival.ai" Samples.reset_config)
  = "/DevTools"
  /\ resolvedPortalPrefix (set_baseUrl "https://alshival.dev" Samples.reset_config)
     = EmptyString
  /\ resolvedPortalPrefix (set_baseUrl "https://alshival.dev/DevTools/" Samples.reset_config)
     = "/DevTools".
Proof. repeat split; vm_compute; reflexivity. Qed.

(** On www.alshival.ai the prefix is /DevTools too: the host rule is
    not the one the specification words. *)
Lemma www_host_gets_DevTools :
  resolvedPortalPrefix (set_baseUrl "https://www.alshival.ai" Samples.reset_config)
  = "/DevTools"
  /\ (exists parsed,
        new_URL "https://www.alshival.ai" = Some parsed
        /\ hostname parsed = "www.alshival.ai" /\ pathname parsed = "/")
  /\ ~ host_rule_as_stated (set_baseUrl "https://www.alshival.ai" Samples.reset_config).
Proof.
  split; [vm_compute; reflexivity|].
  split; [eexists; vm_compute; repeat split; reflexivity|].
  intros H.
  specialize (H (mkURL "https:" "www.alshival.ai" "www.alshival.ai" "/")).
  specialize (H eq_refl). vm_compute in H.
  specialize (H eq_refl eq_refl). discriminate H.
Qed.

(** ** The store from the environment *)

Section Environment.

Context {parser : Node}.

(** The resource URL is read from ALSHIVAL_RESOURCE, and from
    ALSHIVAL_RESOURCE_URL when that one is unset or empty. *)
Lemma env_resource_first (env : gmap string string) :
  env_resource env
  = match env !! "ALSHIVAL_RESOURCE" with
    | Some (String a r) => VStr (String a r)
    | _ => getenv env "ALSHIVAL_RESOURCE_URL"
    end.
Proof.
  unfold env_resource, or_else, getenv.
  destruct (env !! "ALSHIVAL_RESOURCE") as [[|a r]|]; reflexivity.
Qed.

(** C2, amended.  The resource URL of the environment is read first.
    When it parses it supplies the owner, the resource id, the base URL
    and the portal prefix, whatever ALSHIVAL_BASE_URL and
    ALSHIVAL_PORTAL_PREFIX hold; those two are read only when there is no
    resource URL or it is not a resource reference. *)
Theorem buildClientConfigFromEnv_resource (env : gmap string string) :
  (forall ref,
     parseResourceReference (env_resource env) = Ok (Some ref) ->
     exists cfg,
       buildClientConfigFromEnv env = Ok cfg
       /\ resourceOwnerUsername cfg = Some (ref_resourceOwnerUsername ref)
       /\ resourceId cfg = Some (ref_resourceId ref)
       /\ baseUrl cfg = strip_one_trailing_slash (ref_baseUrl ref)
       /\ portalPrefix cfg = Some (ref_portalPrefix ref))
  /\ (parseResourceReference (env_resource env) = Ok None ->
      exists cfg,
        buildClientConfigFromEnv env = Ok cfg
        /\ resourceOwnerUsername cfg = None
        /\ resourceId cfg = None
        /\ baseUrl cfg
           = strip_one_trailing_slash
               match env !! "ALSHIVAL_BASE_URL" with
               | Some (String a r) => String a r
               | _ => "https://alshival.dev"
               end
        /\ portalPrefix cfg
           = normalizePortalPrefix (getenv env "ALSHIVAL_PORTAL_PREFIX")).
Proof.
  unfold buildClientConfigFromEnv. fold (env_resource env). split.
  - intros ref H. rewrite H. cbn [bind]. eexists. split; [reflexivity|].
    cbn. repeat split; reflexivity.
  - intros H. rewrite H. cbn [bind]. eexists. split; [reflexivity|].
    cbn [resourceOwnerUsername resourceId baseUrl portalPrefix fmap option_fmap option_map].
    repeat split.
    unfold getenv, or_else, DEFAULT_BASE_URL.
    destruct (env !! "ALSHIVAL_BASE_URL") as [[|a r]|]; reflexivity.
Qed.

End Environment.

(** With both variables set the base URL is the resource's, as the
    test 'env resource url wins over conflicting base url' asserts. *)
Lemma env_resource_wins_over_base_url :
  exists cfg,
    buildClientConfigFromEnv
      {[ "ALSHIVAL_BASE_URL" := "https://alshival.ai";
         "ALSHIVAL_RESOURCE" := "https://alshival.dev/u/owner-user/resources/r-123/" ]}
    = Ok cfg
    /\ baseUrl cfg = "https://alshival.dev"
    /\ portalPrefix cfg = Some EmptyString
    /\ resourceOwnerUsername cfg = Some "owner-user"
    /\ resourceId cfg = Some "r-123"
    /\ ~ env_base_url_as_stated
           {[ "ALSHIVAL_BASE_URL" := "https://alshival.ai";
              "ALSHIVAL_RESOURCE" := "https://alshival.dev/u/owner-user/resources/r-123/" ]}
           cfg.
Proof.
  eexists. split; [vm_compute; reflexivity|].
  repeat split.
  intros H. specialize (H "https://alshival.ai" eq_refl).
  assert (N : "https://alshival.ai" <> EmptyString) by discriminate.
  specialize (H N). vm_compute in H. discriminate H.
Qed.

(** ** configure *)

Section Configure.

Context {parser : Node}.

Ltac fields :=
  cbn [set_username set_apiKey set_baseUrl set_portalPrefix set_enabled
       set_cloudLevel set_timeoutSeconds set_verifySsl set_debug
       set_resourceOwnerUsername set_resourceId
       username resourceOwnerUsername apiKey baseUrl portalPrefix resourceId
       enabled cloudLevel timeoutSeconds verifySsl debug].

Lemma apply_resource_keeps (resource bu pp : Val) (c c1 : Config) :
  apply_resource resource bu pp c = Ok c1 ->
  same_identity c1 c /\ same_tail c1 c /\ cloudLevel c1 = cloudLevel c
  /\ (is_undefined resource = true -> c1 = c)
  /\ (is_undefined bu = false -> baseUrl c1 = baseUrl c)
  /\ (is_undefined pp = false -> portalPrefix c1 = portalPrefix c).
Proof.
  unfold apply_resource, same_identity, same_tail.
  destruct (is_undefined resource); [intros [= <-]; tauto|].
  destruct (parseResourceReference resource) as [[ref|]|e]; cbn [bind];
    [| |discriminate]; intros [= <-].
  - destruct (is_undefined bu), (is_undefined pp); destruct c; cbn;
      repeat split; congruence.
  - destruct c; cbn. repeat split; congruence.
Qed.

Lemma apply_resource_parsed (resource bu pp : Val) (c : Config)
    (ref : ResourceReference) :
  is_undefined resource = false ->
  parseResourceReference resource = Ok (Some ref) ->
  exists c1,
    apply_resource resource bu pp c = Ok c1
    /\ resourceOwnerUsername c1 = Some (ref_resourceOwnerUsername ref)
    /\ resourceId c1 = Some (ref_resourceId ref)
    /\ baseUrl c1 = (if is_undefined bu then ref_baseUrl ref else baseUrl c)
    /\ portalPrefix c1
       = (if is_undefined pp then Some (ref_portalPrefix ref) else portalPrefix c).
Proof.
  intros U P. unfold apply_resource. rewrite U, P. cbn [bind].
  eexists. split; [reflexivity|].
  destruct (is_undefined bu), (is_undefined pp); destruct c; cbn; repeat split.
Qed.

Lemma apply_resource_no_match (resource bu pp : Val) (c : Config) :
  is_undefined resource = false ->
  parseResourceReference resource = Ok None ->
  exists c1,
    apply_resource resource bu pp c = Ok c1
    /\ resourceOwnerUsername c1 = None /\ resourceId c1 = None
    /\ same_location c1 c.
Proof.
  intros U P. unfold apply_resource. rewrite U, P. cbn [bind].
  eexists. split; [reflexivity|]. destruct c; cbn. repeat split.
Qed.

Lemma apply_fields_effect (u k bu pp en : Val) (c : Config) :
  let c2 := apply_fields u k bu pp en c in
  username c2 = (if is_undefined u then username c else u)
  /\ apiKey c2 = (if is_undefined k then apiKey c else k)
  /\ baseUrl c2
     = (if is_undefined bu then baseUrl c
        else strip_one_trailing_slash (ToString bu))
  /\ portalPrefix c2
     = (if is_undefined pp then portalPrefix c else normalizePortalPrefix pp)
  /\ enabled c2 = (if is_undefined en then enabled c else truthy en)
  /\ same_target c2 c /\ same_tail c2 c /\ cloudLevel c2 = cloudLevel c.
Proof.
  cbv zeta. unfold apply_fields, same_target, same_tail.
  unfold when_defined.
  destruct (is_undefined u), (is_undefined k), (is_undefined bu),
    (is_undefined pp), (is_undefined en); fields; repeat split.
Qed.

Lemma apply_cloud_level_keeps (options : gmap string Val) (d : Val) (c c3 : Config) :
  apply_cloud_level options d c = Ok c3 ->
  same_identity c3 c /\ same_tail c3 c /\ same_target c3 c /\ same_location c3 c.
Proof.
  unfold apply_cloud_level, same_identity, same_tail, same_target, same_location.
  destruct (has options "cloudLevel" || has options "cloud_level").
  - destruct (coerceCloudLevel _); cbn [bind]; [|discriminate].
    intros [= <-]. destruct c; cbn. repeat split.
  - destruct (is_true d && bool_decide (cloudLevel c <> None));
      intros [= <-]; destruct c; cbn; repeat split.
Qed.

Lemma apply_cloud_level_effect (options : gmap string Val) (d : Val) (c : Config) :
  apply_cloud_level options d c
  = if has_cloud_level options then
      match coerceCloudLevel (get2 options "cloudLevel" "cloud_level") with
      | Ok l => Ok (set_cloudLevel l c)
      | Throw e => Throw e
      end
    else Ok (if is_true d then
               set_cloudLevel (match cloudLevel c with
                               | Some _ => Some 10
                               | None => None
                               end) c
             else c).
Proof.
  unfold apply_cloud_level, has_cloud_level.
  destruct (has options "cloudLevel" || has options "cloud_level").
  - destruct (coerceCloudLevel _); reflexivity.
  - destruct (is_true d); cbn [andb]; [|reflexivity].
    destruct c as [? ? ? ? ? ? ? [l|] ? ? ?]; reflexivity.
Qed.

Lemma apply_tail_effect (t v d : Val) (c : Config) :
  let c4 := apply_tail t v d c in
  timeoutSeconds c4
  = (match t with VNum (Finite q shown) => Finite q shown | _ => timeoutSeconds c end)
  /\ verifySsl c4 = (if is_undefined v then verifySsl c else truthy v)
  /\ debug c4 = (if is_undefined d then debug c else truthy d)
  /\ same_identity c4 c /\ same_target c4 c /\ same_location c4 c
  /\ cloudLevel c4 = cloudLevel c.
Proof.
  cbv zeta. unfold apply_tail, same_identity, same_target, same_location.
  unfold when_defined.
  destruct t as [| | |[]|]; cbn [is_undefined];
    destruct (is_undefined v), (is_undefined d); fields; repeat split.
Qed.

Lemma coerceCloudLevel_throws_InvalidLevel (v : Val) (e : Thrown) :
  coerceCloudLevel v = Throw e -> e = InvalidLevel.
Proof.
  destruct v as [| | | |s]; cbn [coerceCloudLevel]; try (intros [= <-]; reflexivity).
  destruct (decide _); [discriminate|].
  destruct (CLOUD_LEVEL_NAME_TO_NO !! toUpperCase (trim s)); [discriminate|].
  intros [= <-]. reflexivity.
Qed.

(** [configure] by the outcome of its steps. *)
Lemma configure_steps (options : gmap string Val) (cfg : Config) :
  configure options cfg
  = match resource_step options cfg with
    | Throw e => (cfg, Some e)
    | Ok c1 =>
        let c2 := apply_fields (get options "username")
                    (get2 options "apiKey" "api_key")
                    (get2 options "baseUrl" "base_url")
                    (get2 options "portalPrefix" "portal_prefix")
                    (get options "enabled") c1 in
        match apply_cloud_level options (get options "debug") c2 with
        | Throw e => (c2, Some e)
        | Ok c3 =>
            (apply_tail (get2 options "timeoutSeconds" "timeout_seconds")
               (get2 options "verifySsl" "verify_ssl") (get options "debug") c3,
             None)
        end
    end.
Proof. reflexivity. Qed.

(** The resource step raises only when [decodeURIComponent] does. *)
Lemma resource_step_total (options : gmap string Val) (cfg : Config) :
  (supplied1 options "resource" = false
   \/ exists x, parseResourceReference (get options "resource") = Ok x) ->
  exists c1, resource_step options cfg = Ok c1.
Proof.
  unfold resource_step, apply_resource, supplied1.
  destruct (is_undefined (get options "resource")); [eauto|].
  intros [[=]|[x ->]]. cbn [bind]. destruct x; eauto.
Qed.


(** The fields written before the cloud level, whatever happens there. *)
Lemma configure_early_fields (options : gmap string Val) (cfg c1 : Config) :
  resource_step options cfg = Ok c1 ->
  let cfg' := (configure options cfg).1 in
  let u := get options "username" in
  let k := get2 options "apiKey" "api_key" in
  let bu := get2 options "baseUrl" "base_url" in
  let pp := get2 options "portalPrefix" "portal_prefix" in
  let en := get options "enabled" in
  username cfg' = (if is_undefined u then username cfg else u)
  /\ apiKey cfg' = (if is_undefined k then apiKey cfg else k)
  /\ enabled cfg' = (if is_undefined en then enabled cfg else truthy en)
  /\ baseUrl cfg'
     = (if is_undefined bu then baseUrl c1 else strip_one_trailing_slash (ToString bu))
  /\ portalPrefix cfg'
     = (if is_undefined pp then portalPrefix c1 else normalizePortalPrefix pp)
  /\ resourceOwnerUsername cfg' = resourceOwnerUsername c1
  /\ resourceId cfg' = resourceId c1.
Proof.
  intros R. cbv zeta. rewrite configure_steps, R. cbv zeta.
  destruct (apply_resource_keeps _ _ _ _ _ R) as ((U & K & E) & _).
  pose proof (apply_fields_effect (get options "username")
                (get2 options "apiKey" "api_key") (get2 options "baseUrl" "base_url")
                (get2 options "portalPrefix" "portal_prefix") (get options "enabled") c1)
    as F. cbv zeta in F.
  set (c2 := apply_fields _ _ _ _ _ c1) in *.
  destruct F as (F1 & F2 & F3 & F4 & F5 & (F6 & F7) & _).
  rewrite U in F1. rewrite K in F2. rewrite E in F5.
  destruct (apply_cloud_level options (get options "debug") c2) as [c3|e] eqn:C;
    cbn [fst].
  - destruct (apply_cloud_level_keeps _ _ _ _ C)
      as ((A1 & A2 & A3) & _ & (A4 & A5) & (A6 & A7)).
    pose proof (apply_tail_effect (get2 options "timeoutSeconds" "timeout_seconds")
                  (get2 options "verifySsl" "verify_ssl") (get options "debug") c3)
      as T. cbv zeta in T.
    destruct T as (_ & _ & _ & (T1 & T2 & T3) & (T4 & T5) & (T6 & T7) & _).
    repeat split; congruence.
  - repeat split; assumption.
Qed.

(** The fields written after the cloud level, and the cloud level. *)
Lemma configure_late_fields (options : gmap string Val) (cfg : Config) :
  let cfg' := (configure options cfg).1 in
  (supplied options "timeoutSeconds" "timeout_seconds" = false ->
     timeoutSeconds cfg' = timeoutSeconds cfg)
  /\ (supplied options "verifySsl" "verify_ssl" = false ->
     verifySsl cfg' = verifySsl cfg)
  /\ (supplied1 options "debug" = false -> debug cfg' = debug cfg)
  /\ (has_cloud_level options = false ->
      is_true (get options "debug") = false \/ cloudLevel cfg = None ->
      cloudLevel cfg' = cloudLevel cfg).
Proof.
  cbv zeta. unfold supplied, supplied1. rewrite configure_steps.
  destruct (resource_step options cfg) as [c1|e] eqn:R; [|cbn; tauto].
  destruct (apply_resource_keeps _ _ _ _ _ R) as (_ & (K1 & K2 & K3) & K4 & _).
  cbv zeta.
  pose proof (apply_fields_effect (get options "username")
                (get2 options "apiKey" "api_key") (get2 options "baseUrl" "base_url")
                (get2 options "portalPrefix" "portal_prefix") (get options "enabled") c1)
    as F. cbv zeta in F.
  set (c2 := apply_fields _ _ _ _ _ c1) in *.
  destruct F as (_ & _ & _ & _ & _ & _ & (F1 & F2 & F3) & F4).
  rewrite apply_cloud_level_effect.
  destruct (has_cloud_level options).
  - destruct (coerceCloudLevel _) as [l|e]; cbn [fst].
    + pose proof (apply_tail_effect (get2 options "timeoutSeconds" "timeout_seconds")
                    (get2 options "verifySsl" "verify_ssl") (get options "debug")
                    (set_cloudLevel l c2)) as T. cbv zeta in T.
      destruct T as (T1 & T2 & T3 & _).
      repeat split; try discriminate.
      * intros H. apply negb_false_iff in H. rewrite T1.
        destruct (get2 options "timeoutSeconds" "timeout_seconds"); try discriminate H.
        destruct c2; cbn in *. congruence.
      * intros H. apply negb_false_iff in H. rewrite T2, H.
        destruct c2; cbn in *. congruence.
      * intros H. apply negb_false_iff in H. rewrite T3, H.
        destruct c2; cbn in *. congruence.
    + repeat split; try discriminate; intros _; congruence.
  - cbn [fst].
    set (c3 := if is_true (get options "debug") then _ else c2).
    assert (S3 : same_tail c3 c2 /\
                 (is_true (get options "debug") = false \/ cloudLevel c2 = None ->
                  cloudLevel c3 = cloudLevel c2)).
    { subst c3. unfold same_tail. destruct (is_true (get options "debug")).
      - destruct c2 as [? ? ? ? ? ? ? [l|] ? ? ?]; cbn; repeat split;
          intros [H|H]; discriminate H.
      - repeat split. }
    destruct S3 as ((S1 & S2 & S3) & S4).
    pose proof (apply_tail_effect (get2 options "timeoutSeconds" "timeout_seconds")
                  (get2 options "verifySsl" "verify_ssl") (get options "debug") c3)
      as T. cbv zeta in T.
    destruct T as (T1 & T2 & T3 & _ & _ & _ & T4).
    repeat split.
    + intros H. apply negb_false_iff in H. rewrite T1.
      destruct (get2 options "timeoutSeconds" "timeout_seconds"); try discriminate H.
      congruence.
    + intros H. apply negb_false_iff in H. rewrite T2, H. congruence.
    + intros H. apply negb_false_iff in H. rewrite T3, H. congruence.
    + intros _ H. rewrite T4, S4, F4, K4; [reflexivity|].
      rewrite F4, K4. exact H.
Qed.


(** What a supplied resource reference leaves in the store, whatever the
    rest of the call does. *)
Lemma configure_resource_fields (options : gmap string Val) (cfg : Config) :
  let cfg' := (configure options cfg).1 in
  (forall ref,
     supplied1 options "resource" = true ->
     parseResourceReference (get options "resource") = Ok (Some ref) ->
     resourceOwnerUsername cfg' = Some (ref_resourceOwnerUsername ref)
     /\ resourceId cfg' = Some (ref_resourceId ref)
     /\ baseUrl cfg'
        = (if supplied options "baseUrl" "base_url"
           then strip_one_trailing_slash (ToString (get2 options "baseUrl" "base_url"))
           else ref_baseUrl ref)
     /\ portalPrefix cfg'
        = (if supplied options "portalPrefix" "portal_prefix"
           then normalizePortalPrefix (get2 options "portalPrefix" "portal_prefix")
           else Some (ref_portalPrefix ref)))
  /\ (supplied1 options "resource" = true ->
      parseResourceReference (get options "resource") = Ok None ->
      resourceOwnerUsername cfg' = None /\ resourceId cfg' = None
      /\ (supplied options "baseUrl" "base_url" = false ->
            baseUrl cfg' = baseUrl cfg)
      /\ (supplied options "portalPrefix" "portal_prefix" = false ->
            portalPrefix cfg' = portalPrefix cfg)).
Proof.
  cbv zeta. unfold supplied, supplied1. split.
  - intros ref U P. apply negb_true_iff in U.
    destruct (apply_resource_parsed _ (get2 options "baseUrl" "base_url")
                (get2 options "portalPrefix" "portal_prefix") cfg ref U P)
      as (c1 & R & P1 & P2 & P3 & P4).
    pose proof (configure_early_fields options cfg c1 R) as E. cbv zeta in E.
    destruct E as (_ & _ & _ & E4 & E5 & E6 & E7).
    rewrite E4, E5, E6, E7, P1, P2, P3, P4.
    destruct (is_undefined (get2 options "baseUrl" "base_url")),
      (is_undefined (get2 options "portalPrefix" "portal_prefix")); repeat split.
  - intros U P. apply negb_true_iff in U.
    destruct (apply_resource_no_match _ (get2 options "baseUrl" "base_url")
                (get2 options "portalPrefix" "portal_prefix") cfg U P)
      as (c1 & R & P1 & P2 & P3 & P4).
    pose proof (configure_early_fields options cfg c1 R) as E. cbv zeta in E.
    destruct E as (_ & _ & _ & E4 & E5 & E6 & E7).
    rewrite E6, E7. split; [assumption|]. split; [assumption|]. split.
    + intros B. apply negb_false_iff in B. rewrite E4, B. exact P3.
    + intros B. apply negb_false_iff in B. rewrite E5, B. exact P4.
Qed.

(** A resource reference that makes the parser raise stops the call
    before it has written anything. *)
Lemma configure_resource_throws (options : gmap string Val) (cfg : Config)
    (e : Thrown) :
  supplied1 options "resource" = true ->
  parseResourceReference (get options "resource") = Throw e ->
  configure options cfg = (cfg, Some e).
Proof.
  unfold supplied1. intros U P. apply negb_true_iff in U.
  rewrite configure_steps. unfold resource_step, apply_resource.
  rewrite U, P. reflexivity.
Qed.

(** The fields a call leaves alone when it does not supply them. *)
Lemma configure_frame (options : gmap string Val) (cfg : Config) :
  let cfg' := (configure options cfg).1 in
  (supplied1 options "username" = false -> username cfg' = username cfg)
  /\ (supplied options "apiKey" "api_key" = false -> apiKey cfg' = apiKey cfg)
  /\ (supplied1 options "enabled" = false -> enabled cfg' = enabled cfg)
  /\ (supplied1 options "resource" = false ->
        resourceOwnerUsername cfg' = resourceOwnerUsername cfg
        /\ resourceId cfg' = resourceId cfg
        /\ (supplied options "baseUrl" "base_url" = false ->
              baseUrl cfg' = baseUrl cfg)
        /\ (supplied options "portalPrefix" "portal_prefix" = false ->
              portalPrefix cfg' = portalPrefix cfg)).
Proof.
  cbv zeta. unfold supplied, supplied1.
  destruct (resource_step options cfg) as [c1|e] eqn:R.
  - pose proof (configure_early_fields options cfg c1 R) as E. cbv zeta in E.
    destruct E as (E1 & E2 & E3 & E4 & E5 & E6 & E7).
    destruct (apply_resource_keeps _ _ _ _ _ R) as (_ & _ & _ & K & _).
    split; [|split; [|split]].
    + intros H. apply negb_false_iff in H. rewrite E1, H. reflexivity.
    + intros H. apply negb_false_iff in H. rewrite E2, H. reflexivity.
    + intros H. apply negb_false_iff in H. rewrite E3, H. reflexivity.
    + intros H. apply negb_false_iff in H. specialize (K H). subst c1.
      split; [exact E6|]. split; [exact E7|]. split.
      * intros B. apply negb_false_iff in B. rewrite E4, B. reflexivity.
      * intros B. apply negb_false_iff in B. rewrite E5, B. reflexivity.
  - assert (X : (configure options cfg).1 = cfg)
      by (rewrite configure_steps, R; reflexivity).
    rewrite X. repeat split.
Qed.

(** C4, amended.  [configure] merges field by field.  A field the call
    does not supply keeps its value, with one exception: a call with
    [debug: true] and no cloud level moves a cloud level that is not
    disabled to DEBUG.  A supplied resource reference that parses sets
    the owner and the resource id, and sets the base URL and the portal
    prefix only when the call does not supply them itself (then the
    supplied values are stored).  A supplied resource reference for which
    [parseResourceReference] returns null clears the owner and the
    resource id and leaves the base URL and the portal prefix to the
    call; one that makes it raise leaves the whole store as it was. *)
Theorem configure_merges (options : gmap string Val) (cfg : Config) :
  let cfg' := (configure options cfg).1 in
  (supplied1 options "username" = false -> username cfg' = username cfg)
  /\ (supplied options "apiKey" "api_key" = false -> apiKey cfg' = apiKey cfg)
  /\ (supplied1 options "enabled" = false -> enabled cfg' = enabled cfg)
  /\ (supplied options "timeoutSeconds" "timeout_seconds" = false ->
        timeoutSeconds cfg' = timeoutSeconds cfg)
  /\ (supplied options "verifySsl" "verify_ssl" = false ->
        verifySsl cfg' = verifySsl cfg)
  /\ (supplied1 options "debug" = false -> debug cfg' = debug cfg)
  /\ (supplied1 options "resource" = false ->
        resourceOwnerUsername cfg' = resourceOwnerUsername cfg
        /\ resourceId cfg' = resourceId cfg
        /\ (supplied options "baseUrl" "base_url" = false ->
              baseUrl cfg' = baseUrl cfg)
        /\ (supplied options "portalPrefix" "portal_prefix" = false ->
              portalPrefix cfg' = portalPrefix cfg))
  /\ (has_cloud_level options = false ->
        is_true (get options "debug") = false \/ cloudLevel cfg = None ->
        cloudLevel cfg' = cloudLevel cfg)
  /\ (forall ref,
        supplied1 options "resource" = true ->
        parseResourceReference (get options "resource") = Ok (Some ref) ->
        resourceOwnerUsername cfg' = Some (ref_resourceOwnerUsername ref)
        /\ resourceId cfg' = Some (ref_resourceId ref)
        /\ baseUrl cfg'
           = (if supplied options "baseUrl" "base_url"
              then strip_one_trailing_slash
                     (ToString (get2 options "baseUrl" "base_url"))
              else ref_baseUrl ref)
        /\ portalPrefix cfg'
           = (if supplied options "portalPrefix" "portal_prefix"
              then normalizePortalPrefix (get2 options "portalPrefix" "portal_prefix")
              else Some (ref_portalPrefix ref)))
  /\ (supplied1 options "resource" = true ->
        parseResourceReference (get options "resource") = Ok None ->
        resourceOwnerUsername cfg' = None /\ resourceId cfg' = None
        /\ (supplied options "baseUrl" "base_url" = false ->
              baseUrl cfg' = baseUrl cfg)
        /\ (supplied options "portalPrefix" "portal_prefix" = false ->
              portalPrefix cfg' = portalPrefix cfg))
  /\ (forall e,
        supplied1 options "resource" = true ->
        parseResourceReference (get options "resource") = Throw e ->
        configure options cfg = (cfg, Some e)).
Proof.
  cbv zeta.
  pose proof (configure_frame options cfg) as F. cbv zeta in F.
  destruct F as (F1 & F2 & F3 & F4).
  pose proof (configure_late_fields options cfg) as L. cbv zeta in L.
  destruct L as (L1 & L2 & L3 & L4).
  pose proof (configure_resource_fields options cfg) as R. cbv zeta in R.
  destruct R as (R1 & R2).
  split; [exact F1|]. split; [exact F2|]. split; [exact F3|].
  split; [exact L1|]. split; [exact L2|]. split; [exact L3|].
  split; [exact F4|]. split; [exact L4|]. split; [exact R1|].
  split; [exact R2|]. intros e. apply configure_resource_throws.
Qed.

(** A call returns unless its resource reference raises or its cloud
    level is rejected. *)
Lemma configure_returns (options : gmap string Val) (cfg : Config) :
  (supplied1 options "resource" = false
   \/ exists x, parseResourceReference (get options "resource") = Ok x) ->
  (has_cloud_level options = false
   \/ exists l, coerceCloudLevel (get2 options "cloudLevel" "cloud_level") = Ok l) ->
  exists cfg', configure options cfg = (cfg', None).
Proof.
  intros Hr Hc. destruct (resource_step_total options cfg Hr) as [c1 R].
  rewrite configure_steps, R. cbv zeta. rewrite apply_cloud_level_effect.
  destruct Hc as [-> | [l Hl]]; [eauto|].
  destruct (has_cloud_level options); [rewrite Hl|]; eauto.
Qed.

Lemma configure_cloud_level (options : gmap string Val) (cfg cfg' : Config) :
  configure options cfg = (cfg', None) ->
  if has_cloud_level options
  then coerceCloudLevel (get2 options "cloudLevel" "cloud_level") = Ok (cloudLevel cfg')
  else cloudLevel cfg'
       = if is_true (get options "debug")
         then match cloudLevel cfg with Some _ => Some 10 | None => None end
         else cloudLevel cfg.
Proof.
  rewrite configure_steps.
  destruct (resource_step options cfg) as [c1|e] eqn:R; [|discriminate].
  destruct (apply_resource_keeps _ _ _ _ _ R) as (_ & _ & K & _).
  cbv zeta.
  pose proof (apply_fields_effect (get options "username")
                (get2 options "apiKey" "api_key") (get2 options "baseUrl" "base_url")
                (get2 options "portalPrefix" "portal_prefix") (get options "enabled") c1)
    as F. cbv zeta in F.
  set (c2 := apply_fields _ _ _ _ _ c1) in *.
  destruct F as (_ & _ & _ & _ & _ & _ & _ & F).
  rewrite apply_cloud_level_effect.
  destruct (has_cloud_level options).
  - destruct (coerceCloudLevel _) as [l|e]; [|discriminate].
    intros [= <-].
    pose proof (apply_tail_effect (get2 options "timeoutSeconds" "timeout_seconds")
                  (get2 options "verifySsl" "verify_ssl") (get options "debug")
                  (set_cloudLevel l c2)) as T. cbv zeta in T.
    destruct T as (_ & _ & _ & _ & _ & _ & T). rewrite T.
    destruct c2; reflexivity.
  - intros [= <-].
    match goal with |- context [apply_tail ?t ?v ?d ?c] =>
      pose proof (apply_tail_effect t v d c) as T end.
    cbv zeta in T. destruct T as (_ & _ & _ & _ & _ & _ & T). rewrite T.
    destruct (is_true (get options "debug")); [|congruence].
    rewrite <- K, <- F. destruct c2; reflexivity.
Qed.

(** C5.  A call that sets [debug: true] and supplies neither cloudLevel
    nor cloud_level moves a cloud level that is not disabled to DEBUG (10)
    and leaves a disabled one disabled; a call that supplies a cloud
    level stores that level, whatever its debug flag.  This is what every
    call that returns leaves, and a call returns unless its resource
    reference makes the parser raise or its cloud level is rejected. *)
Theorem configure_debug_cloud_level :
  (forall options cfg cfg',
     get options "debug" = VBool true ->
     has options "cloudLevel" = false -> has options "cloud_level" = false ->
     configure options cfg = (cfg', None) ->
     (cloudLevel cfg <> None -> cloudLevel cfg' = Some 10)
     /\ (cloudLevel cfg = None -> cloudLevel cfg' = None))
  /\ (forall options cfg cfg' l,
        has options "cloudLevel" || has options "cloud_level" = true ->
        coerceCloudLevel (get2 options "cloudLevel" "cloud_level") = Ok l ->
        configure options cfg = (cfg', None) ->
        cloudLevel cfg' = l)
  /\ (forall options cfg,
        (supplied1 options "resource" = false
         \/ exists x, parseResourceReference (get options "resource") = Ok x) ->
        (has options "cloudLevel" || has options "cloud_level" = false
         \/ exists l, coerceCloudLevel (get2 options "cloudLevel" "cloud_level") = Ok l) ->
        exists cfg', configure options cfg = (cfg', None)).
Proof.
  split; [|split].
  - intros options cfg cfg' D H1 H2 C.
    pose proof (configure_cloud_level options cfg cfg' C) as L.
    unfold has_cloud_level in L. rewrite H1, H2, D in L. cbn in L.
    rewrite L. destruct (cloudLevel cfg); split; congruence.
  - intros options cfg cfg' l H E C.
    pose proof (configure_cloud_level options cfg cfg' C) as L.
    unfold has_cloud_level in L. rewrite H, E in L. congruence.
  - intros options cfg. apply configure_returns.
Qed.

(** C10.  [configure] is not atomic.  Called with a cloud level that
    [coerceCloudLevel] rejects, next to other fields, it throws
    InvalidLevel and leaves a store in which the fields written before the
    cloud level are applied (the owner, resource id, base URL and portal
    prefix of the resource reference, and the supplied username, apiKey,
    baseUrl, portalPrefix and enabled) and the fields written after it
    (timeoutSeconds, verifySsl, debug) and the cloud level are as before. *)
Theorem configure_not_atomic (options : gmap string Val) (cfg : Config) :
  has options "cloudLevel" || has options "cloud_level" = true ->
  (forall l, coerceCloudLevel (get2 options "cloudLevel" "cloud_level") <> Ok l) ->
  (supplied1 options "resource" = false
   \/ exists x, parseResourceReference (get options "resource") = Ok x) ->
  exists cfg',
    configure options cfg = (cfg', Some InvalidLevel)
    /\ (supplied1 options "username" = true -> username cfg' = get options "username")
    /\ (supplied options "apiKey" "api_key" = true ->
          apiKey cfg' = get2 options "apiKey" "api_key")
    /\ (supplied options "baseUrl" "base_url" = true ->
          baseUrl cfg'
          = strip_one_trailing_slash (ToString (get2 options "baseUrl" "base_url")))
    /\ (supplied options "portalPrefix" "portal_prefix" = true ->
          portalPrefix cfg'
          = normalizePortalPrefix (get2 options "portalPrefix" "portal_prefix"))
    /\ (supplied1 options "enabled" = true ->
          enabled cfg' = truthy (get options "enabled"))
    /\ (forall ref,
          supplied1 options "resource" = true ->
          parseResourceReference (get options "resource") = Ok (Some ref) ->
          resourceOwnerUsername cfg' = Some (ref_resourceOwnerUsername ref)
          /\ resourceId cfg' = Some (ref_resourceId ref)
          /\ (supplied options "baseUrl" "base_url" = false ->
                baseUrl cfg' = ref_baseUrl ref)
          /\ (supplied options "portalPrefix" "portal_prefix" = false ->
                portalPrefix cfg' = Some (ref_portalPrefix ref)))
    /\ (supplied1 options "resource" = true ->
          parseResourceReference (get options "resource") = Ok None ->
          resourceOwnerUsername cfg' = None /\ resourceId cfg' = None)
    /\ timeoutSeconds cfg' = timeoutSeconds cfg
    /\ verifySsl cfg' = verifySsl cfg
    /\ debug cfg' = debug cfg
    /\ cloudLevel cfg' = cloudLevel cfg.
Proof.
  intros Hc Hbad Hr.
  destruct (resource_step_total options cfg Hr) as [c1 R].
  destruct (coerceCloudLevel (get2 options "cloudLevel" "cloud_level")) as [l|e] eqn:E;
    [exfalso; exact (Hbad l eq_refl)|].
  apply coerceCloudLevel_throws_InvalidLevel in E as E'. subst e.
  assert (C : configure options cfg
              = (apply_fields (get options "username")
                   (get2 options "apiKey" "api_key") (get2 options "baseUrl" "base_url")
                   (get2 options "portalPrefix" "portal_prefix")
                   (get options "enabled") c1, Some InvalidLevel)).
  { rewrite configure_steps, R. cbv zeta. rewrite apply_cloud_level_effect.
    unfold has_cloud_level. rewrite Hc, E. reflexivity. }
  eexists. split; [exact C|].
  pose proof (configure_resource_fields options cfg) as M. cbv zeta in M.
  rewrite C in M. cbn [fst] in M. destruct M as (M1 & M2).
  destruct (apply_resource_keeps _ _ _ _ _ R) as (_ & (K1 & K2 & K3) & K4 & _).
  match goal with |- context [apply_fields ?u ?k ?bu ?pp ?en c1] =>
    pose proof (apply_fields_effect u k bu pp en c1) as F end.
  cbv zeta in F. destruct F as (F1 & F2 & F3 & F4 & F5 & _ & (F6 & F7 & F8) & F9).
  unfold supplied, supplied1 in *.
  repeat split.
  - intros H. apply negb_true_iff in H. rewrite F1, H. reflexivity.
  - intros H. apply negb_true_iff in H. rewrite F2, H. reflexivity.
  - intros H. apply negb_true_iff in H. rewrite F3, H. reflexivity.
  - intros H. apply negb_true_iff in H. rewrite F4, H. reflexivity.
  - intros H. apply negb_true_iff in H. rewrite F5, H. reflexivity.
  - apply (M1 ref); assumption.
  - apply (M1 ref); assumption.
  - intros B. destruct (M1 ref) as (_ & _ & X & _); try assumption.
    rewrite B in X. exact X.
  - intros B. destruct (M1 ref) as (_ & _ & _ & X); try assumption.
    rewrite B in X. exact X.
  - apply M2; assumption.
  - apply M2; assumption.
  - congruence.
  - congruence.
  - congruence.
  - congruence.
Qed.

End Configure.

(** A call with [debug: true] moves the cloud level it does not supply. *)
Lemma debug_moves_unsupplied_cloud_level :
  has_cloud_level {[ "debug" := VBool true ]} = false
  /\ cloudLevel Samples.reset_config = Some 20
  /\ configure {[ "debug" := VBool true ]} Samples.reset_config
     = (set_debug true (set_cloudLevel (Some 10) Samples.reset_config), None)
  /\ ~ cloud_level_frame_as_stated {[ "debug" := VBool true ]} Samples.reset_config.
Proof.
  split; [vm_compute; reflexivity|]. split; [reflexivity|].
  split; [vm_compute; reflexivity|].
  intros H. assert (E : has_cloud_level {[ "debug" := VBool true ]} = false)
    by (vm_compute; reflexivity).
  specialize (H E). vm_compute in H. discriminate H.
Qed.

(** The rule at work: debug alone, debug on a disabled level, and debug
    next to an explicit level in either spelling. *)
Example configure_debug_samples :
  cloudLevel (configure {[ "debug" := VBool true ]} Samples.reset_config).1 = Some 10
  /\ cloudLevel (configure {[ "debug" := VBool true ]}
                   (set_cloudLevel None Samples.reset_config)).1 = None
  /\ cloudLevel (configure {[ "debug" := VBool true; "cloudLevel" := VStr "ERROR" ]}
                   Samples.reset_config).1 = Some 40
  /\ cloudLevel (configure {[ "debug" := VBool true; "cloud_level" := VStr "none" ]}
                   Samples.reset_config).1 = None
  /\ cloudLevel (configure {[ "debug" := VStr "true" ]} Samples.reset_config).1
     = Some 20.
Proof. repeat split; vm_compute; reflexivity. Qed.

Lemma configure_not_atomic_witness :
  let options : gmap string Val :=
    {[ "username" := VStr "u"; "timeoutSeconds" := VNum (Finite 9 "9");
       "cloudLevel" := VStr "bogus" ]} in
  (has options "cloudLevel" || has options "cloud_level" = true)
  /\ exists cfg',
       configure options Samples.reset_config = (cfg', Some InvalidLevel)
       /\ username cfg' = VStr "u"
       /\ timeoutSeconds cfg' = Finite 5 "5".
Proof.
  cbv zeta.
  assert (Hc : has {[ "username" := VStr "u"; "timeoutSeconds" := VNum (Finite 9 "9");
                      "cloudLevel" := VStr "bogus" ]} "cloudLevel"
               || has {[ "username" := VStr "u";
                         "timeoutSeconds" := VNum (Finite 9 "9");
                         "cloudLevel" := VStr "bogus" ]} "cloud_level" = true)
    by (vm_compute; reflexivity).
  split; [exact Hc|].
  destruct (configure_not_atomic _ Samples.reset_config Hc)
    as (cfg' & C & U & _ & _ & _ & _ & _ & _ & T & _).
  - intros l. vm_compute. discriminate.
  - left. vm_compute. reflexivity.
  - exists cfg'. split; [exact C|]. split; [|exact T].
    apply U. vm_compute. reflexivity.
Defined.

(** ** The plain-URL parser *)

Section Characters.

(** What a plain character is not. *)
Lemma plain_char (a : ascii) :
  is_plain a = true ->
  is_white_space a = false /\ is_c0_or_space a = false
  /\ is_tab_or_newline a = false /\ is_path_sep a = false /\ ends_path a = false
  /\ ends_authority a = false /\ is_slash a = false /\ is_percent a = false
  /\ path_keep a = true /\ starts_white_space a = false /\ is_ascii a = true.
Proof.
  destruct a as [b0 b1 b2 b3 b4 b5 b6 b7].
  destruct b0, b1, b2, b3, b4, b5, b6, b7; vm_compute;
    intros H; try discriminate H; repeat split.
Qed.

Lemma host_char (a : ascii) :
  is_host_char a = true -> is_plain a = true /\ lower_char a = a.
Proof.
  destruct a as [b0 b1 b2 b3 b4 b5 b6 b7].
  destruct b0, b1, b2, b3, b4, b5, b6, b7; vm_compute;
    intros H; try discriminate H; repeat split.
Qed.

End Characters.

Section PlainStrings.

Lemma plain_none (q : ascii -> bool) (s : string) :
  (forall a, is_plain a = true -> q a = false) ->
  forall_string is_plain s = true ->
  forall_string (fun a => negb (q a)) s = true.
Proof.
  intros H. apply forall_string_impl. intros a Ha. rewrite (H a Ha). reflexivity.
Qed.

Lemma map_string_fixed (f : ascii -> ascii) (s : string) :
  forall_string (fun a => Ascii.eqb (f a) a) s = true -> map_string f s = s.
Proof.
  induction s as [|a r IH]; [reflexivity|]. cbn. intros H.
  apply andb_true_iff in H as [Ha Hr]. apply Ascii.eqb_eq in Ha.
  rewrite Ha, (IH Hr). reflexivity.
Qed.

Lemma host_is_plain (h : string) :
  forall_string is_host_char h = true -> forall_string is_plain h = true.
Proof. apply forall_string_impl. intros a Ha. apply (host_char a Ha). Qed.

Lemma host_is_lower (h : string) :
  forall_string is_host_char h = true -> ascii_lower h = h.
Proof.
  intros H. apply map_string_fixed. revert H. apply forall_string_impl.
  intros a Ha. apply Ascii.eqb_eq. apply (host_char a Ha).
Qed.

Lemma unescape_plain (s : string) :
  forall_string (fun a => negb (is_percent a)) s = true ->
  unescape s = Some (map (pair false) (list_ascii_of_string s)).
Proof.
  induction s as [|a r IH]; [reflexivity|]. cbn [forall_string]. intros H.
  apply andb_true_iff in H as [Ha Hr]. apply negb_true_iff in Ha.
  cbn [unescape]. rewrite Ha, (IH Hr). reflexivity.
Qed.

Lemma utf8_escapes_ok_plain (l : list ascii) :
  utf8_escapes_ok [] (map (pair false) l) = true.
Proof. induction l as [|a r IH]; [reflexivity | exact IH]. Qed.

Lemma string_of_chars_plain (s : string) :
  string_of_chars (map snd (map (pair false) (list_ascii_of_string s))) = s.
Proof. induction s as [|a r IH]; [reflexivity|]. cbn. rewrite IH. reflexivity. Qed.

(** A string without [%] decodes to itself. *)
Lemma decodeURIComponent_plain (s : string) :
  forall_string (fun a => negb (is_percent a)) s = true ->
  decodeURIComponent s = Ok s.
Proof.
  intros H. unfold decodeURIComponent.
  rewrite (unescape_plain s H), utf8_escapes_ok_plain, string_of_chars_plain.
  reflexivity.
Qed.

End PlainStrings.

Section Paths.

Lemma forall_serialize_path (q : ascii -> bool) (segs : list string) :
  q "/"%char = true ->
  Forall (fun s => forall_string q s = true) segs ->
  forall_string q (serialize_path segs) = true.
Proof.
  intros Hq H. induction H as [|s r Hs Hr IH]; [reflexivity|].
  change (serialize_path (s :: r)) with (String "/" (s +:+ serialize_path r)).
  cbn [forall_string]. rewrite Hq, forall_string_app, Hs, IH. reflexivity.
Qed.

(** Splitting a serialized path gives its segments back. *)
Lemma split_serialized (sep : ascii -> bool) (segs : list string) :
  sep "/"%char = true ->
  Forall (fun s => forall_string (fun a => negb (sep a)) s = true) segs ->
  forall s, forall_string (fun a => negb (sep a)) s = true ->
            split sep (s +:+ serialize_path segs) = s :: segs.
Proof.
  intros Hsep H. induction H as [|s' r Hs' Hr IH]; intros s Hs.
  - change (serialize_path []) with EmptyString.
    rewrite append_empty_r. apply split_none. exact Hs.
  - change (serialize_path (s' :: r)) with (String "/" (s' +:+ serialize_path r)).
    rewrite (split_app sep s "/" _ Hs Hsep), (IH s' Hs'). reflexivity.
Qed.

Lemma split_serialized_path (sep : ascii -> bool) (segs : list string) :
  sep "/"%char = true ->
  Forall (fun s => forall_string (fun a => negb (sep a)) s = true) segs ->
  segs <> [] ->
  split sep (serialize_path segs) = EmptyString :: segs.
Proof.
  intros Hsep H N. destruct segs as [|s r]; [contradiction|].
  apply Forall_cons in H as [Hs Hr].
  change (serialize_path (s :: r)) with (String "/" (s +:+ serialize_path r)).
  cbn [split]. rewrite Hsep. f_equal. apply split_serialized; assumption.
Qed.

Lemma path_state_passes (segs : list string) :
  Forall passes segs -> segs <> [] ->
  forall path, path_state path segs = path ++ segs.
Proof.
  induction segs as [|s r IH]; intros H N path; [contradiction|].
  apply Forall_cons in H as [(D & S & E) Hr].
  destruct r as [|s' r'].
  - simpl. rewrite D, S, E. reflexivity.
  - change (path_state path (s :: s' :: r'))
      with (if is_double_dot s then path_state (removelast path) (s' :: r')
            else if is_single_dot s then path_state path (s' :: r')
            else path_state (path ++ [percent_encode path_keep s]) (s' :: r')).
    rewrite D, S, E, (IH Hr); [|discriminate].
    rewrite <- app_assoc. reflexivity.
Qed.

Lemma lower_plain_char (a : ascii) :
  is_plain a = true ->
  is_percent (lower_char a) = false /\ (is_dot (lower_char a) = true -> lower_char a = a).
Proof.
  destruct a as [b0 b1 b2 b3 b4 b5 b6 b7].
  destruct b0, b1, b2, b3, b4, b5, b6, b7; vm_compute;
    intros H; try discriminate H; split; try reflexivity; intros H'; discriminate H'.
Qed.

Lemma lower_plain_no_percent (s : string) :
  forall_string is_plain s = true ->
  forall_string (fun a => negb (is_percent a)) (ascii_lower s) = true.
Proof.
  unfold ascii_lower.
  induction s as [|a r IH]; [reflexivity|]. cbn [forall_string map_string]. intros H.
  apply andb_true_iff in H as [Ha Hr].
  rewrite (proj1 (lower_plain_char a Ha)), (IH Hr). reflexivity.
Qed.

Lemma lower_plain_dots (s : string) :
  forall_string is_plain s = true ->
  forall_string is_dot (ascii_lower s) = true -> ascii_lower s = s.
Proof.
  unfold ascii_lower.
  induction s as [|a r IH]; [reflexivity|]. cbn [forall_string map_string].
  intros H D.
  apply andb_true_iff in H as [Ha Hr]. apply andb_true_iff in D as [Da Dr].
  rewrite (proj2 (lower_plain_char a Ha) Da), (IH Hr Dr). reflexivity.
Qed.

Lemma plain_segment_passes (s : string) :
  forall_string is_plain s = true -> s <> "." -> s <> ".." -> passes s.
Proof.
  intros H N1 N2. unfold passes.
  pose proof (lower_plain_no_percent s H) as P.
  pose proof (lower_plain_dots s H) as D.
  assert (X : forall t, ascii_lower s = t ->
                (forall_string (fun a => negb (is_percent a)) t = false
                 \/ (forall_string is_dot t = true /\ s <> t)) -> False).
  { intros t E [F|[F N]]; rewrite E in *; [congruence|]. apply N. symmetry. exact (D F). }
  split; [|split].
  - unfold is_double_dot. cbn [existsb].
    repeat match goal with
    | |- context [String.eqb (ascii_lower s) ?t] =>
        destruct (String.eqb_spec (ascii_lower s) t) as [E|_];
        [exfalso; apply (X _ E); first [left; reflexivity | right; split; [reflexivity | assumption]] |]
    end. reflexivity.
  - unfold is_single_dot. cbn [existsb].
    repeat match goal with
    | |- context [String.eqb (ascii_lower s) ?t] =>
        destruct (String.eqb_spec (ascii_lower s) t) as [E|_];
        [exfalso; apply (X _ E); first [left; reflexivity | right; split; [reflexivity | assumption]] |]
    end. reflexivity.
  - apply percent_encode_kept. revert H. apply forall_string_impl.
    intros a Ha. apply (plain_char a Ha).
Qed.

Lemma literal_passes :
  passes "u" /\ passes "resources" /\ passes "logs" /\ passes EmptyString.
Proof. unfold passes. repeat split; vm_compute; reflexivity. Qed.

(** A path of segments the path state passes through is its own
    normal form. *)
Lemma parse_path_serialized (segs : list string) :
  Forall passes segs ->
  Forall (fun s => forall_string (fun a => negb (is_path_sep a)) s = true) segs ->
  Forall (fun s => forall_string (fun a => negb (ends_path a)) s = true) segs ->
  segs <> [] ->
  parse_path (serialize_path segs) = serialize_path segs.
Proof.
  intros Hp Hs He N. unfold parse_path.
  rewrite take_until_none by (apply forall_serialize_path; [reflexivity | exact He]).
  destruct segs as [|s r]; [contradiction|].
  apply Forall_cons in Hs as [Hs Hr].
  change (serialize_path (s :: r)) with (String "/" (s +:+ serialize_path r)) at 1.
  cbv beta iota. change (is_path_sep "/") with true. cbv iota.
  rewrite (split_serialized is_path_sep r eq_refl Hr s Hs).
  rewrite (path_state_passes (s :: r) Hp N). reflexivity.
Qed.

End Paths.

Section PlainURLs.

Lemma host_ok_chars (h : string) :
  host_ok h = true -> forall_string is_host_char h = true /\ h <> EmptyString.
Proof.
  intros H. split.
  - unfold host_ok in H. apply andb_true_iff in H as [H _].
    apply andb_true_iff in H as [H _]. exact H.
  - intros ->. discriminate H.
Qed.

Lemma plain_path_none (q : ascii -> bool) (segs : list string) :
  (forall a, is_plain a = true -> q a = false) ->
  plain_path segs ->
  Forall (fun s => forall_string (fun a => negb (q a)) s = true) segs.
Proof.
  intros Hq [_ H]. eapply Forall_impl; [exact H|].
  intros s [Hs _]. exact (plain_none q s Hq Hs).
Qed.

Lemma plain_path_passes (segs : list string) :
  plain_path segs -> Forall passes segs.
Proof.
  intros [_ H]. eapply Forall_impl; [exact H|].
  intros s (Hs & N1 & N2). exact (plain_segment_passes s Hs N1 N2).
Qed.

(** No character of a URL of the model is one of [q], when no plain
    character and none of [https://] is. *)
Lemma url_none (q : ascii -> bool) (h : string) (segs : list string) :
  (forall a, is_plain a = true -> q a = false) ->
  forall_string (fun a => negb (q a)) "https://" = true ->
  host_ok h = true -> plain_path segs ->
  forall_string (fun a => negb (q a)) ("https://" +:+ h +:+ serialize_path segs) = true.
Proof.
  intros Hq Hl Hh Hs. rewrite !forall_string_app, Hl.
  destruct (host_ok_chars h Hh) as [Hc _].
  rewrite (plain_none q h Hq (host_is_plain h Hc)).
  rewrite forall_serialize_path; [reflexivity| |exact (plain_path_none q segs Hq Hs)].
  cbn [forall_string] in Hl. repeat (apply andb_true_iff in Hl as [? Hl]). assumption.
Qed.

(** [new URL] on an https URL with a plain host and a plain path. *)
Lemma URL_parse_plain (h : string) (segs : list string) :
  host_ok h = true -> plain_path segs ->
  URL_parse ("https://" +:+ h +:+ serialize_path segs)
  = Some {| protocol := "https:"; host := h; hostname := h;
            pathname := serialize_path segs |}.
Proof.
  intros Hh Hs. unfold URL_parse.
  destruct (host_ok_chars h Hh) as [Hc Hne].
  rewrite drop_start_none
    by (apply url_none; [intros a Ha; apply (plain_char a Ha) | reflexivity | | ]; assumption).
  rewrite drop_end_none
    by (apply url_none; [intros a Ha; apply (plain_char a Ha) | reflexivity | | ]; assumption).
  rewrite remove_chars_none
    by (apply url_none; [intros a Ha; apply (plain_char a Ha) | reflexivity | | ]; assumption).
  change (parse_scheme ("https://" +:+ h +:+ serialize_path segs))
    with (Some ("https:", String "/" (String "/" (h +:+ serialize_path segs)))).
  cbv beta iota.
  change (drop_start is_path_sep (String "/" (String "/" (h +:+ serialize_path segs))))
    with (drop_start is_path_sep (h +:+ serialize_path segs)).
  destruct Hs as [Hn Hf]. destruct segs as [|s r]; [contradiction|].
  change (serialize_path (s :: r)) with (String "/" (s +:+ serialize_path r)).
  assert (Hsep : forall_string (fun a => negb (is_path_sep a)) h = true)
    by (apply plain_none; [intros a Ha; apply (plain_char a Ha) | apply host_is_plain, Hc]).
  assert (Hauth : forall_string (fun a => negb (ends_authority a)) h = true)
    by (apply plain_none; [intros a Ha; apply (plain_char a Ha) | apply host_is_plain, Hc]).
  rewrite drop_start_fixed.
  2:{ destruct h as [|a t]; [contradiction|].
      cbn [forall_string] in Hsep. apply andb_true_iff in Hsep as [Ha _]. exact Ha. }
  rewrite (take_until_app ends_authority h "/" _ Hauth eq_refl).
  rewrite (drop_until_app ends_authority h "/" _ Hauth eq_refl).
  unfold parse_host. rewrite (host_is_lower h Hc), Hh.
  change (String "/" (s +:+ serialize_path r)) with (serialize_path (s :: r)).
  rewrite parse_path_serialized; [reflexivity| | | |discriminate].
  - apply plain_path_passes. split; assumption.
  - apply (plain_path_none is_path_sep); [intros a Ha; apply (plain_char a Ha)|].
    split; assumption.
  - apply (plain_path_none ends_path); [intros a Ha; apply (plain_char a Ha)|].
    split; assumption.
Qed.

End PlainURLs.

(** ** Resource references *)

Section Delimited.

Lemma ascii_byte (b : ascii) :
  is_ascii b = true ->
  (forall a, is_white_space2 a b = false)
  /\ (forall a c, is_white_space3 a b c = false)
  /\ (forall a c, is_white_space3 a c b = false).
Proof.
  intros H.
  assert (K : (code b =? 160)%nat = false /\ (code b =? 154)%nat = false
              /\ (code b =? 128)%nat = false /\ (code b =? 129)%nat = false
              /\ (code b =? 187)%nat = false /\ between 128 138 b = false
              /\ (code b =? 168)%nat = false /\ (code b =? 169)%nat = false
              /\ (code b =? 175)%nat = false /\ (code b =? 159)%nat = false
              /\ (code b =? 191)%nat = false).
  { revert H. destruct b as [b0 b1 b2 b3 b4 b5 b6 b7].
    destruct b0, b1, b2, b3, b4, b5, b6, b7; vm_compute;
      intros H; try discriminate H; repeat split. }
  destruct K as (K1 & K2 & K3 & K4 & K5 & K6 & K7 & K8 & K9 & K10 & K11).
  split; [|split].
  - intros a. unfold is_white_space2. rewrite K1. apply andb_false_r.
  - intros a c. unfold is_white_space3. rewrite K2, K3, K4, K5.
    rewrite !andb_false_r. reflexivity.
  - intros a c. unfold is_white_space3. rewrite K3, K6, K7, K8, K9, K10, K11.
    cbn [orb]. rewrite !andb_false_r. reflexivity.
Qed.

Variable d : ascii.
Hypothesis d_ascii : is_ascii d = true.
Hypothesis d_not_white : is_white_space d = false.

(** A character of one byte that is no white space ends no white
    space character. *)
Lemma after_white_space_end (x : string) :
  after_white_space x = None ->
  after_white_space (x +:+ String d EmptyString) = None.
Proof.
  intros E. destruct (ascii_byte d d_ascii) as (D2 & D3 & D3').
  destruct x as [|a [|b [|c x']]].
  - change (EmptyString +:+ String d EmptyString) with (String d EmptyString).
    cbn [after_white_space]. rewrite d_not_white. reflexivity.
  - change (String a EmptyString +:+ String d EmptyString)
      with (String a (String d EmptyString)).
    cbn [after_white_space] in E |- *.
    destruct (is_white_space a); [discriminate E|]. rewrite D2. reflexivity.
  - change (String a (String b EmptyString) +:+ String d EmptyString)
      with (String a (String b (String d EmptyString))).
    cbn [after_white_space] in E |- *.
    destruct (is_white_space a); [discriminate E|].
    destruct (is_white_space2 a b); [discriminate E|].
    rewrite D3'. reflexivity.
  - change (String a (String b (String c x')) +:+ String d EmptyString)
      with (String a (String b (String c (x' +:+ String d EmptyString)))).
    cbn [after_white_space] in E |- *.
    destruct (is_white_space a); [discriminate E|].
    destruct (is_white_space2 a b); [discriminate E|].
    destruct (is_white_space3 a b c); [discriminate E | reflexivity].
Qed.

Lemma blank_end (x : string) : blank (x +:+ String d EmptyString) = false.
Proof.
  induction x as [x E | x r E IH] using white_space_ind.
  - destruct (blank (x +:+ String d EmptyString)) eqn:B; [|reflexivity].
    apply blank_starts in B as [B | [r B]].
    + destruct x; discriminate B.
    + rewrite (after_white_space_end x E) in B. discriminate B.
  - rewrite (blank_after _ _ (after_white_space_app x r _ E)). exact IH.
Qed.

Lemma trimEnd_end (x : string) :
  trimEnd (x +:+ String d EmptyString) = x +:+ String d EmptyString.
Proof.
  induction x as [|a r IH].
  - pose proof (blank_end EmptyString) as B.
    change (EmptyString +:+ String d EmptyString) with (String d EmptyString) in *.
    cbn [trimEnd]. rewrite B. reflexivity.
  - pose proof (blank_end (String a r)) as B.
    change (String a r +:+ String d EmptyString)
      with (String a (r +:+ String d EmptyString)) in *.
    cbn [trimEnd]. rewrite B, IH. reflexivity.
Qed.

(** A string between a first character that starts no white space and
    a last one of one byte that is none is its own trimmed form. *)
Lemma trim_delimited (a : ascii) (x : string) :
  starts_white_space a = false ->
  trim (String a (x +:+ String d EmptyString)) = String a (x +:+ String d EmptyString).
Proof.
  intros Ha. unfold trim. rewrite trimStart_fixed by (cbn; rewrite Ha; reflexivity).
  exact (trimEnd_end (String a x)).
Qed.

End Delimited.

Section Segments.

Lemma strip_one_none (s : string) :
  forall_string (fun a => negb (is_slash a)) s = true ->
  strip_one_trailing_slash s = s.
Proof.
  induction s as [|a r IH]; [reflexivity|]. cbn [forall_string]. intros H.
  apply andb_true_iff in H as [Ha Hr]. apply negb_true_iff in Ha.
  destruct r as [|b t]; cbn [strip_one_trailing_slash].
  - rewrite Ha. reflexivity.
  - cbn [strip_one_trailing_slash] in IH. rewrite (IH Hr). reflexivity.
Qed.

Lemma strip_one_app (x s : string) :
  s <> EmptyString ->
  forall_string (fun a => negb (is_slash a)) s = true ->
  strip_one_trailing_slash (x +:+ s) = x +:+ s.
Proof.
  intros N H. induction x as [|b x' IH].
  - exact (strip_one_none s H).
  - change (String b x' +:+ s) with (String b (x' +:+ s)).
    destruct (x' +:+ s) as [|c t] eqn:E.
    + destruct x'; [cbn in E; contradiction | discriminate E].
    + cbn [strip_one_trailing_slash]. cbn [strip_one_trailing_slash] in IH.
      rewrite IH. reflexivity.
Qed.

Lemma plain_trimmed (s : string) : forall_string is_plain s = true -> trim s = s.
Proof.
  intros H. apply trim_fixed.
  apply plain_none; [intros a Ha; apply (plain_char a Ha) | exact H].
Qed.

Lemma plain_decodes (s : string) :
  forall_string is_plain s = true -> decodeURIComponent s = Ok s.
Proof.
  intros H. apply decodeURIComponent_plain.
  apply plain_none; [intros a Ha; apply (plain_char a Ha) | exact H].
Qed.

Lemma plain_decoded (s : string) :
  forall_string is_plain s = true -> decoded s = Ok s.
Proof.
  intros H. unfold decoded. rewrite (plain_decodes s H). cbn [bind].
  rewrite (plain_trimmed s H). reflexivity.
Qed.

Lemma plain_is_segment (s : string) : plain_segment s -> segment s.
Proof.
  intros (Ne & P & _). split; [exact Ne|].
  apply plain_none; [intros a Ha; apply (plain_char a Ha) | exact P].
Qed.

Lemma serialize_path_app (a b : list string) :
  serialize_path (a ++ b) = serialize_path a +:+ serialize_path b.
Proof.
  induction a as [|s r IH]; [reflexivity|].
  change (serialize_path ((s :: r) ++ b))
    with (String "/" s +:+ serialize_path (r ++ b)).
  change (serialize_path (s :: r)) with (String "/" s +:+ serialize_path r).
  rewrite IH, append_assoc. reflexivity.
Qed.

Lemma join_serialized (l : list string) :
  l <> [] -> String "/" (join "/" l) = serialize_path l.
Proof.
  induction l as [|x [|y r] IH]; intros Ne; [contradiction| |].
  - cbn. rewrite append_empty_r. reflexivity.
  - change (join "/" (x :: y :: r)) with (x +:+ "/" +:+ join "/" (y :: r)).
    change (serialize_path (x :: y :: r))
      with (String "/" (x +:+ serialize_path (y :: r))).
    rewrite <- IH by discriminate. reflexivity.
Qed.

Lemma filter_segments (l blanks : list string) :
  Forall segment l -> Forall (fun s => s = EmptyString) blanks ->
  filter_nonempty (l ++ blanks) = l.
Proof.
  unfold filter_nonempty. intros H B. induction H as [|s r [Ne _] _ IH].
  - induction B as [|s r -> _ IH]; [reflexivity | exact IH].
  - cbn [List.filter app]. apply is_empty_false in Ne. rewrite Ne. cbn [negb].
    rewrite IH. reflexivity.
Qed.

(** The segments of a path that ends in a slash. *)
Lemma path_segments_split (l : list string) :
  Forall segment l -> l <> [] ->
  filter_nonempty (split is_slash (serialize_path (l ++ [EmptyString]))) = l.
Proof.
  intros H Ne. rewrite split_serialized_path; [|reflexivity| |].
  - unfold filter_nonempty. cbn [List.filter is_empty negb].
    apply (filter_segments l [EmptyString] H).
    apply Forall_cons. split; [reflexivity | apply Forall_nil_2].
  - apply Forall_app. split; [|apply Forall_cons; split; [reflexivity | apply Forall_nil_2]].
    eapply Forall_impl; [exact H|]. intros s [_ Hs]. exact Hs.
  - destruct l; [contradiction | discriminate].
Qed.

(** The URL of a path that ends in a slash has no white space around
    it. *)
Lemma https_url_trimmed (host : string) (l : list string) :
  trim (https_url host (l ++ [EmptyString])) = https_url host (l ++ [EmptyString])
  /\ is_empty (https_url host (l ++ [EmptyString])) = false.
Proof.
  split; [|reflexivity]. unfold https_url.
  rewrite serialize_path_app.
  change (serialize_path [EmptyString]) with (String "/" EmptyString).
  rewrite <- !append_assoc.
  exact (trim_delimited "/" eq_refl eq_refl "h"
           (("ttps://" +:+ host) +:+ serialize_path l) eq_refl).
Qed.

(** The scan finds the first place where the pattern starts. *)
Lemma scan_segments_first (segments : list string) (count : nat) :
  forall index,
  match scan_segments segments index count with
  | Some i =>
      (index <= i < index + count)%nat
      /\ segments !! i = Some "u" /\ segments !! (i + 2)%nat = Some "resources"
      /\ forall j, (index <= j < i)%nat ->
           ~ (segments !! j = Some "u" /\ segments !! (j + 2)%nat = Some "resources")
  | None =>
      forall j, (index <= j < index + count)%nat ->
        ~ (segments !! j = Some "u" /\ segments !! (j + 2)%nat = Some "resources")
  end.
Proof.
  induction count as [|count IH]; intros index; cbn [scan_segments].
  - intros j Hj. lia.
  - assert (Miss :
      ~ (segments !! index = Some "u" /\ segments !! (index + 2)%nat = Some "resources") ->
      match scan_segments segments (S index) count with
      | Some i =>
          (index <= i < index + S count)%nat
          /\ segments !! i = Some "u" /\ segments !! (i + 2)%nat = Some "resources"
          /\ forall j, (index <= j < i)%nat ->
               ~ (segments !! j = Some "u" /\ segments !! (j + 2)%nat = Some "resources")
      | None =>
          forall j, (index <= j < index + S count)%nat ->
            ~ (segments !! j = Some "u" /\ segments !! (j + 2)%nat = Some "resources")
      end).
    { intros M. specialize (IH (S index)).
      destruct (scan_segments segments (S index) count) as [i|].
      - destruct IH as (B & U' & R' & F).
        split; [lia|]. split; [exact U'|]. split; [exact R'|].
        intros j Hj. destruct (decide (j = index)) as [->|Nj]; [exact M|].
        apply F. lia.
      - intros j Hj. destruct (decide (j = index)) as [->|Nj]; [exact M|].
        apply IH. lia. }
    destruct (bool_decide_reflect (segments !! index = Some "u")) as [U|U];
      [destruct (bool_decide_reflect (segments !! (index + 2)%nat = Some "resources"))
         as [R|R] |]; cbn [andb].
    + split; [lia|]. split; [exact U|]. split; [exact R|]. intros j Hj. lia.
    + apply Miss. tauto.
    + apply Miss. tauto.
Qed.

Lemma find_resource_index_first (segments : list string) :
  match find_resource_index segments with
  | Some i => pattern_at segments i /\ forall j, (j < i)%nat -> ~ pattern_at segments j
  | None => forall j, ~ pattern_at segments j
  end.
Proof.
  unfold find_resource_index, pattern_at.
  pose proof (scan_segments_first segments (length segments - 3) 0) as H.
  destruct (scan_segments segments 0 (length segments - 3)) as [i|].
  - destruct H as (B & U & R & F). repeat split; try assumption; try lia.
    intros j Hj (U' & R' & _). apply (F j); [lia | tauto].
  - intros j (U & R & L). apply (H j); [lia | tauto].
Qed.

Lemma find_resource_index_unique (segments : list string) (i : nat) :
  pattern_at segments i -> (forall j, (j < i)%nat -> ~ pattern_at segments j) ->
  find_resource_index segments = Some i.
Proof.
  intros P F. pose proof (find_resource_index_first segments) as H.
  destruct (find_resource_index segments) as [k|]; [|exfalso; exact (H i P)].
  destruct H as [Pk Fk]. f_equal.
  destruct (Nat.lt_trichotomy k i) as [L|[E|L]]; [|exact E|].
  - exfalso. exact (F k L Pk).
  - exfalso. exact (Fk i L P).
Qed.

End Segments.

Section Reference.

Context {parser : Node}.

Variables (host : string) (pre : list string) (owner id o i : string).
Hypothesis pre_segments : Forall segment pre.
Hypothesis owner_segment : segment owner.
Hypothesis id_segment : segment id.
Hypothesis no_earlier_pattern :
  forall j, (j < length pre)%nat ->
            ~ pattern_at (pre ++ ["u"; owner; "resources"; id]) j.
Hypothesis owner_decoded : decoded owner = Ok o.
Hypothesis id_decoded : decoded id = Ok i.
Hypothesis owner_not_blank : o <> EmptyString.
Hypothesis id_not_blank : i <> EmptyString.

Let segments : list string := pre ++ ["u"; owner; "resources"; id].

Lemma lookup_after (k : nat) (tail : list string) :
  (pre ++ tail) !! (length pre + k)%nat = tail !! k.
Proof.
  rewrite lookup_app_r by lia. f_equal. lia.
Qed.

Lemma literal_segments : segment "u" /\ segment "resources" /\ segment "logs".
Proof. repeat split; discriminate. Qed.

Lemma segments_are_segments (tail : list string) :
  Forall segment tail ->
  Forall segment (pre ++ ["u"; owner; "resources"; id] ++ tail).
Proof.
  intros Ht. destruct literal_segments as (U & R & _).
  apply Forall_app. split; [exact pre_segments|].
  repeat (apply Forall_cons; split; [assumption|]). exact Ht.
Qed.

Lemma segments_index : find_resource_index segments = Some (length pre).
Proof.
  apply find_resource_index_unique.
  - unfold pattern_at, segments.
    rewrite <- (Nat.add_0_r (length pre)) at 1. rewrite !lookup_after.
    split; [reflexivity|]. split; [reflexivity|].
    rewrite length_app. cbn [length]. lia.
  - exact no_earlier_pattern.
Qed.

Lemma serialize_path_not_slash (l : list string) :
  Forall segment l -> serialize_path l <> "/".
Proof.
  intros H. destruct H as [|s r [Ne _] _]; [discriminate|].
  change (serialize_path (s :: r)) with (String "/" (s +:+ serialize_path r)).
  destruct s; [contradiction | discriminate].
Qed.

(** What [parseResourceReference] makes of a URL whose path has the
    segments of the prefix, u, owner, resources, id. *)
Lemma reference_from_segments (raw : string) (parsed : URL) :
  trim raw = raw -> is_empty raw = false ->
  new_URL raw = Some parsed ->
  protocol parsed = "https:" -> Js.host parsed = host ->
  path_segments (pathname parsed) = segments ->
  parseResourceReference (VStr raw)
  = Ok (Some {| ref_baseUrl := strip_one_trailing_slash ("https://" +:+ host);
                ref_portalPrefix := serialize_path pre;
                ref_resourceOwnerUsername := o;
                ref_resourceId := i |}).
Proof.
  intros T E U P H S. cbn [parseResourceReference ToString].
  rewrite T, E, U, S, segments_index, P, H.
  assert (Do : decode_segment segments (length pre + 1) = Ok o).
  { unfold decode_segment, segments. rewrite lookup_after. exact owner_decoded. }
  assert (Di : decode_segment segments (length pre + 3) = Ok i).
  { unfold decode_segment, segments. rewrite lookup_after. exact id_decoded. }
  rewrite Do, Di. cbn [bind].
  apply is_empty_false in owner_not_blank as ->.
  apply is_empty_false in id_not_blank as ->. cbn [orb].
  unfold segments. rewrite take_app_length.
  do 2 f_equal. f_equal.
  destruct pre as [|s r] eqn:Ep; [reflexivity|].
  rewrite join_serialized by discriminate.
  rewrite decide_False; [reflexivity|].
  apply serialize_path_not_slash. exact pre_segments.
Qed.

Lemma resource_url_read :
  toLowerCase id <> "logs" ->
  read_as_written host (pre ++ ["u"; owner; "resources"; id; EmptyString]) ->
  parseResourceReference
    (VStr (https_url host (pre ++ ["u"; owner; "resources"; id; EmptyString])))
  = Ok (Some {| ref_baseUrl := strip_one_trailing_slash ("https://" +:+ host);
                ref_portalPrefix := serialize_path pre;
                ref_resourceOwnerUsername := o;
                ref_resourceId := i |}).
Proof.
  intros L (parsed & U & P & H & Pa).
  change (pre ++ ["u"; owner; "resources"; id; EmptyString])
    with (pre ++ ["u"; owner; "resources"; id] ++ [EmptyString]) in *.
  rewrite app_assoc in *.
  destruct (https_url_trimmed host (pre ++ ["u"; owner; "resources"; id])) as [T E].
  apply (reference_from_segments _ parsed T E U P H).
  unfold path_segments. rewrite Pa, path_segments_split.
  - fold segments. unfold segments at 1. rewrite last_app. cbn [last].
    rewrite decide_False by exact L. reflexivity.
  - pose proof (segments_are_segments [] (Forall_nil_2 _)) as F.
    rewrite app_nil_r in F. exact F.
  - destruct pre; discriminate.
Qed.

Lemma resource_logs_url_read :
  read_as_written host (pre ++ ["u"; owner; "resources"; id; "logs"; EmptyString]) ->
  parseResourceReference
    (VStr (https_url host (pre ++ ["u"; owner; "resources"; id; "logs"; EmptyString])))
  = Ok (Some {| ref_baseUrl := strip_one_trailing_slash ("https://" +:+ host);
                ref_portalPrefix := serialize_path pre;
                ref_resourceOwnerUsername := o;
                ref_resourceId := i |}).
Proof.
  intros (parsed & U & P & H & Pa).
  change (pre ++ ["u"; owner; "resources"; id; "logs"; EmptyString])
    with (pre ++ (["u"; owner; "resources"; id] ++ ["logs"]) ++ [EmptyString]) in *.
  rewrite (app_assoc pre) in *.
  destruct (https_url_trimmed host (pre ++ ["u"; owner; "resources"; id] ++ ["logs"]))
    as [T E].
  apply (reference_from_segments _ parsed T E U P H).
  unfold path_segments. rewrite Pa, path_segments_split.
  - rewrite (app_assoc pre). fold segments. rewrite last_app. cbn [last].
    rewrite decide_True by reflexivity. apply removelast_last.
  - apply segments_are_segments.
    apply Forall_cons. split; [apply literal_segments | apply Forall_nil_2].
  - destruct pre; discriminate.
Qed.

End Reference.

Section ResourceReferences.

Context {parser : Node}.

Lemma parse_no_match (v : Val) :
  (trim (ToString v) = EmptyString -> parseResourceReference v = Ok None)
  /\ (new_URL (trim (ToString v)) = None -> parseResourceReference v = Ok None)
  /\ (forall parsed,
        new_URL (trim (ToString v)) = Some parsed ->
        (forall j, ~ pattern_at (path_segments (pathname parsed)) j) ->
        parseResourceReference v = Ok None)
  /\ (forall parsed i o r,
        new_URL (trim (ToString v)) = Some parsed ->
        pattern_at (path_segments (pathname parsed)) i ->
        (forall j, (j < i)%nat -> ~ pattern_at (path_segments (pathname parsed)) j) ->
        decode_segment (path_segments (pathname parsed)) (i + 1) = Ok o ->
        decode_segment (path_segments (pathname parsed)) (i + 3) = Ok r ->
        o = EmptyString \/ r = EmptyString ->
        parseResourceReference v = Ok None).
Proof.
  unfold parseResourceReference.
  destruct v as [| |b|n|s]; try (repeat split; reflexivity);
    set (raw := trim (ToString _)).
  all: split; [intros ->; reflexivity|].
  all: split; [intros ->; destruct (is_empty raw); reflexivity|].
  all: split.
  all: try (intros parsed U N; rewrite U; destruct (is_empty raw); [reflexivity|];
            pose proof (find_resource_index_first (path_segments (pathname parsed))) as F;
            destruct (find_resource_index _) as [i|]; [|reflexivity];
            exfalso; exact (N i (proj1 F))).
  all: intros parsed i o r U P F Do Dr B; rewrite U;
       destruct (is_empty raw); [reflexivity|];
       rewrite (find_resource_index_unique _ i P F), Do, Dr; cbn [bind];
       destruct B as [-> | ->]; [reflexivity|];
       rewrite orb_true_r; reflexivity.
Qed.

(** The URL of the specification, for a prefix of one segment. *)
Lemma stated_reference (host prefix owner id : string) :
  host <> EmptyString ->
  forall_string (fun a => negb (is_slash a)) host = true ->
  segment prefix -> segment owner -> segment id ->
  ~ (prefix = "u" /\ owner = "resources") ->
  decoded owner = Ok owner -> decoded id = Ok id ->
  (toLowerCase id <> "logs" ->
   read_as_written host [prefix; "u"; owner; "resources"; id; EmptyString] ->
   parseResourceReference (VStr (resource_url host prefix owner id))
   = Ok (Some (reference_of host prefix owner id)))
  /\ (read_as_written host [prefix; "u"; owner; "resources"; id; "logs"; EmptyString] ->
      parseResourceReference (VStr (resource_logs_url host prefix owner id))
      = Ok (Some (reference_of host prefix owner id))).
Proof.
  intros Hne Hs Pp Po Pi Np Do Di.
  assert (F : Forall segment [prefix])
    by (apply Forall_cons; split; [exact Pp | apply Forall_nil_2]).
  assert (E : forall j, (j < length [prefix])%nat ->
                ~ pattern_at ([prefix] ++ ["u"; owner; "resources"; id]) j).
  { intros j Hj (U & R & _). assert (j = 0%nat) as -> by (cbn in Hj; lia).
    cbn in U, R. apply Np. split; congruence. }
  assert (B : strip_one_trailing_slash ("https://" +:+ host) = "https://" +:+ host)
    by (apply strip_one_app; assumption).
  assert (Pf : serialize_path [prefix] = "/" +:+ prefix)
    by (cbn; rewrite append_empty_r; reflexivity).
  unfold reference_of. rewrite <- B, <- Pf. split.
  - intros L W.
    exact (resource_url_read host [prefix] owner id owner id F Po Pi E Do Di
             (proj1 Po) (proj1 Pi) L W).
  - intros W.
    exact (resource_logs_url_read host [prefix] owner id owner id F Po Pi E Do Di
             (proj1 Po) (proj1 Pi) W).
Qed.

(** C7, amended.  For every parser of URLs.  Take a host, a prefix of
    segments, an owner and an id, the segments not empty and without a
    slash, the pattern u/x/resources not starting inside the prefix, and
    let owner and id decode and trim to texts that are not empty.
    Whenever [new URL] reads the resource URL, or its logs-suffixed
    form, as https with that host and that path, [parseResourceReference]
    returns the reference with the base https://host, the prefix, and
    the decoded owner and id: for the suffixed form always, for the
    unsuffixed one when the id is not logs in any letter case.  So for a
    prefix of one segment, and an owner and an id that decoding and
    trimming leave as they are, the two URLs of the specification parse
    to the reference it names.  The result is null for undefined, null
    and blank input, for input [new URL] rejects, for a path without the
    pattern and for an owner or id that decodes to a blank. *)
Theorem parseResourceReference_round_trip :
  (forall host pre owner id o i,
     Forall segment pre -> segment owner -> segment id ->
     (forall j, (j < length pre)%nat ->
                ~ pattern_at (pre ++ ["u"; owner; "resources"; id]) j) ->
     decoded owner = Ok o -> decoded id = Ok i ->
     o <> EmptyString -> i <> EmptyString ->
     let reference :=
       {| ref_baseUrl := strip_one_trailing_slash ("https://" +:+ host);
          ref_portalPrefix := serialize_path pre;
          ref_resourceOwnerUsername := o;
          ref_resourceId := i |} in
     (toLowerCase id <> "logs" ->
      read_as_written host (pre ++ ["u"; owner; "resources"; id; EmptyString]) ->
      parseResourceReference
        (VStr (https_url host (pre ++ ["u"; owner; "resources"; id; EmptyString])))
      = Ok (Some reference))
     /\ (read_as_written host
           (pre ++ ["u"; owner; "resources"; id; "logs"; EmptyString]) ->
         parseResourceReference
           (VStr (https_url host
                    (pre ++ ["u"; owner; "resources"; id; "logs"; EmptyString])))
         = Ok (Some reference)))
  /\ (forall host prefix owner id,
        host <> EmptyString ->
        forall_string (fun a => negb (is_slash a)) host = true ->
        segment prefix -> segment owner -> segment id ->
        ~ (prefix = "u" /\ owner = "resources") ->
        decoded owner = Ok owner -> decoded id = Ok id ->
        read_as_written host [prefix; "u"; owner; "resources"; id; "logs"; EmptyString] ->
        (toLowerCase id <> "logs" ->
         read_as_written host [prefix; "u"; owner; "resources"; id; EmptyString] ->
         roundtrip_as_stated host prefix owner id)
        /\ parseResourceReference (VStr (resource_logs_url host prefix owner id))
           = Ok (Some {| ref_baseUrl := "https://" +:+ host;
                         ref_portalPrefix := "/" +:+ prefix;
                         ref_resourceOwnerUsername := owner;
                         ref_resourceId := id |}))
  /\ parseResourceReference VUndefined = Ok None
  /\ parseResourceReference VNull = Ok None
  /\ (forall v, trim (ToString v) = EmptyString -> parseResourceReference v = Ok None)
  /\ (forall v, new_URL (trim (ToString v)) = None ->
                parseResourceReference v = Ok None)
  /\ (forall v parsed,
        new_URL (trim (ToString v)) = Some parsed ->
        (forall j, ~ pattern_at (path_segments (pathname parsed)) j) ->
        parseResourceReference v = Ok None)
  /\ (forall v parsed i o r,
        new_URL (trim (ToString v)) = Some parsed ->
        pattern_at (path_segments (pathname parsed)) i ->
        (forall j, (j < i)%nat -> ~ pattern_at (path_segments (pathname parsed)) j) ->
        decode_segment (path_segments (pathname parsed)) (i + 1) = Ok o ->
        decode_segment (path_segments (pathname parsed)) (i + 3) = Ok r ->
        o = EmptyString \/ r = EmptyString ->
        parseResourceReference v = Ok None).
Proof.
  split; [|split; [|split; [reflexivity|split; [reflexivity|]]]].
  - intros host pre owner id o i F Po Pi E Do Di No Ni. cbv zeta. split.
    + exact (resource_url_read host pre owner id o i F Po Pi E Do Di No Ni).
    + exact (resource_logs_url_read host pre owner id o i F Po Pi E Do Di No Ni).
  - intros host prefix owner id Hne Hs Pp Po Pi Np Do Di W.
    destruct (stated_reference host prefix owner id Hne Hs Pp Po Pi Np Do Di)
      as [A B].
    split; [|exact (B W)].
    intros L W'. split; [exact (A L W') | exact (B W)].
  - split; [|split; [|split]].
    + intros v. apply (parse_no_match v).
    + intros v. apply (parse_no_match v).
    + intros v. apply (parse_no_match v).
    + intros v. apply (parse_no_match v).
Qed.

End ResourceReferences.

Section PlainReference.

(** The plain-URL parser reads a URL with a plain host and plain
    segments as it is written. *)
Lemma plain_read_as_written (h : string) (segs : list string) :
  host_ok h = true -> plain_path segs -> read_as_written h segs.
Proof.
  intros Hh Hs. exists (mkURL "https:" h h (serialize_path segs)).
  split; [exact (URL_parse_plain h segs Hh Hs) | repeat split].
Qed.

Variables host prefix owner id : string.
Hypothesis host_plain : host_ok host = true.
Hypothesis prefix_plain : plain_segment prefix.
Hypothesis owner_plain : plain_segment owner.
Hypothesis id_plain : plain_segment id.
Hypothesis no_earlier_pattern : ~ (prefix = "u" /\ owner = "resources").

Lemma segments_plain_path (tail : list string) :
  Forall (fun s => forall_string is_plain s = true /\ s <> "." /\ s <> "..") tail ->
  plain_path (prefix :: "u" :: owner :: "resources" :: id :: tail).
Proof.
  intros Ht. split; [discriminate|].
  destruct prefix_plain as (_ & Pp & D1 & D2). destruct owner_plain as (_ & Po & D3 & D4).
  destruct id_plain as (_ & Pi & D5 & D6).
  apply Forall_cons. split; [tauto|].
  apply Forall_cons. split; [split; [reflexivity|]; split; discriminate|].
  apply Forall_cons. split; [tauto|].
  apply Forall_cons. split; [split; [reflexivity|]; split; discriminate|].
  apply Forall_cons. split; [tauto | exact Ht].
Qed.

Lemma plain_stated_reference :
  (toLowerCase id <> "logs" ->
   parseResourceReference (VStr (resource_url host prefix owner id))
   = Ok (Some (reference_of host prefix owner id)))
  /\ parseResourceReference (VStr (resource_logs_url host prefix owner id))
     = Ok (Some (reference_of host prefix owner id)).
Proof.
  destruct (host_ok_chars host host_plain) as [Hc Hne].
  assert (Hs : forall_string (fun a => negb (is_slash a)) host = true)
    by (apply plain_none; [intros a Ha; apply (plain_char a Ha) | apply host_is_plain, Hc]).
  destruct (stated_reference host prefix owner id Hne Hs
              (plain_is_segment _ prefix_plain) (plain_is_segment _ owner_plain)
              (plain_is_segment _ id_plain) no_earlier_pattern
              (plain_decoded owner (proj1 (proj2 owner_plain)))
              (plain_decoded id (proj1 (proj2 id_plain)))) as [A B].
  split.
  - intros L. apply (A L). apply plain_read_as_written; [exact host_plain|].
    apply segments_plain_path. apply Forall_cons. split; [|apply Forall_nil_2].
    split; [reflexivity|]. split; discriminate.
  - apply B. apply plain_read_as_written; [exact host_plain|].
    apply segments_plain_path.
    apply Forall_cons. split; [split; [reflexivity|]; split; discriminate|].
    apply Forall_cons. split; [|apply Forall_nil_2].
    split; [reflexivity|]. split; discriminate.
Qed.

Lemma resource_url_parses :
  toLowerCase id <> "logs" ->
  parseResourceReference (VStr (resource_url host prefix owner id))
  = Ok (Some (reference_of host prefix owner id)).
Proof. apply plain_stated_reference. Qed.

Lemma resource_logs_url_parses :
  parseResourceReference (VStr (resource_logs_url host prefix owner id))
  = Ok (Some (reference_of host prefix owner id)).
Proof. apply plain_stated_reference. Qed.

End PlainReference.

(** On the plain-URL parser the two URLs of a resource parse to the
    reference the specification names. *)
Lemma parseResourceReference_round_trip_witness :
  roundtrip_as_stated "alshival.dev" "DevTools" "owner-user" "r-123".
Proof.
  destruct (@parseResourceReference_round_trip plain_URLs) as (_ & R & _).
  destruct (R "alshival.dev" "DevTools" "owner-user" "r-123") as [A _].
  - discriminate.
  - reflexivity.
  - split; [discriminate | reflexivity].
  - split; [discriminate | reflexivity].
  - split; [discriminate | reflexivity].
  - intros [H _]. discriminate H.
  - vm_compute. reflexivity.
  - vm_compute. reflexivity.
  - eexists. split; [vm_compute; reflexivity | repeat split].
  - apply A.
    + intros H. vm_compute in H. discriminate H.
    + eexists. split; [vm_compute; reflexivity | repeat split].
Defined.

(** The URLs of the test-suite, an owner that decodes to a blank, and a
    path that stops short of the id, on the plain-URL parser. *)
Example parseResourceReference_samples :
  parseResourceReference
    (VStr "https://alshival.ai/DevTools/u/alshival/resources/3e2ad894-5e5f-4c34-9899-1f9c2158009c/")
  = Ok (Some {| ref_baseUrl := "https://alshival.ai"; ref_portalPrefix := "/DevTools";
                ref_resourceOwnerUsername := "alshival";
                ref_resourceId := "3e2ad894-5e5f-4c34-9899-1f9c2158009c" |})
  /\ parseResourceReference
       (VStr "https://alshival.dev/u/alshival/resources/3e2ad894-5e5f-4c34-9899-1f9c2158009c/logs/")
     = Ok (Some {| ref_baseUrl := "https://alshival.dev"; ref_portalPrefix := "";
                   ref_resourceOwnerUsername := "alshival";
                   ref_resourceId := "3e2ad894-5e5f-4c34-9899-1f9c2158009c" |})
  /\ parseResourceReference (VStr "https://host/u/%20/resources/r/") = Ok None
  /\ parseResourceReference (VStr "https://host/u/owner/resources") = Ok None
  /\ parseResourceReference (VStr "   ") = Ok None
  /\ parseResourceReference (VStr "not a url") = Ok None.
Proof. repeat split; vm_compute; reflexivity. Qed.

(** With the id logs the URL without the suffix is no resource
    reference: its last segment is taken for the suffix and dropped. *)
Lemma id_logs_is_dropped :
  parseResourceReference (VStr (resource_url "host" "Prefix" "OWNER" "logs")) = Ok None
  /\ parseResourceReference (VStr (resource_logs_url "host" "Prefix" "OWNER" "logs"))
     = Ok (Some (reference_of "host" "Prefix" "OWNER" "logs"))
  /\ ~ roundtrip_as_stated "host" "Prefix" "OWNER" "logs".
Proof.
  split; [vm_compute; reflexivity|]. split; [vm_compute; reflexivity|].
  intros [H _]. vm_compute in H. discriminate H.
Qed.

(** The other conditions are needed, too: an escape in the owner is
    decoded, a host in upper case comes back in lower case, and a prefix
    u before an owner resources is taken for the pattern. *)
Example round_trip_conditions :
  parseResourceReference (VStr (resource_url "host" "Prefix" "a%20b" "r"))
  = Ok (Some (reference_of "host" "Prefix" "a b" "r"))
  /\ parseResourceReference (VStr (resource_url "HOST" "Prefix" "owner" "r"))
     = Ok (Some (reference_of "host" "Prefix" "owner" "r"))
  /\ parseResourceReference (VStr (resource_url "host" "u" "resources" "r"))
     = Ok (Some {| ref_baseUrl := "https://host"; ref_portalPrefix := "";
                   ref_resourceOwnerUsername := "u";
                   ref_resourceId := "resources" |}).
Proof. repeat split; vm_compute; reflexivity. Qed.

(** A malformed escape in the owner or the id makes
    [decodeURIComponent] raise, and [parseResourceReference] and
    [configure] with it; the store is left as it was. *)
Example malformed_escape_raises :
  parseResourceReference (VStr "https://host/u/%zz/resources/r/") = Throw URIError
  /\ configure {[ "resource" := VStr "https://host/u/%zz/resources/r/";
                  "username" := VStr "u" ]} Samples.reset_config
     = (Samples.reset_config, Some URIError).
Proof. split; vm_compute; reflexivity. Qed.

(** ** The test-suite, replayed on the plain-URL parser *)

Section TestSuite.

Import Samples.

Example samples_are_configured :
  configure {[ "username" := VStr "u"; "apiKey" := VStr "k";
               "resource" := VStr "https://alshival.dev/u/u/resources/r/" ]}
            Samples.reset_config
  = (Samples.ready_config, None)
  /\ configure {[ "username" := VStr " bob "; "apiKey" := VStr "k";
                  "baseUrl" := VStr "https://alshival.dev" ]}
               Samples.reset_config
     = (Samples.padded_user_config, None).
Proof. split; vm_compute; reflexivity. Qed.

(** 'cloud level filters only cloud handler', 'debug method forwards
    when cloud level is DEBUG', 'cloud level disable token skips
    forwarding', 'alert level and tag supported'. *)
Example cloud_level_tests :
  length (logger_emit log (configured (VStr "ERROR")) (record 20 "INFO" "hello")).2
  = 0%nat
  /\ length (logger_emit log (configured (VStr "DEBUG"))
               (record 10 "DEBUG" "debug event")).2 = 1%nat
  /\ length (logger_emit log (configured (VStr "NONE"))
               (record 40 "ERROR" "cloud forwarding disabled")).2 = 0%nat
  /\ length (logger_emit log (configured (VStr "ALERT"))
               (record 40 "ERROR" "below alert threshold")).2 = 0%nat
  /\ map (fun req => map entry_level (logs (payload req)))
         (logger_emit log (configured (VStr "ALERT"))
            (record 45 "ALERT" "urgent incident")).2
     = [["alert"]].
Proof. repeat split; vm_compute; reflexivity. Qed.

(** 'configure cloudLevel rejects non-string values', 'shared resource
    uses owner path with actor headers', 'cloud send requires username
    identity'. *)
Example identity_tests :
  (configure {[ "cloudLevel" := VBool false ]} Samples.reset_config).2
  = Some InvalidLevel
  /\ (let cfg := (configure {[ "username" := VStr "viewer-user"; "apiKey" := VStr "k";
                               "resource" :=
                                 VStr "https://alshival.dev/u/owner-user/resources/r/";
                               "enabled" := VBool true; "cloudLevel" := VStr "INFO" ]}
                            Samples.reset_config).1 in
      (fun req => (url req, headers req !! "x-api-key",
                   headers req !! "x-user-username", headers req !! "x-user-email"))
        <$> (logger_emit log cfg (record 20 "INFO" "shared write")).2
      = [("https://alshival.dev/u/owner-user/resources/r/logs/",
          Some (VStr "k"), Some (VStr "viewer-user"), None)])
  /\ (let cfg := (configure {[ "username" := VStr ""; "apiKey" := VStr "k";
                               "resource" :=
                                 VStr "https://alshival.dev/u/owner-user/resources/r/";
                               "enabled" := VBool true; "cloudLevel" := VStr "INFO" ]}
                            Samples.reset_config).1 in
      (logger_emit log cfg (record 20 "INFO" "shared write without username")).2 = []).
Proof. repeat split; vm_compute; reflexivity. Qed.

(** 'resource endpoint legacy host uses devtools prefix', '... devtools
    domain uses root paths', '... respects explicit prefix override'. *)
Example endpoint_tests :
  buildResourceLogsEndpoint
    (configure {[ "baseUrl" := VStr "https://alshival.ai"; "portalPrefix" := VNull ]}
               Samples.reset_config).1 (VStr "sam") (VStr "abc-123")
  = Ok "https://alshival.ai/DevTools/u/sam/resources/abc-123/logs/"
  /\ buildResourceLogsEndpoint
       (configure {[ "baseUrl" := VStr "https://alshival.dev"; "portalPrefix" := VNull ]}
                  Samples.reset_config).1 (VStr "sam") (VStr "abc-123")
     = Ok "https://alshival.dev/u/sam/resources/abc-123/logs/"
  /\ buildResourceLogsEndpoint
       (configure {[ "baseUrl" := VStr "https://alshival.ai";
                     "portalPrefix" := VStr "" ]}
                  Samples.reset_config).1 (VStr "sam") (VStr "abc-123")
     = Ok "https://alshival.ai/u/sam/resources/abc-123/logs/".
Proof. repeat split; vm_compute; reflexivity. Qed.

(** 'env cloud level NONE token parses as disabled', 'env cloud level
    invalid value falls back to default'. *)
Example environment_tests :
  (exists cfg,
     buildClientConfigFromEnv {[ "ALSHIVAL_CLOUD_LEVEL" := "NONE" ]} = Ok cfg
     /\ cloudLevel cfg = None)
  /\ (exists cfg,
        buildClientConfigFromEnv {[ "ALSHIVAL_CLOUD_LEVEL" := "false" ]} = Ok cfg
        /\ cloudLevel cfg = Some 20).
Proof. split; eexists; (split; [vm_compute; reflexivity | reflexivity]). Qed.

End TestSuite.

(* ===================================================================== *)
(** * The rest of the SDK *)
(* ===================================================================== *)

Import Facade Mcp Shape EnvLevels.

(** ** Level names *)

Section LevelNames.

(** The cascade of comparisons alone gives the name: the table of
    [LEVEL_NO_TO_NAME] agrees with it on its seven keys. *)
Lemma levelNameFromNo_cascade (n : Z) :
  levelNameFromNo n
  = if 50 <=? n then "CRITICAL"
    else if 45 <=? n then "ALERT"
    else if 40 <=? n then "ERROR"
    else if 30 <=? n then "WARNING"
    else if 20 <=? n then "INFO"
    else if 10 <=? n then "DEBUG"
    else "NOTSET".
Proof.
  unfold levelNameFromNo.
  destruct (decide (n ∈ [0; 10; 20; 30; 40; 45; 50])) as [H|H].
  - repeat (apply elem_of_cons in H as [->|H]; [reflexivity|]). inversion H.
  - unfold LEVEL_NO_TO_NAME. rewrite not_elem_of_list_to_map_1; [reflexivity|].
    exact H.
Qed.

(** X2.  The name of a level number is the name of the largest of the seven
    named levels that is not above it (NOTSET below 10, also for negative
    numbers); [coerceLevel] reads that name back as that level, and every
    name and alias of LEVEL_NAME_TO_NO has a number whose name coerces
    back to the number: ALERTS, FATAL and WARN come back as ALERT,
    CRITICAL and WARNING. *)
Theorem level_names_round_trip :
  let named := [0; 10; 20; 30; 40; 45; 50] in
  (forall n : Z, exists k,
      coerceLevel (VStr (levelNameFromNo n)) = Ok (Some k)
      /\ levelNameFromNo k = levelNameFromNo n
      /\ k ∈ named
      /\ (0 <= n -> k <= n /\ forall t, t ∈ named -> t <= n -> t <= k)
      /\ (n < 0 -> k = 0))
  /\ (forall name n, LEVEL_NAME_TO_NO !! name = Some n ->
      coerceLevel (VStr (levelNameFromNo n)) = Ok (Some n)).
Proof.
  cbv zeta. split.
  - intros n. rewrite levelNameFromNo_cascade.
    repeat (match goal with
            | |- context [?a <=? n] => destruct (Z.leb_spec a n)
            end);
      [exists 50 | exists 45 | exists 40 | exists 30 | exists 20 | exists 10
       | exists 0];
      (split; [vm_compute; reflexivity|]);
      (split; [reflexivity|]);
      (split; [compute_done|]);
      (split; [|lia]);
      intros Hn; (split; [lia|]);
      intros t Ht Hle;
      repeat (apply elem_of_cons in Ht as [->|Ht]; [lia|]); inversion Ht.
  - intros name n H. apply level_lookup in H. unfold LEVEL_TABLE in H.
    repeat (apply elem_of_cons in H as [[= -> ->]|H]; [vm_compute; reflexivity|]).
    inversion H.
Qed.

End LevelNames.

(** ** The logger facade *)

Section LoggerFacade.

Context {parser : Node}.

(** A logger hands the record to each of its handlers and is the same
    logger afterwards. *)
Lemma logger_emit_calls (l : AlshivalLogger) (cfg : Config) (r : LogRecord) :
  logger_emit l cfg r
  = (l, if levelno r <? _minLevel l then []
        else flat_map (fun h => calls (emit h cfg r)) (handlers l)).
Proof.
  unfold logger_emit. destruct (levelno r <? _minLevel l); [reflexivity|].
  pose proof (emit_each_calls (handlers l) cfg r) as C.
  destruct (handlers_stay_idle (handlers l) (new_handler None None) cfg r)
    as (_ & K & _).
  destruct (emit_each (handlers l) cfg r) as [hs cs]. cbn [fst snd] in *.
  subst. destruct l; reflexivity.
Qed.



Lemma flat_map_short {A B : Type} (f : A -> list B) (l : list A) :
  (forall a, (length (f a) <= 1)%nat) -> (length (flat_map f l) <= length l)%nat.
Proof.
  intros H. induction l as [|a l IH]; cbn; [lia|].
  rewrite length_app. specialize (H a). lia.
Qed.


(** X4.  [getLogger].  The logger it makes has one handler, bound to the
    given resource id; without a [cloudLevel] the handler's override is
    the logger's own level, so such a logger forwards a record exactly
    when the record reaches the logger's level, the store is enabled,
    has a cloud level that is not null, an API key and a user name, a
    resource id can be resolved and the request can be built: the number
    of the store's cloud level is not consulted.  A level that is null
    or a disable token does not disable the logger, it gives it level
    INFO. *)
Theorem getLogger_level_is_cloud_level (name level cloud : Val)
    (rid : option string) (l : AlshivalLogger) :
  getLogger name level cloud rid = Ok l ->
  (exists c, handlers l = [new_handler rid c]
             /\ (cloud = VUndefined -> c = Some (_minLevel l))
             /\ (cloud <> VUndefined -> coerceLevel cloud = Ok c))
  /\ (level = VUndefined \/ coerceLevel level = Ok None -> _minLevel l = 20)
  /\ (forall n, coerceLevel level = Ok (Some n) -> _minLevel l = n)
  /\ (cloud = VUndefined ->
      forall cfg r,
        (exists req, (logger_emit l cfg r).2 = [req])
        <-> _minLevel l <= levelno r
            /\ enabled cfg = true /\ cloudLevel cfg <> None
            /\ truthy (apiKey cfg) = true /\ truthy (username cfg) = true
            /\ is_empty (resolvedResourceId (new_handler rid None) cfg r) = false
            /\ request_can_be_built (new_handler rid None) cfg r).
Proof.
  unfold getLogger.
  set (lv := if is_undefined level then VNum (Finite 20 "20") else level).
  unfold normalizedLevelNo.
  destruct (coerceLevel lv) as [m|e] eqn:Em; [|discriminate]. cbn [bind].
  set (ml := default LEVEL_INFO m).
  destruct (if is_undefined cloud then Ok (Some ml) else coerceLevel cloud)
    as [c|e] eqn:Ec; [|discriminate].
  cbn [bind]. intros [= <-]. unfold new_logger.
  cbn [handlers _minLevel fst dedupeAddHandler dedupe_from].
  split; [|split; [|split]].
  - exists c. split; [reflexivity|]. split.
    + intros ->. cbn in Ec. congruence.
    + intros N. destruct cloud; cbn [is_undefined] in Ec; congruence.
  - intros [->|H].
    + cbn in Em. injection Em as <-. reflexivity.
    + subst lv ml. destruct level; cbn [is_undefined] in Em;
        try (rewrite H in Em; injection Em as <-; reflexivity).
      vm_compute in H. discriminate.
  - intros n H. subst lv ml. destruct level; cbn [is_undefined] in Em;
      try (rewrite H in Em; injection Em as <-; reflexivity).
    vm_compute in H. discriminate.
  - intros -> cfg r. cbn in Ec. injection Ec as <-.
    rewrite logger_emit_calls. cbn [snd _minLevel handlers fst flat_map].
    rewrite app_nil_r.
    destruct (emit_calls_iff rid (Some ml) cfg r) as (I & _). cbv zeta in I.
    change (request_can_be_built (new_handler rid (Some ml)) cfg r)
      with (request_can_be_built (new_handler rid None) cfg r) in I.
    destruct (resolvedResourceId_resolves (new_handler rid None) cfg r) as [_ R].
    change (resolves (new_handler rid None) cfg r)
      with (resolves (new_handler rid (Some ml)) cfg r) in R.
    unfold forwarding_conditions, effective_minimum in I.
    cbn [handler_cloudLevel new_handler] in I.
    destruct (Z.ltb_spec (levelno r) ml) as [L|L].
    + split; [intros [? [=]] | lia].
    + rewrite I, R. split.
      * intros ((E & C & _ & A & U & S) & B). tauto.
      * intros (_ & E & C & A & U & S & B). split; [|exact B].
        repeat split; try assumption. exists ml. split; [reflexivity | lia].
Qed.

(** X5.  [log(level, ...)] and the level methods.  A call of [log] with a
    level that [coerceLevel] reads as the number of a level method
    (whatever the spelling: a number, a name, an alias) is a call of that
    method, with the same record; with null, false or a disable token it
    does nothing; with a level [coerceLevel] rejects it throws to the
    caller, and nothing else is thrown. *)
Theorem log_is_the_level_method (l : AlshivalLogger) (cfg : Config) (level : Val)
    (message : string) (resourceId : Val) (extra : Extra) :
  (forall m, coerceLevel level = Ok (Some (method_level m).1) ->
     log l cfg level message resourceId extra
     = Ok (log_at m l cfg message resourceId extra))
  /\ (coerceLevel level = Ok None ->
      log l cfg level message resourceId extra = Ok (l, []))
  /\ (forall e, log l cfg level message resourceId extra = Throw e
                <-> coerceLevel level = Throw e /\ e = InvalidLevel)
  /\ (forall l' cs, log l cfg level message resourceId extra = Ok (l', cs) -> l' = l).
Proof.
  unfold log, normalizedLevelNo. split; [|split; [|split]].
  - intros m ->. cbn [bind]. unfold log_at.
    destruct m; reflexivity.
  - intros ->. reflexivity.
  - intros e.
    assert (I : coerceLevel level = Throw e -> e = InvalidLevel).
    { destruct level as [| |[]|[]|s]; cbn; try congruence;
        unfold coerceLevelName; repeat case_match; congruence. }
    destruct (coerceLevel level) as [[n|]|e'] eqn:E; cbn [bind].
    + split; [discriminate | intros [[=] _]].
    + split; [discriminate | intros [[=] _]].
    + split; [intros [= <-]; split; [reflexivity | apply I; reflexivity]|].
      intros [[= <-] _]. reflexivity.
  - destruct (coerceLevel level) as [[n|]|e']; cbn [bind]; [| |discriminate].
    + rewrite logger_emit_calls. intros l' cs [= <- _]. reflexivity.
    + intros l' cs [= <- _]. reflexivity.
Qed.

End LoggerFacade.

Lemma getLogger_level_is_cloud_level_witness :
  getLogger (VStr "jobs") (VStr "off") VUndefined (Some "r-1")
  = Ok (new_logger "jobs" 20 (Some 20) (Some "r-1"))
  /\ _minLevel (new_logger "jobs" 20 (Some 20) (Some "r-1")) = 20.
Proof.
  split; [reflexivity|].
  exact (proj1 (proj2 (getLogger_level_is_cloud_level (VStr "jobs") (VStr "off")
                         VUndefined (Some "r-1")
                         (new_logger "jobs" 20 (Some 20) (Some "r-1")) eq_refl))
               (or_intror eq_refl)).
Defined.

(** ** A reference the parser raises on *)

Section ParseFailure.

Context {parser : Node}.

Lemma decodeURIComponent_throws (s : string) (e : Thrown) :
  decodeURIComponent s = Throw e -> e = URIError.
Proof.
  unfold decodeURIComponent. destruct (unescape s) as [ts|].
  - destruct (utf8_escapes_ok [] ts); [discriminate|]. intros [= <-]. reflexivity.
  - intros [= <-]. reflexivity.
Qed.

Lemma decode_segment_throws (segments : list string) (i : nat) (e : Thrown) :
  decode_segment segments i = Throw e -> e = URIError.
Proof.
  unfold decode_segment.
  destruct (decodeURIComponent _) as [t|e'] eqn:E; cbn [bind]; [discriminate|].
  intros [= <-]. exact (decodeURIComponent_throws _ _ E).
Qed.

Lemma parseResourceReference_throws (v : Val) (e : Thrown) :
  parseResourceReference v = Throw e -> e = URIError.
Proof.
  intros H. unfold parseResourceReference in H.
  destruct v; try discriminate H;
    (destruct (is_empty _); [discriminate H|];
     destruct (new_URL _) as [parsed|]; [|discriminate H]; cbv zeta in H;
     destruct (find_resource_index _) as [i|]; [|discriminate H];
     destruct (decode_segment _ (i + 1)) as [o|e1] eqn:E1; cbn [bind] in H;
     [ destruct (decode_segment _ (i + 3)) as [r|e2] eqn:E2; cbn [bind] in H;
       [ destruct (is_empty o || is_empty r); discriminate H
       | injection H as <-; exact (decode_segment_throws _ _ _ E2) ]
     | injection H as <-; exact (decode_segment_throws _ _ _ E1) ]).
Qed.

(** X1.  A resource reference on which [parseResourceReference] throws.
    The only thing it throws is the URIError of [decodeURIComponent].
    [configure] called with such a reference throws it too, before it
    writes anything: the store is as it was, whatever else the call
    supplies.  [buildClientConfigFromEnv] throws it when the environment
    names such a reference, so loading the module fails. *)
Theorem parse_failure_propagates (v : Val) (e : Thrown) :
  parseResourceReference v = Throw e ->
  e = URIError
  /\ (forall options cfg,
        get options "resource" = v -> configure options cfg = (cfg, Some e))
  /\ (forall env,
        or_else (getenv env "ALSHIVAL_RESOURCE") (getenv env "ALSHIVAL_RESOURCE_URL")
        = v -> buildClientConfigFromEnv env = Throw e).
Proof.
  intros H. split; [exact (parseResourceReference_throws v e H)|]. split.
  - intros options cfg G. rewrite configure_steps.
    unfold resource_step, apply_resource. rewrite G.
    destruct (is_undefined v) eqn:U.
    + destruct v; try discriminate U. discriminate H.
    + rewrite H. reflexivity.
  - intros env G. unfold buildClientConfigFromEnv. rewrite G, H. reflexivity.
Qed.

End ParseFailure.

Lemma parse_failure_propagates_witness :
  let bad := VStr "https://alshival.dev/u/%zz/resources/r-1/" in
  parseResourceReference bad = Throw URIError
  /\ configure {[ "resource" := bad; "apiKey" := VStr "k" ]} Samples.reset_config
     = (Samples.reset_config, Some URIError)
  /\ buildClientConfigFromEnv
       {[ "ALSHIVAL_RESOURCE_URL" := "https://alshival.dev/u/%zz/resources/r-1/" ]}
     = Throw URIError.
Proof.
  cbv zeta.
  assert (H : parseResourceReference
                (VStr "https://alshival.dev/u/%zz/resources/r-1/") = Throw URIError)
    by (vm_compute; reflexivity).
  destruct (parse_failure_propagates _ _ H) as (_ & C & E).
  split; [exact H|]. split.
  - apply C. reflexivity.
  - apply E. reflexivity.
Defined.

(** ** Stores the SDK can reach *)

Section StoreShape.

Context {parser : Node}.

Ltac fields :=
  cbn [set_username set_apiKey set_baseUrl set_portalPrefix set_enabled
       set_cloudLevel set_timeoutSeconds set_verifySsl set_debug
       set_resourceOwnerUsername set_resourceId
       username resourceOwnerUsername apiKey baseUrl portalPrefix resourceId
       enabled cloudLevel timeoutSeconds verifySsl debug].

Lemma split_parts (sep : ascii -> bool) (s : string) :
  Forall (fun x => forall_string (fun a => negb (sep a)) x = true) (split sep s).
Proof.
  induction s as [|a r IH]; cbn [split].
  - apply Forall_cons. split; [reflexivity | apply Forall_nil_2].
  - destruct (sep a) eqn:E.
    + apply Forall_cons. split; [reflexivity | exact IH].
    + destruct (split sep r) as [|h t].
      * apply Forall_cons. split; [cbn; rewrite E; reflexivity | apply Forall_nil_2].
      * apply Forall_cons in IH as [H T]. apply Forall_cons. split; [|exact T].
        cbn. rewrite E, H. reflexivity.
Qed.

Lemma Forall_removelast {A : Type} (P : A -> Prop) (l : list A) :
  Forall P l -> Forall P (removelast l).
Proof.
  induction l as [|a [|b r] IH]; cbn [removelast]; intros H.
  - exact H.
  - apply Forall_nil_2.
  - apply Forall_cons in H as [Ha Hr]. apply Forall_cons. split; [exact Ha|].
    apply IH, Hr.
Qed.

Lemma path_segments_ok (pathname : string) :
  Forall (fun x => segment_ok x = true) (path_segments pathname).
Proof.
  assert (F : Forall (fun x => segment_ok x = true)
                (filter_nonempty (split is_slash pathname))).
  { unfold filter_nonempty. apply Forall_forall. intros x Hx.
    apply list_elem_of_In, filter_In in Hx as [Hx Hn].
    pose proof (split_parts is_slash pathname) as P.
    rewrite Forall_forall in P. apply list_elem_of_In in Hx.
    unfold segment_ok. rewrite Hn. exact (P x Hx). }
  unfold path_segments. destruct (last _); [|exact F].
  destruct (decide _); [apply Forall_removelast|]; exact F.
Qed.

Lemma first_char_app (p : ascii -> bool) (x y : string) :
  first_char_is p x = true -> first_char_is p (x +:+ y) = true.
Proof. destruct x; [discriminate | intros H; exact H]. Qed.

Lemma last_char_app (p : ascii -> bool) (x : string) (a : ascii) (y : string) :
  last_char_is p (x +:+ String a y) = last_char_is p (String a y).
Proof.
  induction x as [|b x IH]; [reflexivity|].
  change (String b x +:+ String a y) with (String b (x +:+ String a y)).
  cbn [last_char_is]. rewrite IH.
  destruct (x +:+ String a y) eqn:E; [|reflexivity].
  destruct x; discriminate E.
Qed.

Lemma segment_ends (x : string) :
  segment_ok x = true ->
  first_char_is not_slash x = true /\ last_char_is not_slash x = true.
Proof.
  unfold segment_ok. intros H. apply andb_true_iff in H as [N F].
  destruct x as [|a r]; [discriminate N|]. clear N. split.
  - cbn in *. apply andb_true_iff in F as [F _]. exact F.
  - revert a F. induction r as [|b r IH]; intros a F.
    + cbn in *. apply andb_true_iff in F as [F _]. exact F.
    + change (last_char_is not_slash (String a (String b r)))
        with (last_char_is not_slash (String b r)).
      apply IH. cbn [forall_string] in F. apply andb_true_iff in F as [_ F]. exact F.
Qed.

Lemma join_ends (l : list string) :
  l <> [] -> Forall (fun x => segment_ok x = true) l ->
  first_char_is not_slash (join "/" l) = true
  /\ last_char_is not_slash (join "/" l) = true.
Proof.
  induction l as [|x [|y r] IH]; intros N F; [contradiction| |].
  - apply Forall_cons in F as [F _]. exact (segment_ends x F).
  - apply Forall_cons in F as [Fx Fr].
    destruct (IH ltac:(discriminate) Fr) as [_ L].
    destruct (segment_ends x Fx) as [Hx _].
    change (join "/" (x :: y :: r)) with (x +:+ "/" +:+ join "/" (y :: r)).
    split; [apply first_char_app, Hx|].
    change ("/" +:+ join "/" (y :: r)) with (String "/" (join "/" (y :: r))).
    rewrite last_char_app.
    destruct (join "/" (y :: r)) eqn:E; [discriminate L | exact L].
Qed.

(** The prefix of a parsed reference. *)
Lemma reference_prefix_ok (v : Val) (ref : ResourceReference) :
  parseResourceReference v = Ok (Some ref) ->
  prefix_ok (Some (ref_portalPrefix ref)) = true.
Proof.
  intros H. unfold parseResourceReference in H.
  destruct v; try discriminate H;
    (destruct (is_empty _); [discriminate H|];
     destruct (new_URL _) as [parsed|]; [|discriminate H]; cbv zeta in H;
     pose proof (path_segments_ok (pathname parsed)) as S;
     destruct (find_resource_index _) as [i|]; [|discriminate H];
     destruct (decode_segment _ (i + 1)) as [o|e1]; cbn [bind] in H;
       [|discriminate H];
     destruct (decode_segment _ (i + 3)) as [r|e2]; cbn [bind] in H;
       [|discriminate H];
     destruct (is_empty o || is_empty r); [discriminate H|];
     injection H as <-; cbn [ref_portalPrefix];
     apply (Forall_take _ i) in S;
     destruct (take i (path_segments (pathname parsed))) as [|x l] eqn:T;
       [reflexivity|];
     destruct (join_ends (x :: l) ltac:(discriminate) S) as [A B];
     destruct (decide _); [reflexivity|]; cbn [prefix_ok]; rewrite A, B;
     reflexivity).
Qed.

Lemma drop_end_last (p : ascii -> bool) (s : string) :
  drop_end p s = EmptyString
  \/ last_char_is (fun a => negb (p a)) (drop_end p s) = true.
Proof.
  induction s as [|a r IH]; [left; reflexivity|].
  cbn [drop_end]. destruct (drop_end p r) as [|b t] eqn:E.
  - destruct (p a) eqn:Pa; cbn [andb is_empty]; [left; reflexivity|].
    right. cbn. rewrite Pa. reflexivity.
  - rewrite andb_false_r. right. destruct IH as [IH|IH]; [discriminate IH|].
    exact IH.
Qed.

Lemma normalizePortalPrefix_ok (v : Val) : prefix_ok (normalizePortalPrefix v) = true.
Proof.
  assert (K : forall raw,
    prefix_ok (if is_empty raw then Some EmptyString
               else Some (if decide (String "/" (strip_slashes raw) = "/")
                          then EmptyString else String "/" (strip_slashes raw)))
    = true).
  { intros raw. destruct (is_empty raw); [reflexivity|].
    destruct (decide _); [reflexivity|]. unfold strip_slashes in *.
    cbn [prefix_ok]. change (is_slash "/") with true. cbn [andb].
    destruct (drop_start_first is_slash raw) as [E|F].
    - exfalso. rewrite E in n. apply n. reflexivity.
    - apply drop_end_first in F.
      destruct (drop_end_last is_slash (drop_start is_slash raw)) as [E|L].
      + rewrite E in F. discriminate F.
      + unfold not_slash. rewrite F, L. reflexivity. }
  destruct v; try reflexivity; apply K.
Qed.

Lemma coerceCloudLevel_ok (v : Val) (c : option Z) :
  coerceCloudLevel v = Ok c -> cloud_level_ok c = true.
Proof.
  destruct c as [n|]; [|reflexivity]. destruct v as [| | | |s]; try discriminate.
  intros H. apply coerceCloudLevel_named in H.
  unfold cloud_level_ok. apply bool_decide_eq_true.
  apply list_elem_of_fmap. exists (toUpperCase (trim s), n). split; [reflexivity|].
  exact H.
Qed.

Lemma store_ok_fields (c : Config) :
  store_ok c = true
  <-> cloud_level_ok (cloudLevel c) = true
      /\ isFinite (VNum (timeoutSeconds c)) = true
      /\ prefix_ok (portalPrefix c) = true.
Proof. unfold store_ok. rewrite !andb_true_iff. tauto. Qed.

Lemma env_store_ok (env : gmap string string) (cfg : Config) :
  buildClientConfigFromEnv env = Ok cfg -> store_ok cfg = true.
Proof.
  unfold buildClientConfigFromEnv.
  destruct (parseResourceReference _) as [ref|e] eqn:P; cbn [bind]; [|discriminate].
  intros [= <-]. apply store_ok_fields. fields. split; [|split].
  - unfold envCloudLevel.
    assert (D : cloud_level_ok
                  (Some (if envBool env "ALSHIVAL_DEBUG" false
                         then LEVEL_DEBUG else LEVEL_INFO)) = true)
      by (destruct (envBool _ _ _); reflexivity).
    destruct (getenv env "ALSHIVAL_CLOUD_LEVEL") as [| | | |s] eqn:G;
      try exact D;
      (destruct (is_empty _); [exact D|];
       destruct (coerceCloudLevel _) as [c|e] eqn:C; cbn [try_catch];
       [exact (coerceCloudLevel_ok _ _ C) | exact D]).
  - reflexivity.
  - destruct ref as [ref|]; [|apply normalizePortalPrefix_ok].
    exact (reference_prefix_ok _ _ P).
Qed.

Lemma configure_keeps_store_ok (options : gmap string Val) (cfg : Config) :
  store_ok cfg = true -> store_ok (configure options cfg).1 = true.
Proof.
  intros H. apply store_ok_fields in H as (Hc & Ht & Hp).
  rewrite configure_steps.
  destruct (resource_step options cfg) as [c1|e] eqn:R;
    [|apply store_ok_fields; auto].
  assert (H1 : cloud_level_ok (cloudLevel c1) = true
               /\ isFinite (VNum (timeoutSeconds c1)) = true
               /\ prefix_ok (portalPrefix c1) = true).
  { unfold resource_step, apply_resource in R.
    destruct (is_undefined (get options "resource")); [injection R as <-; auto|].
    destruct (parseResourceReference _) as [[ref|]|e] eqn:P; cbn [bind] in R;
      [| |discriminate R]; injection R as <-.
    - pose proof (reference_prefix_ok _ _ P) as Q.
      destruct (is_undefined (get2 options "baseUrl" "base_url")),
        (is_undefined (get2 options "portalPrefix" "portal_prefix"));
        fields; auto.
    - fields. auto. }
  clear Hc Ht Hp. destruct H1 as (Hc & Ht & Hp). cbv zeta.
  set (c2 := apply_fields _ _ _ _ _ c1).
  assert (H2 : cloud_level_ok (cloudLevel c2) = true
               /\ isFinite (VNum (timeoutSeconds c2)) = true
               /\ prefix_ok (portalPrefix c2) = true).
  { pose proof (apply_fields_effect (get options "username")
              (get2 options "apiKey" "api_key") (get2 options "baseUrl" "base_url")
              (get2 options "portalPrefix" "portal_prefix") (get options "enabled") c1)
      as F. cbv zeta in F. fold c2 in F.
    destruct F as (_ & _ & _ & F4 & _ & _ & (F7 & _) & F8).
    rewrite F4, F7, F8. split; [exact Hc|]. split; [exact Ht|].
    destruct (is_undefined _); [exact Hp | apply normalizePortalPrefix_ok]. }
  clearbody c2. clear Hc Ht Hp. destruct H2 as (Hc & Ht & Hp).
  destruct (apply_cloud_level options (get options "debug") c2) as [c3|e] eqn:C;
    cbn [fst]; [|apply store_ok_fields; auto].
  destruct (apply_cloud_level_keeps _ _ _ _ C) as (_ & (K1 & _) & _ & (_ & K2)).
  assert (H3 : cloud_level_ok (cloudLevel c3) = true).
  { rewrite apply_cloud_level_effect in C.
    destruct (has_cloud_level options).
    - destruct (coerceCloudLevel _) as [l|e] eqn:L; [|discriminate C].
      injection C as <-. fields. exact (coerceCloudLevel_ok _ _ L).
    - injection C as <-. destruct (is_true _); [|exact Hc]. fields.
      destruct (cloudLevel c2); reflexivity. }
  match goal with |- context [apply_tail ?t ?v ?d ?c] =>
    pose proof (apply_tail_effect t v d c) as T end.
  cbv zeta in T. destruct T as (T1 & _ & _ & _ & _ & (_ & T2) & T3).
  apply store_ok_fields. rewrite T1, T2, T3, K2. split; [exact H3|]. split; [|exact Hp].
  destruct (get2 options "timeoutSeconds" "timeout_seconds") as [| | |[]|];
    try reflexivity; rewrite K1; exact Ht.
Qed.

Lemma resolved_prefix_ok (cfg : Config) :
  store_ok cfg = true -> prefix_ok (Some (resolvedPortalPrefix cfg)) = true.
Proof.
  intros H. apply store_ok_fields in H as (_ & _ & Hp).
  unfold resolvedPortalPrefix.
  destruct (portalPrefix cfg) as [p|]; [exact Hp|].
  destruct (new_URL (baseUrl cfg)) as [parsed|]; [|reflexivity].
  pose proof (normalizePortalPrefix_ok (VStr (pathname parsed))) as N.
  destruct (normalizePortalPrefix (VStr (pathname parsed))) as [[|a r]|];
    [|exact N|]; destruct (bool_decide _); reflexivity.
Qed.

(** X6.  The stores the SDK makes.  The store built from the environment,
    and every store [configure] and [setEnabled] leave from such a
    store, whether [configure] returns or throws, has a cloud level that
    is null or one of 10, 20, 30, 40 and 45, a finite time-out, and a
    portal prefix that is null, empty, or a slash followed by a text
    that neither starts nor ends with a slash; the prefix
    [resolvedPortalPrefix] gives for such a store is empty or of that
    form too. *)
Theorem store_stays_well_formed :
  (forall env cfg, buildClientConfigFromEnv env = Ok cfg -> store_ok cfg = true)
  /\ (forall options cfg,
        store_ok cfg = true -> store_ok (configure options cfg).1 = true)
  /\ (forall v cfg, store_ok cfg = true -> store_ok (setEnabled v cfg) = true)
  /\ (forall cfg, store_ok cfg = true ->
        prefix_ok (Some (resolvedPortalPrefix cfg)) = true).
Proof.
  split; [exact env_store_ok|]. split; [exact configure_keeps_store_ok|].
  split; [|exact resolved_prefix_ok].
  intros v cfg H. apply store_ok_fields in H. apply store_ok_fields.
  unfold setEnabled. fields. exact H.
Qed.

End StoreShape.

(** ** The MCP tool descriptors *)

Section McpTools.

Context {parser : Node}.

Lemma clean_string (s : string) : clean (VStr s) = trim s.
Proof. unfold clean. rewrite or_else_string. destruct s; reflexivity. Qed.

Lemma clean_trimmed (v : Val) : trim (clean v) = clean v.
Proof. unfold clean. apply trim_idem. Qed.

Lemma pick_cons (v : Val) (rest : list Val) :
  pick (v :: rest) = if is_empty (clean v) then pick rest else clean v.
Proof. cbn [pick]. rewrite truthy_string. destruct (is_empty (clean v)); reflexivity. Qed.

Lemma pick_trimmed (values : list Val) : trim (pick values) = pick values.
Proof.
  induction values as [|v rest IH]; [reflexivity|].
  rewrite pick_cons. destruct (is_empty (clean v)); [exact IH | apply clean_trimmed].
Qed.

(** [pick] gives the empty string exactly when every candidate is blank. *)
Lemma pick_empty (values : list Val) :
  pick values = EmptyString <-> Forall (fun v => clean v = EmptyString) values.
Proof.
  induction values as [|v rest IH];
    [split; [intros _; apply Forall_nil_2 | reflexivity]|].
  rewrite pick_cons, Forall_cons.
  destruct (is_empty (clean v)) eqn:E.
  - apply is_empty_true in E. rewrite IH. tauto.
  - apply is_empty_false in E. tauto.
Qed.

Lemma pick_default (v : Val) (d : string) :
  trim d <> EmptyString -> pick [v; VStr d] <> EmptyString.
Proof.
  intros H P. apply pick_empty in P. apply Forall_cons in P as [_ P].
  apply Forall_cons in P as [P _]. rewrite clean_string in P. contradiction.
Qed.

Lemma pick_unset (env : gmap string string) (name d : string) :
  env !! name = None -> pick [getenv env name; VStr d] = trim d.
Proof.
  intros E. unfold getenv. rewrite E. rewrite pick_cons.
  change (clean VUndefined) with EmptyString. cbn [is_empty].
  rewrite pick_cons, clean_string. destruct (is_empty (trim d)) eqn:T; [|reflexivity].
  apply is_empty_true in T. rewrite T. reflexivity.
Qed.

Lemma buildHeaders_default (env : gmap string string) (key user : string) :
  env !! "ALSHIVAL_MCP_API_KEY_HEADER" = None ->
  env !! "ALSHIVAL_MCP_USERNAME_HEADER" = None ->
  let headers := buildHeaders env key user in
  headers !! "accept" = Some "application/json, text/event-stream"
  /\ headers !! "x-api-key" = (if is_empty key then None else Some key)
  /\ headers !! "x-user-username" = (if is_empty user then None else Some user)
  /\ (forall name, is_Some (headers !! name) ->
        name ∈ ["x-api-key"; "x-user-username"; "accept"]).
Proof.
  intros E1 E2. cbv zeta. unfold buildHeaders.
  rewrite (pick_unset env _ _ E1), (pick_unset env _ _ E2).
  change (trim "x-api-key") with "x-api-key".
  change (trim "x-user-username") with "x-user-username".
  rewrite !truthy_string. unfold set_header.
  rewrite !decide_False by discriminate.
  split; [apply lookup_insert_eq|]. rewrite !lookup_insert_ne by discriminate.
  destruct (is_empty key), (is_empty user); cbn [negb];
    rewrite ?lookup_insert_eq, ?lookup_insert_ne, ?lookup_empty by discriminate;
    (split; [reflexivity|]); (split; [reflexivity|]);
    intros name [x Hx];
    repeat (apply lookup_insert_Some in Hx as [[<- _]|[_ Hx]]; [compute_done|]);
    rewrite lookup_empty in Hx; discriminate Hx.
Qed.

(** The identity headers of a descriptor, with the header names at their
    defaults. *)
Lemma mcpTool_identity_keys (env : gmap string string) (cfg : Config) :
  env !! "ALSHIVAL_MCP_API_KEY_HEADER" = None ->
  env !! "ALSHIVAL_MCP_USERNAME_HEADER" = None ->
  forall serverUrl apiKey username requireApproval,
  let tool := mcpTool env cfg serverUrl apiKey username requireApproval in
  let key := pick [apiKey; Client.apiKey cfg; getenv env "ALSHIVAL_API_KEY"] in
  let user := pick [username; Client.username cfg; getenv env "ALSHIVAL_USERNAME"] in
  tool_headers tool !! "x-api-key" = (if is_empty key then None else Some key)
  /\ tool_headers tool !! "x-user-username"
     = (if is_empty user then None else Some user).
Proof.
  intros E1 E2 serverUrl apiKey username requireApproval. cbv zeta.
  unfold mcpTool, buildTool, resolvedIdentity. cbn [tool_headers].
  destruct (buildHeaders_default env
              (pick [apiKey; Client.apiKey cfg; getenv env "ALSHIVAL_API_KEY"])
              (pick [username; Client.username cfg; getenv env "ALSHIVAL_USERNAME"])
              E1 E2) as (_ & K & U & _).
  split; assumption.
Qed.

(** X7.  What [mcpTool] returns.  The server URL and the approval mode
    are never empty: a blank argument falls back to the environment and
    then to the default.  With the header names at their defaults the
    headers are [accept] and, for the API key and the user name, the
    first of argument, store and environment that is not blank, trimmed;
    a header is left out exactly when all three are blank, so no header
    carries a blank value.  [githubMcpTool] gives the same headers and
    approval mode, and a server URL that is never empty either. *)
Theorem mcpTool_identity (env : gmap string string) (cfg : Config)
    (serverUrl apiKey username requireApproval : Val) :
  let tool := mcpTool env cfg serverUrl apiKey username requireApproval in
  let key := pick [apiKey; Client.apiKey cfg; getenv env "ALSHIVAL_API_KEY"] in
  let user := pick [username; Client.username cfg; getenv env "ALSHIVAL_USERNAME"] in
  server_url tool
  = pick [serverUrl; getenv env "ALSHIVAL_MCP_URL"; VStr DEFAULT_MCP_URL]
  /\ server_url tool <> EmptyString
  /\ require_approval tool <> EmptyString
  /\ (key = EmptyString
      <-> clean apiKey = EmptyString /\ clean (Client.apiKey cfg) = EmptyString
          /\ clean (getenv env "ALSHIVAL_API_KEY") = EmptyString)
  /\ (env !! "ALSHIVAL_MCP_API_KEY_HEADER" = None ->
      env !! "ALSHIVAL_MCP_USERNAME_HEADER" = None ->
      tool_headers tool !! "x-api-key" = (if is_empty key then None else Some key)
      /\ tool_headers tool !! "x-user-username"
         = (if is_empty user then None else Some user)
      /\ (forall name, is_Some (tool_headers tool !! name) ->
            name ∈ ["x-api-key"; "x-user-username"; "accept"])
      /\ (forall name value, tool_headers tool !! name = Some value ->
            trim value = value /\ value <> EmptyString))
  /\ (let github := githubMcpTool env cfg serverUrl apiKey username requireApproval in
      tool_headers github = tool_headers tool
      /\ require_approval github = require_approval tool
      /\ server_url github <> EmptyString).
Proof.
  cbv zeta. unfold mcpTool, githubMcpTool, buildTool, resolvedIdentity.
  cbn [server_url require_approval tool_headers].
  rewrite !clean_string, !pick_trimmed.
  split; [reflexivity|]. split; [|split; [|split; [|split]]].
  - intros P. apply pick_empty in P.
    apply Forall_cons in P as [_ P]. apply Forall_cons in P as [_ P].
    apply Forall_cons in P as [P _]. revert P. vm_compute. discriminate.
  - unfold resolvedRequireApproval. intros P. apply pick_empty in P.
    apply Forall_cons in P as [_ P]. apply Forall_cons in P as [_ P].
    apply Forall_cons in P as [P _]. revert P. vm_compute. discriminate.
  - rewrite pick_empty, !Forall_cons. split; [tauto|].
    intros (A & B & C). repeat split; try assumption. apply Forall_nil_2.
  - intros E1 E2.
    pose proof (pick_trimmed [apiKey; Client.apiKey cfg; getenv env "ALSHIVAL_API_KEY"])
      as Tk.
    pose proof (pick_trimmed [username; Client.username cfg;
                              getenv env "ALSHIVAL_USERNAME"]) as Tu.
    set (key := pick [apiKey; _; _]) in *. set (user := pick [username; _; _]) in *.
    clearbody key user.
    destruct (buildHeaders_default env key user E1 E2) as (A & K & U & D).
    split; [exact K|]. split; [exact U|]. split; [exact D|].
    intros name value H. specialize (D name (ex_intro _ value H)).
    repeat (apply elem_of_cons in D as [->|D]).
    + rewrite K in H. destruct (is_empty key) eqn:E; [discriminate H|].
      injection H as <-. split; [exact Tk | apply is_empty_false, E].
    + rewrite U in H. destruct (is_empty user) eqn:E; [discriminate H|].
      injection H as <-. split; [exact Tu | apply is_empty_false, E].
    + rewrite A in H. injection H as <-. split; [reflexivity | discriminate].
    + inversion D.
  - split; [reflexivity|]. split; [reflexivity|].
    intros P. apply pick_empty in P.
    apply Forall_cons in P as [_ P]. apply Forall_cons in P as [_ P].
    apply Forall_cons in P as [P _]. revert P. vm_compute. discriminate.
Qed.

End McpTools.

Lemma mcpTool_identity_witness :
  tool_headers (mcpTool ∅ Samples.ready_config VUndefined (VStr "  ") VUndefined VNull)
    !! "x-api-key"
  = (if is_empty (pick [VStr "  "; Client.apiKey Samples.ready_config;
                         getenv ∅ "ALSHIVAL_API_KEY"])
     then None
     else Some (pick [VStr "  "; Client.apiKey Samples.ready_config;
                      getenv ∅ "ALSHIVAL_API_KEY"])).
Proof.
  destruct (mcpTool_identity ∅ Samples.ready_config VUndefined (VStr "  ") VUndefined
              VNull) as (_ & _ & _ & _ & H & _).
  exact (proj1 (H eq_refl eq_refl)).
Defined.

Section McpRefresh.

Context {parser : Node}.

Lemma resource_step_throws (options : gmap string Val) (cfg : Config) (e : Thrown) :
  resource_step options cfg = Throw e -> e = URIError.
Proof.
  unfold resource_step, apply_resource.
  destruct (is_undefined _); [discriminate|].
  destruct (parseResourceReference _) as [[r|]|e'] eqn:P; cbn [bind]; try discriminate.
  intros [= <-]. exact (parseResourceReference_throws _ _ P).
Qed.

(** X8.  [configure] and the descriptor [mcp].  A call of [configure]
    that returns leaves [mcp] with the fields [mcpTool()] gives for the
    new store.  A call that throws leaves [mcp] as it was; when it
    throws on its cloud level and also supplies an API key that is not
    blank, the store already holds the new key, so [mcp] keeps the
    header of the old store while [mcpTool()] gives the new key. *)
Theorem failed_configure_leaves_mcp_stale (env : gmap string string)
    (options : gmap string Val) (cfg : Config) (mcp : Tool) :
  let out := configure_and_refresh env options (cfg, mcp) in
  out.1.1 = (configure options cfg).1
  /\ out.2 = (configure options cfg).2
  /\ (out.2 = None -> out.1.2 = refreshMcp env out.1.1)
  /\ (out.2 <> None -> out.1.2 = mcp)
  /\ (forall k,
        out.2 = Some InvalidLevel ->
        get2 options "apiKey" "api_key" = VStr k -> trim k <> EmptyString ->
        env !! "ALSHIVAL_MCP_API_KEY_HEADER" = None ->
        env !! "ALSHIVAL_MCP_USERNAME_HEADER" = None ->
        Client.apiKey out.1.1 = VStr k
        /\ tool_headers (refreshMcp env out.1.1) !! "x-api-key" = Some (trim k)).
Proof.
  cbv zeta. unfold configure_and_refresh. cbn [fst snd].
  destruct (configure options cfg) as [cfg' [e|]] eqn:C; cbn [fst snd].
  - split; [reflexivity|]. split; [reflexivity|]. split; [discriminate|].
    split; [reflexivity|].
    intros k [= ->] G T E1 E2.
    assert (A : Client.apiKey cfg' = VStr k).
    { destruct (resource_step options cfg) as [c1|e] eqn:R.
      - pose proof (configure_early_fields options cfg c1 R) as F. cbv zeta in F.
        rewrite C in F. cbn [fst] in F. destruct F as (_ & F & _).
        rewrite G in F. exact F.
      - rewrite configure_steps, R in C. injection C as _ C.
        apply resource_step_throws in R. congruence. }
    split; [exact A|].
    destruct (mcpTool_identity_keys env cfg' E1 E2 VUndefined VUndefined VUndefined
                VUndefined) as [K _].
    unfold refreshMcp. rewrite K, A, !pick_cons.
    change (clean VUndefined) with EmptyString. cbn [is_empty].
    rewrite clean_string.
    destruct (is_empty (trim k)) eqn:E; [apply is_empty_true in E; contradiction|].
    rewrite E. reflexivity.
  - split; [reflexivity|]. split; [reflexivity|]. split; [reflexivity|].
    split; [intros N; contradiction|]. discriminate.
Qed.

End McpRefresh.

Lemma failed_configure_leaves_mcp_stale_witness :
  let options : gmap string Val :=
    {[ "apiKey" := VStr "new-key"; "cloudLevel" := VStr "verbose" ]} in
  let mcp := refreshMcp ∅ Samples.ready_config in
  let out := configure_and_refresh ∅ options (Samples.ready_config, mcp) in
  out.2 = Some InvalidLevel
  /\ tool_headers out.1.2 !! "x-api-key" = Some "k"
  /\ Client.apiKey out.1.1 = VStr "new-key"
  /\ tool_headers (refreshMcp ∅ out.1.1) !! "x-api-key" = Some "new-key".
Proof.
  cbv zeta.
  split; [vm_compute; reflexivity|]. split; [vm_compute; reflexivity|].
  destruct (failed_configure_leaves_mcp_stale ∅
              {[ "apiKey" := VStr "new-key"; "cloudLevel" := VStr "verbose" ]}
              Samples.ready_config (refreshMcp ∅ Samples.ready_config))
    as (_ & _ & _ & _ & K).
  apply (K "new-key");
    [vm_compute; reflexivity | reflexivity | discriminate | reflexivity | reflexivity].
Defined.

(** ** From a configured resource to the endpoint, on the plain-URL parser *)

Section ConfiguredEndpoint.

(** What [new URL] answers has one of the two schemes and a host name of
    the model. *)
Lemma URL_parse_host (input : string) (parsed : URL) :
  URL_parse input = Some parsed ->
  (protocol parsed = "https:" \/ protocol parsed = "http:")
  /\ host_ok (host parsed) = true /\ hostname parsed = host parsed.
Proof.
  unfold URL_parse.
  set (s := remove_chars _ _).
  assert (S : forall scheme rest, parse_scheme s = Some (scheme, rest) ->
                scheme = "https:" \/ scheme = "http:").
  { unfold parse_scheme. intros scheme rest.
    destruct (strip_prefix_ci "https:" s); [intros [= <- _]; auto|].
    destruct (strip_prefix_ci "http:" s); [intros [= <- _]; auto | discriminate]. }
  destruct (parse_scheme s) as [[scheme rest]|]; [|discriminate].
  specialize (S scheme rest eq_refl). unfold parse_host.
  destruct (host_ok _) eqn:H; [|discriminate].
  intros [= <-]. cbn [protocol host hostname]. auto.
Qed.

(** Scheme and host alone parse to themselves, with the path [/]. *)
Lemma URL_parse_origin (scheme h : string) :
  scheme = "https:" \/ scheme = "http:" -> host_ok h = true ->
  URL_parse (scheme +:+ "//" +:+ h)
  = Some {| protocol := scheme; host := h; hostname := h; pathname := "/" |}.
Proof.
  intros Hs Hh. destruct (host_ok_chars h Hh) as [Hc Hne].
  pose proof (host_is_plain h Hc) as Hp.
  assert (N : forall q, (forall a, is_plain a = true -> q a = false) ->
                forall_string (fun a => negb (q a)) (scheme +:+ "//") = true ->
                forall_string (fun a => negb (q a)) (scheme +:+ "//" +:+ h) = true).
  { intros q Hq Hl. rewrite <- append_assoc, forall_string_app, Hl.
    exact (plain_none q h Hq Hp). }
  unfold URL_parse.
  rewrite drop_start_none
    by (apply N; [intros a Ha; apply (plain_char a Ha)
                 | destruct Hs as [->| ->]; reflexivity]).
  rewrite drop_end_none
    by (apply N; [intros a Ha; apply (plain_char a Ha)
                 | destruct Hs as [->| ->]; reflexivity]).
  rewrite remove_chars_none
    by (apply N; [intros a Ha; apply (plain_char a Ha)
                 | destruct Hs as [->| ->]; reflexivity]).
  assert (P : parse_scheme (scheme +:+ "//" +:+ h)
              = Some (scheme, String "/" (String "/" h)))
    by (destruct Hs as [->| ->]; reflexivity).
  rewrite P. cbv beta iota.
  change (drop_start is_path_sep (String "/" (String "/" h)))
    with (drop_start is_path_sep h).
  assert (Hsep : forall_string (fun a => negb (is_path_sep a)) h = true)
    by (apply plain_none; [intros a Ha; apply (plain_char a Ha) | exact Hp]).
  assert (Hauth : forall_string (fun a => negb (ends_authority a)) h = true)
    by (apply plain_none; [intros a Ha; apply (plain_char a Ha) | exact Hp]).
  rewrite (drop_start_none is_path_sep h Hsep).
  rewrite (take_until_none ends_authority h Hauth).
  rewrite (drop_until_none ends_authority h Hauth).
  unfold parse_host. rewrite (host_is_lower h Hc), Hh. reflexivity.
Qed.

Lemma percent_is_ascii (a : ascii) : forall_string is_ascii (percent a) = true.
Proof.
  destruct a as [b0 b1 b2 b3 b4 b5 b6 b7].
  destruct b0, b1, b2, b3, b4, b5, b6, b7; vm_compute; reflexivity.
Qed.

Lemma percent_encode_ascii (keep : ascii -> bool) (s : string) :
  (forall a, keep a = true -> is_ascii a = true) ->
  forall_string is_ascii (percent_encode keep s) = true.
Proof.
  intros K. induction s as [|a r IH]; [reflexivity|]. cbn [percent_encode].
  destruct (keep a) eqn:E.
  - cbn [forall_string]. rewrite (K a E), IH. reflexivity.
  - rewrite forall_string_app, percent_is_ascii, IH. reflexivity.
Qed.

Lemma path_keep_ascii (a : ascii) : path_keep a = true -> is_ascii a = true.
Proof.
  destruct a as [b0 b1 b2 b3 b4 b5 b6 b7].
  destruct b0, b1, b2, b3, b4, b5, b6, b7; vm_compute;
    intros H; try discriminate H; reflexivity.
Qed.

Lemma path_state_ascii (segs : list string) :
  forall path,
    Forall (fun s => forall_string is_ascii s = true) path ->
    Forall (fun s => forall_string is_ascii s = true) (path_state path segs).
Proof.
  assert (A : forall path s,
            Forall (fun s => forall_string is_ascii s = true) path ->
            Forall (fun s => forall_string is_ascii s = true)
              (path ++ [percent_encode path_keep s])).
  { intros path s H. apply Forall_app. split; [exact H|].
    apply Forall_cons. split; [|apply Forall_nil_2].
    apply percent_encode_ascii, path_keep_ascii. }
  assert (B : forall path,
            Forall (fun s => forall_string is_ascii s = true) path ->
            Forall (fun s => forall_string is_ascii s = true) (path ++ [EmptyString])).
  { intros path H. apply Forall_app. split; [exact H|].
    apply Forall_cons. split; [reflexivity | apply Forall_nil_2]. }
  induction segs as [|s r IH]; intros path H; [exact H|].
  destruct r as [|s' r'].
  - cbn [path_state]. destruct (is_double_dot s); [apply B, Forall_removelast, H|].
    destruct (is_single_dot s); [apply B, H | apply A, H].
  - change (path_state path (s :: s' :: r'))
      with (if is_double_dot s then path_state (removelast path) (s' :: r')
            else if is_single_dot s then path_state path (s' :: r')
            else path_state (path ++ [percent_encode path_keep s]) (s' :: r')).
    destruct (is_double_dot s); [apply IH, Forall_removelast, H|].
    destruct (is_single_dot s); [apply IH, H | apply IH, A, H].
Qed.

(** The path [new URL] answers is made of ASCII characters. *)
Lemma URL_parse_path (input : string) (parsed : URL) :
  URL_parse input = Some parsed -> forall_string is_ascii (pathname parsed) = true.
Proof.
  unfold URL_parse. destruct (parse_scheme _) as [[scheme rest]|]; [|discriminate].
  destruct (parse_host _); [|discriminate]. intros [= <-]. cbn [pathname].
  unfold parse_path. apply forall_serialize_path; [reflexivity|].
  apply path_state_ascii, Forall_nil_2.
Qed.

Lemma split_forall (q sep : ascii -> bool) (s : string) :
  forall_string q s = true ->
  Forall (fun x => forall_string q x = true) (split sep s).
Proof.
  induction s as [|a r IH]; cbn [split forall_string]; intros H.
  - apply Forall_cons. split; [reflexivity | apply Forall_nil_2].
  - apply andb_true_iff in H as [Ha Hr]. specialize (IH Hr).
    destruct (sep a).
    + apply Forall_cons. split; [reflexivity | exact IH].
    + destruct (split sep r) as [|h t].
      * apply Forall_cons. split; [cbn; rewrite Ha; reflexivity | apply Forall_nil_2].
      * apply Forall_cons in IH as [Hh Ht]. apply Forall_cons. split; [|exact Ht].
        cbn. rewrite Ha, Hh. reflexivity.
Qed.

Lemma path_segments_forall (q : ascii -> bool) (pathname : string) :
  forall_string q pathname = true ->
  Forall (fun x => forall_string q x = true) (path_segments pathname).
Proof.
  intros H.
  assert (F : Forall (fun x => forall_string q x = true)
                (filter_nonempty (split is_slash pathname))).
  { unfold filter_nonempty. apply Forall_forall. intros x Hx.
    apply list_elem_of_In, filter_In in Hx as [Hx _].
    pose proof (split_forall q is_slash pathname H) as P.
    rewrite Forall_forall in P. apply list_elem_of_In in Hx. exact (P x Hx). }
  unfold path_segments. destruct (last _); [|exact F].
  destruct (decide _); [apply Forall_removelast|]; exact F.
Qed.

(** Owner and id of a path of ASCII characters are well-formed. *)
Lemma decode_segment_well_formed (segments : list string) (i : nat) (o : string) :
  Forall (fun x => forall_string is_ascii x = true) segments ->
  decode_segment segments i = Ok o -> well_formed o = true.
Proof.
  intros F. unfold decode_segment.
  assert (A : forall_string is_ascii (default EmptyString (segments !! i)) = true).
  { destruct (segments !! i) as [s|] eqn:E; [|reflexivity].
    rewrite Forall_forall in F. apply F. exact (list_elem_of_lookup_2 _ _ _ E). }
  destruct (decodeURIComponent _) as [s|e] eqn:D; cbn [bind]; [|discriminate].
  intros [= <-]. apply trim_well_formed.
  exact (decodeURIComponent_well_formed _ _ A D).
Qed.

Lemma decode_segment_trimmed (segments : list string) (i : nat) (o : string) :
  decode_segment segments i = Ok o -> trim o = o.
Proof.
  unfold decode_segment. destruct (decodeURIComponent _) as [s|e]; cbn [bind];
    [|discriminate].
  intros [= <-]. apply trim_idem.
Qed.

(** The parts of a parsed reference: the base is a scheme and a host of
    the model, owner and id are trimmed, well-formed and not empty. *)
Lemma reference_parts (v : Val) (ref : ResourceReference) :
  parseResourceReference v = Ok (Some ref) ->
  (exists scheme h,
      (scheme = "https:" \/ scheme = "http:") /\ host_ok h = true
      /\ ref_baseUrl ref = scheme +:+ "//" +:+ h)
  /\ trim (ref_resourceOwnerUsername ref) = ref_resourceOwnerUsername ref
  /\ ref_resourceOwnerUsername ref <> EmptyString
  /\ trim (ref_resourceId ref) = ref_resourceId ref
  /\ ref_resourceId ref <> EmptyString
  /\ well_formed (ref_resourceOwnerUsername ref) = true
  /\ well_formed (ref_resourceId ref) = true.
Proof.
  intros H. unfold parseResourceReference in H. cbn [new_URL plain_URLs] in H.
  destruct v; try discriminate H;
    (destruct (is_empty _); [discriminate H|];
     destruct (URL_parse _) as [parsed|] eqn:U; [|discriminate H]; cbv zeta in H;
     destruct (URL_parse_host _ _ U) as (Hs & Hh & _);
     pose proof (path_segments_forall is_ascii _ (URL_parse_path _ _ U)) as Fa;
     destruct (find_resource_index _) as [i|]; [|discriminate H];
     destruct (decode_segment _ (i + 1)) as [o|e1] eqn:E1; cbn [bind] in H;
       [|discriminate H];
     destruct (decode_segment _ (i + 3)) as [r|e2] eqn:E2; cbn [bind] in H;
       [|discriminate H];
     destruct (is_empty o || is_empty r) eqn:E; [discriminate H|];
     apply orb_false_iff in E as [Eo Er];
     injection H as <-;
     cbn [ref_baseUrl ref_resourceOwnerUsername ref_resourceId];
     split;
     [ exists (protocol parsed), (host parsed);
       split; [exact Hs|]; split; [exact Hh|];
       destruct (host_ok_chars _ Hh) as [Hc Hne];
       rewrite <- append_assoc; apply strip_one_app; [exact Hne|];
       apply plain_none; [intros a Ha; apply (plain_char a Ha)
                         | apply host_is_plain, Hc]
     | split; [exact (decode_segment_trimmed _ _ _ E1)|];
       split; [apply is_empty_false, Eo|];
       split; [exact (decode_segment_trimmed _ _ _ E2)|];
       split; [apply is_empty_false, Er|];
       split; [exact (decode_segment_well_formed _ _ _ Fa E1)
              | exact (decode_segment_well_formed _ _ _ Fa E2)] ]).
Qed.

Lemma plain_unreserved (a : ascii) : is_plain a = true -> uri_unreserved a = true.
Proof.
  destruct a as [b0 b1 b2 b3 b4 b5 b6 b7].
  destruct b0, b1, b2, b3, b4, b5, b6, b7; vm_compute;
    intros H; try discriminate H; reflexivity.
Qed.

Lemma uri_encode_plain (s : string) :
  forall_string is_plain s = true -> uri_encode s = s.
Proof.
  intros H. apply percent_encode_kept. revert H. apply forall_string_impl.
  exact plain_unreserved.
Qed.

(** X9.  A store configured with a resource reference, and no base URL
    or portal prefix beside it, posts the logs to that resource: the
    endpoint [buildResourceLogsEndpoint] builds for the stored owner and
    id, and the URL of every transport call of an unbound handler for a
    record without an id of its own, is the reference's base URL and
    prefix followed by /u/<owner>/resources/<id>/logs/, owner and id
    encoded.  For the resource URL of a plain host, prefix, owner and id
    that is the URL itself with /logs/ appended to its id.  (Shown on the
    plain-URL parser: for the references it reads.) *)
Theorem configured_resource_is_the_target (options : gmap string Val) (cfg : Config)
    (ref : ResourceReference) :
  parseResourceReference (get options "resource") = Ok (Some ref) ->
  supplied options "baseUrl" "base_url" = false ->
  supplied options "portalPrefix" "portal_prefix" = false ->
  let cfg' := (configure options cfg).1 in
  let target :=
    ref_baseUrl ref +:+ ref_portalPrefix ref +:+ "/u/"
    +:+ uri_encode (ref_resourceOwnerUsername ref) +:+ "/resources/"
    +:+ uri_encode (ref_resourceId ref) +:+ "/logs/" in
  buildResourceLogsEndpoint cfg' (VStr (ref_resourceOwnerUsername ref))
    (VStr (ref_resourceId ref)) = Ok target
  /\ (forall lvl r req,
        alshival_resource_id r = None ->
        req ∈ calls (emit (new_handler None lvl) cfg' r) -> url req = target)
  /\ (forall host prefix owner id,
        host_ok host = true -> plain_segment prefix -> plain_segment owner ->
        plain_segment id -> ~ (prefix = "u" /\ owner = "resources") ->
        (get options "resource" = VStr (resource_url host prefix owner id)
         /\ toLowerCase id <> "logs")
        \/ get options "resource" = VStr (resource_logs_url host prefix owner id) ->
        target = resource_logs_url host prefix owner id).
Proof.
  intros P Sb Sp. cbv zeta.
  assert (Sr : supplied1 options "resource" = true).
  { unfold supplied1. destruct (get options "resource"); try reflexivity.
    discriminate P. }
  destruct (configure_resource_fields options cfg) as [F _]. cbv zeta in F.
  destruct (F ref Sr P) as (Fo & Fi & Fb & Fp). rewrite Sb in Fb. rewrite Sp in Fp.
  set (cfg' := (configure options cfg).1) in *.
  destruct (reference_parts _ _ P)
    as ((scheme & h & Hs & Hh & B) & To & No & Ti & Ni & Wo & Wi).
  assert (Eb : endpoint_base cfg' = ref_baseUrl ref).
  { rewrite (endpoint_base_parsed cfg' (mkURL scheme h h "/")).
    - rewrite B. reflexivity.
    - rewrite Fb, B. destruct Hs as [->| ->]; discriminate.
    - rewrite Fb, B. exact (URL_parse_origin scheme h Hs Hh). }
  assert (Ep : resolvedPortalPrefix cfg' = ref_portalPrefix ref)
    by (unfold resolvedPortalPrefix; rewrite Fp; reflexivity).
  assert (E : buildResourceLogsEndpoint cfg' (VStr (ref_resourceOwnerUsername ref))
                (VStr (ref_resourceId ref))
              = Ok (ref_baseUrl ref +:+ ref_portalPrefix ref +:+ "/u/"
                    +:+ uri_encode (ref_resourceOwnerUsername ref) +:+ "/resources/"
                    +:+ uri_encode (ref_resourceId ref) +:+ "/logs/")).
  { rewrite <- To at 1. rewrite <- Ti at 1. rewrite endpoint_of_trimmed.
    rewrite To, Ti, Eb, Ep.
    rewrite (encodeURIComponent_well_formed _ Wo),
      (encodeURIComponent_well_formed _ Wi). reflexivity. }
  split; [exact E|]. split.
  - intros lvl r req Hr Hq. rewrite emit_calls in Hq.
    destruct (shouldForward _ cfg' r) eqn:S; cbn [andb] in Hq; [|inversion Hq].
    destruct (is_empty _) eqn:Ee; cbn [negb] in Hq; [inversion Hq|].
    apply shouldForward_conditions in S as (_ & _ & _ & _ & U).
    assert (I : resolves (new_handler None lvl) cfg' r = Some (ref_resourceId ref)).
    { unfold resolves. cbn [handler_resourceId new_handler nonblank].
      rewrite Hr, Fi. cbn [nonblank]. rewrite Ti.
      apply is_empty_false in Ni. rewrite Ni. reflexivity. }
    pose proof (forwarded_request_cases _ cfg' r _ U I) as F'. cbv zeta in F'.
    rewrite F' in Hq. clear F'.
    assert (O : owner_or_username cfg' = VStr (ref_resourceOwnerUsername ref)).
    { unfold owner_or_username. rewrite Fo.
      apply is_empty_false in No. rewrite No. reflexivity. }
    rewrite O in Hq. cbn [ToString] in Hq. rewrite To, Wo, Wi in Hq.
    destruct (extra r); [|inversion Hq]. cbn [andb] in Hq.
    apply list_elem_of_singleton in Hq. subst req. cbn [url].
    rewrite Eb, Ep. reflexivity.
  - intros host prefix owner id Hh' Pp Po Pi Np G.
    assert (R : ref = reference_of host prefix owner id).
    { destruct G as [[G L]|G]; rewrite G in P.
      - rewrite (resource_url_parses host prefix owner id Hh' Pp Po Pi Np L) in P.
        congruence.
      - rewrite (resource_logs_url_parses host prefix owner id Hh' Pp Po Pi Np) in P.
        congruence. }
    rewrite R. cbn [reference_of ref_baseUrl ref_portalPrefix ref_resourceOwnerUsername
                    ref_resourceId].
    destruct Po as (_ & Po & _). destruct Pi as (_ & Pi & _).
    rewrite (uri_encode_plain owner Po), (uri_encode_plain id Pi).
    unfold resource_logs_url. rewrite !append_assoc. reflexivity.
Qed.

End ConfiguredEndpoint.

Lemma configured_resource_is_the_target_witness :
  let options : gmap string Val :=
    {[ "resource" := VStr "https://alshival.ai/DevTools/u/sam/resources/abc-123/";
       "username" := VStr "sam"; "apiKey" := VStr "k" ]} in
  let cfg' := (configure options Samples.reset_config).1 in
  buildResourceLogsEndpoint cfg' (VStr "sam") (VStr "abc-123")
  = Ok "https://alshival.ai/DevTools/u/sam/resources/abc-123/logs/"
  /\ map url (calls (emit (new_handler None None) cfg' Samples.info_record))
     = ["https://alshival.ai/DevTools/u/sam/resources/abc-123/logs/"].
Proof.
  cbv zeta. split; [|vm_compute; reflexivity].
  assert (P : parseResourceReference
                (get {[ "resource" :=
                          VStr "https://alshival.ai/DevTools/u/sam/resources/abc-123/";
                        "username" := VStr "sam"; "apiKey" := VStr "k" ]} "resource")
              = Ok (Some {| ref_baseUrl := "https://alshival.ai";
                            ref_portalPrefix := "/DevTools";
                            ref_resourceOwnerUsername := "sam";
                            ref_resourceId := "abc-123" |}))
    by (vm_compute; reflexivity).
  destruct (configured_resource_is_the_target _ Samples.reset_config _ P) as [E _];
    [vm_compute; reflexivity | vm_compute; reflexivity |].
  cbn [ref_baseUrl ref_portalPrefix ref_resourceOwnerUsername ref_resourceId] in E.
  rewrite E. vm_compute. reflexivity.
Defined.

(** ** From the endpoint back to the reference, on the plain-URL parser *)

Section EndpointRoundTrip.

Lemma encoded_char (a : ascii) :
  is_encoded a = true ->
  is_white_space a = false /\ is_c0_or_space a = false
  /\ is_tab_or_newline a = false /\ is_path_sep a = false /\ ends_path a = false
  /\ ends_authority a = false /\ is_slash a = false /\ path_keep a = true
  /\ starts_white_space a = false.
Proof.
  destruct a as [b0 b1 b2 b3 b4 b5 b6 b7].
  destruct b0, b1, b2, b3, b4, b5, b6, b7; vm_compute;
    intros H; try discriminate H; repeat split.
Qed.

Lemma plain_is_encoded (a : ascii) : is_plain a = true -> is_encoded a = true.
Proof.
  intros H. unfold is_encoded. rewrite (plain_unreserved a H). reflexivity.
Qed.

(** One character through [encodeURIComponent] and back. *)
Lemma percent_char (a : ascii) :
  hex_value (hex_digit (code a / 16)) = Some (code a / 16)%nat
  /\ hex_value (hex_digit (code a mod 16)) = Some (code a mod 16)%nat
  /\ ascii_of_nat (16 * (code a / 16) + code a mod 16) = a
  /\ is_encoded (hex_digit (code a / 16)) = true
  /\ is_encoded (hex_digit (code a mod 16)) = true
  /\ (uri_unreserved a = true -> is_percent a = false).
Proof.
  destruct a as [b0 b1 b2 b3 b4 b5 b6 b7].
  destruct b0, b1, b2, b3, b4, b5, b6, b7; vm_compute; repeat split;
    intros H; try discriminate H; reflexivity.
Qed.

Lemma encode_cons (a : ascii) (r : string) :
  uri_encode (String a r)
  = if uri_unreserved a then String a (uri_encode r)
    else String "%" (String (hex_digit (code a / 16))
                       (String (hex_digit (code a mod 16)) (uri_encode r))).
Proof.
  unfold uri_encode. cbn [percent_encode].
  destruct (uri_unreserved a); reflexivity.
Qed.

Lemma encode_is_encoded (s : string) :
  forall_string is_encoded (uri_encode s) = true.
Proof.
  induction s as [|a r IH]; [reflexivity|]. rewrite encode_cons.
  destruct (uri_unreserved a) eqn:U; cbn [forall_string].
  - unfold is_encoded at 1. rewrite U, IH. reflexivity.
  - destruct (percent_char a) as (_ & _ & _ & H1 & H2 & _).
    rewrite H1, H2, IH. reflexivity.
Qed.

Lemma encode_empty (s : string) : uri_encode s = EmptyString -> s = EmptyString.
Proof.
  destruct s as [|a r]; [reflexivity|]. rewrite encode_cons.
  destruct (uri_unreserved a); discriminate.
Qed.

(** [decodeURIComponent(encodeURIComponent(s))] is [s], for ASCII text. *)
Lemma decode_encode (s : string) :
  forall_string is_ascii s = true ->
  decodeURIComponent (uri_encode s) = Ok s.
Proof.
  intros A.
  assert (U : exists ts,
             unescape (uri_encode s) = Some ts
             /\ string_of_chars (map snd ts) = s
             /\ Forall (fun t => is_ascii t.2 = true) ts).
  { induction s as [|a r IH].
    - exists []. repeat split. apply Forall_nil_2.
    - cbn [forall_string] in A. apply andb_true_iff in A as [Aa Ar].
      destruct (IH Ar) as (ts & E & S & F). rewrite encode_cons.
      destruct (percent_char a) as (H1 & H2 & H3 & _ & _ & H4).
      destruct (uri_unreserved a) eqn:Ua.
      + exists ((false, a) :: ts). cbn [unescape]. rewrite (H4 eq_refl), E.
        split; [reflexivity|]. split; [cbn; rewrite S; reflexivity|].
        apply Forall_cons. split; [exact Aa | exact F].
      + exists ((true, a) :: ts). cbn [unescape]. change (is_percent "%") with true.
        cbv iota. rewrite H1, H2, E, H3.
        split; [reflexivity|]. split; [cbn; rewrite S; reflexivity|].
        apply Forall_cons. split; [exact Aa | exact F]. }
  destruct U as (ts & E & S & F). unfold decodeURIComponent. rewrite E.
  assert (V : utf8_escapes_ok [] ts = true).
  { clear E S. induction F as [|[esc c] ts Hc _ IH]; [reflexivity|].
    cbn [utf8_escapes_ok]. cbn [snd] in Hc. unfold is_ascii in Hc.
    apply Nat.ltb_lt in Hc.
    destruct (Nat.leb_spec 128 (code c)); [lia|].
    rewrite andb_false_r. exact IH. }
  rewrite V, S. reflexivity.
Qed.

(** The dot segments of the URL parser decode to [.] and [..]. *)
Lemma lower_char_inv (c : ascii) :
  (lower_char c = "."%char -> c = "."%char)
  /\ (lower_char c = "%"%char -> c = "%"%char)
  /\ (lower_char c = "2"%char -> c = "2"%char)
  /\ (lower_char c = "e"%char -> c = "e"%char \/ c = "E"%char).
Proof.
  destruct c as [b0 b1 b2 b3 b4 b5 b6 b7].
  destruct b0, b1, b2, b3, b4, b5, b6, b7; vm_compute; repeat split;
    intros H; try discriminate H; auto.
Qed.

Lemma lower_inv (t u : string) :
  ascii_lower t = u ->
  match u with
  | EmptyString => t = EmptyString
  | String x u' => exists c t', t = String c t' /\ lower_char c = x /\ ascii_lower t' = u'
  end.
Proof.
  destruct t as [|c t']; cbn; intros <-; [reflexivity|]. eauto.
Qed.

Ltac lower_cases H :=
  repeat match type of H with
  | ascii_lower ?t = String _ _ =>
      let c := fresh "c" in let t' := fresh "t" in
      let E := fresh "E" in let L := fresh "L" in
      apply lower_inv in H; destruct H as (c & t' & E & L & H); subst t;
      first [ apply (proj1 (lower_char_inv c)) in L; subst c
            | apply (proj1 (proj2 (lower_char_inv c))) in L; subst c
            | apply (proj1 (proj2 (proj2 (lower_char_inv c)))) in L; subst c
            | apply (proj2 (proj2 (proj2 (lower_char_inv c)))) in L;
              destruct L as [L|L]; subst c ]
  | ascii_lower ?t = EmptyString =>
      apply lower_inv in H; subst t
  end.

Lemma dot_segments_decode (t : string) :
  (is_single_dot t = true -> decodeURIComponent t = Ok ".")
  /\ (is_double_dot t = true -> decodeURIComponent t = Ok "..").
Proof.
  unfold is_single_dot, is_double_dot. cbn [existsb]. split; intros H.
  - repeat (apply orb_true_iff in H as [H|H]); try discriminate H;
      apply String.eqb_eq in H; lower_cases H; reflexivity.
  - repeat (apply orb_true_iff in H as [H|H]); try discriminate H;
      apply String.eqb_eq in H; lower_cases H; reflexivity.
Qed.

(** An encoded segment goes through the path state as it is, unless it
    encodes [.] or [..]. *)
Lemma encoded_passes (s : string) :
  forall_string is_ascii s = true -> s <> "." -> s <> ".." ->
  passes (uri_encode s).
Proof.
  intros A N1 N2. pose proof (decode_encode s A) as D.
  destruct (dot_segments_decode (uri_encode s)) as [S1 S2].
  unfold passes. split; [|split].
  - destruct (is_double_dot _); [|reflexivity].
    rewrite (S2 eq_refl) in D. congruence.
  - destruct (is_single_dot _); [|reflexivity].
    rewrite (S1 eq_refl) in D. congruence.
  - apply percent_encode_kept. generalize (encode_is_encoded s).
    apply forall_string_impl. intros a Ha. apply (encoded_char a Ha).
Qed.

(** No character of a URL of scheme, host and encoded segments is one of
    [q], when no encoded character, nor the slash, nor one of the scheme
    is. *)
Lemma encoded_segments_none (q : ascii -> bool) (segs : list string) :
  (forall a, is_encoded a = true -> q a = false) ->
  Forall (fun s => forall_string is_encoded s = true) segs ->
  Forall (fun s => forall_string (fun a => negb (q a)) s = true) segs.
Proof.
  intros Hq He. eapply Forall_impl; [exact He|]. intros s.
  apply forall_string_impl. intros a Ha. rewrite (Hq a Ha). reflexivity.
Qed.

Lemma encoded_url_none (q : ascii -> bool) (scheme h : string) (segs : list string) :
  (forall a, is_encoded a = true -> q a = false) -> q "/"%char = false ->
  forall_string (fun a => negb (q a)) (scheme +:+ "//") = true ->
  host_ok h = true ->
  Forall (fun s => forall_string is_encoded s = true) segs ->
  forall_string (fun a => negb (q a))
    (scheme +:+ "//" +:+ h +:+ serialize_path segs) = true.
Proof.
  intros Hq Hsl Hl Hh He. destruct (host_ok_chars h Hh) as [Hc _].
  rewrite <- (append_assoc scheme "//"), forall_string_app, Hl.
  rewrite forall_string_app.
  rewrite (plain_none q h (fun a Ha => Hq a (plain_is_encoded a Ha))
             (host_is_plain h Hc)).
  apply forall_serialize_path; [rewrite Hsl; reflexivity|].
  exact (encoded_segments_none q segs Hq He).
Qed.

(** [new URL] on a URL of scheme, host and a path of encoded segments
    that are not dot segments. *)
Lemma URL_parse_encoded (scheme h : string) (segs : list string) :
  scheme = "https:" \/ scheme = "http:" -> host_ok h = true -> segs <> [] ->
  Forall (fun s => forall_string is_encoded s = true) segs ->
  Forall passes segs ->
  URL_parse (scheme +:+ "//" +:+ h +:+ serialize_path segs)
  = Some {| protocol := scheme; host := h; hostname := h;
            pathname := serialize_path segs |}.
Proof.
  intros Hs Hh Hn He Hp. destruct (host_ok_chars h Hh) as [Hc Hne].
  pose proof (host_is_plain h Hc) as Hpl.
  unfold URL_parse.
  rewrite drop_start_none
    by (apply encoded_url_none; try assumption;
        [intros a Ha; apply (encoded_char a Ha) | reflexivity
        | destruct Hs as [->| ->]; reflexivity]).
  rewrite drop_end_none
    by (apply encoded_url_none; try assumption;
        [intros a Ha; apply (encoded_char a Ha) | reflexivity
        | destruct Hs as [->| ->]; reflexivity]).
  rewrite remove_chars_none
    by (apply encoded_url_none; try assumption;
        [intros a Ha; apply (encoded_char a Ha) | reflexivity
        | destruct Hs as [->| ->]; reflexivity]).
  assert (P : parse_scheme (scheme +:+ "//" +:+ h +:+ serialize_path segs)
              = Some (scheme, String "/" (String "/" (h +:+ serialize_path segs))))
    by (destruct Hs as [->| ->]; reflexivity).
  rewrite P. cbv beta iota.
  change (drop_start is_path_sep (String "/" (String "/" (h +:+ serialize_path segs))))
    with (drop_start is_path_sep (h +:+ serialize_path segs)).
  destruct segs as [|s r]; [contradiction|].
  change (serialize_path (s :: r)) with (String "/" (s +:+ serialize_path r)).
  assert (Hsep : forall_string (fun a => negb (is_path_sep a)) h = true)
    by (apply plain_none; [intros a Ha; apply (plain_char a Ha) | exact Hpl]).
  assert (Hauth : forall_string (fun a => negb (ends_authority a)) h = true)
    by (apply plain_none; [intros a Ha; apply (plain_char a Ha) | exact Hpl]).
  rewrite drop_start_fixed.
  2:{ destruct h as [|a t]; [contradiction|].
      cbn [forall_string] in Hsep. apply andb_true_iff in Hsep as [Ha _]. exact Ha. }
  rewrite (take_until_app ends_authority h "/" _ Hauth eq_refl).
  rewrite (drop_until_app ends_authority h "/" _ Hauth eq_refl).
  unfold parse_host. rewrite (host_is_lower h Hc), Hh.
  change (String "/" (s +:+ serialize_path r)) with (serialize_path (s :: r)).
  rewrite parse_path_serialized; [reflexivity| | | |discriminate].
  - exact Hp.
  - apply encoded_segments_none; [intros a Ha; apply (encoded_char a Ha) | exact He].
  - apply encoded_segments_none; [intros a Ha; apply (encoded_char a Ha) | exact He].
Qed.

(** The base of an endpoint is a scheme and a host of the model. *)
Lemma endpoint_base_origin (cfg : Config) :
  exists scheme h,
    (scheme = "https:" \/ scheme = "http:") /\ host_ok h = true
    /\ endpoint_base cfg = scheme +:+ "//" +:+ h.
Proof.
  unfold endpoint_base. cbn [new_URL plain_URLs].
  destruct (URL_parse _) as [parsed|] eqn:U.
  - destruct (URL_parse_host _ _ U) as (Hs & Hh & _).
    exists (protocol parsed), (host parsed). auto.
  - exists "https:", "alshival.dev". split; [auto|]. split; reflexivity.
Qed.

(** What [parseResourceReference] makes of scheme, host, a plain prefix
    and the path /u/<owner>/resources/<id>/logs/ with owner and id
    encoded. *)
Lemma built_url_parses (scheme h : string) (pre : list string) (o i : string) :
  scheme = "https:" \/ scheme = "http:" -> host_ok h = true ->
  Forall plain_segment pre -> "u" ∉ pre ->
  forall_string is_ascii o = true -> forall_string is_ascii i = true ->
  trim o = o -> trim i = i -> o <> EmptyString -> i <> EmptyString ->
  o <> "." -> o <> ".." -> i <> "." -> i <> ".." ->
  parseResourceReference
    (VStr (scheme +:+ "//" +:+ h
           +:+ serialize_path (pre ++ ["u"; uri_encode o; "resources";
                                       uri_encode i; "logs"; EmptyString])))
  = Ok (Some {| ref_baseUrl := scheme +:+ "//" +:+ h;
                ref_portalPrefix := serialize_path pre;
                ref_resourceOwnerUsername := o;
                ref_resourceId := i |}).
Proof.
  intros Hs Hh Hpre Hu Ao Ai To Ti No Ni Do1 Do2 Di1 Di2.
  set (eo := uri_encode o). set (ei := uri_encode i).
  set (tail := ["u"; eo; "resources"; ei; "logs"; EmptyString]).
  destruct literal_passes as (Pu & Pr & Pl & Pe).
  assert (Fe : Forall (fun s => forall_string is_encoded s = true) (pre ++ tail)).
  { apply Forall_app. split.
    - eapply Forall_impl; [exact Hpre|]. intros s (_ & Ps & _). revert Ps.
      apply forall_string_impl. exact plain_is_encoded.
    - repeat (apply Forall_cons; split); try reflexivity; try apply Forall_nil_2;
        apply encode_is_encoded. }
  assert (Fp : Forall passes (pre ++ tail)).
  { apply Forall_app. split.
    - eapply Forall_impl; [exact Hpre|]. intros s (_ & Ps & D1 & D2).
      exact (plain_segment_passes s Ps D1 D2).
    - repeat (apply Forall_cons; split); try assumption; try apply Forall_nil_2;
        apply encoded_passes; assumption. }
  assert (Nt : pre ++ tail <> []) by (destruct pre; discriminate).
  pose proof (URL_parse_encoded scheme h (pre ++ tail) Hs Hh Nt Fe Fp) as U.
  set (raw := scheme +:+ "//" +:+ h +:+ serialize_path (pre ++ tail)) in *.
  assert (T : trim raw = raw).
  { apply trim_fixed.
    apply encoded_url_none; try assumption;
      [intros a Ha; apply (encoded_char a Ha) | reflexivity
      | destruct Hs as [->| ->]; reflexivity]. }
  assert (E : is_empty raw = false) by (destruct Hs as [->| ->]; reflexivity).
  assert (Eo : is_empty eo = false).
  { apply is_empty_false. intros X. apply No. exact (encode_empty o X). }
  assert (Ei : is_empty ei = false).
  { apply is_empty_false. intros X. apply Ni. exact (encode_empty i X). }
  assert (Sg : path_segments (serialize_path (pre ++ tail))
               = pre ++ ["u"; eo; "resources"; ei]).
  { unfold path_segments.
    rewrite split_serialized_path; [|reflexivity| |exact Nt].
    2:{ apply encoded_segments_none; [intros a Ha; apply (encoded_char a Ha)|exact Fe]. }
    assert (F : filter_nonempty (EmptyString :: pre ++ tail)
                = (pre ++ ["u"; eo; "resources"; ei]) ++ ["logs"]).
    { unfold filter_nonempty. cbn [List.filter is_empty negb].
      rewrite List.filter_app. subst tail. cbn [List.filter is_empty negb].
      rewrite Eo, Ei. cbn [negb]. rewrite <- app_assoc. f_equal.
      clear -Hpre. induction Hpre as [|s r (Hs & _) _ IH]; [reflexivity|].
      cbn [List.filter]. apply is_empty_false in Hs. rewrite Hs. cbn [negb].
      rewrite IH. reflexivity. }
    rewrite F, last_snoc. rewrite decide_True by reflexivity.
    apply removelast_last. }
  set (segments := pre ++ ["u"; eo; "resources"; ei]) in *.
  assert (L : forall k, segments !! (length pre + k)%nat
                        = ["u"; eo; "resources"; ei] !! k).
  { intros k. unfold segments. rewrite lookup_app_r by lia. f_equal. lia. }
  assert (Ix : find_resource_index segments = Some (length pre)).
  { apply find_resource_index_unique.
    - unfold pattern_at. rewrite (L 2%nat).
      replace (length pre) with (length pre + 0)%nat at 1 by lia. rewrite (L 0%nat).
      split; [reflexivity|]. split; [reflexivity|].
      unfold segments. rewrite length_app. cbn [length]. lia.
    - intros j Hj (Pj & _). unfold segments in Pj.
      rewrite lookup_app_l in Pj by exact Hj.
      apply Hu. exact (list_elem_of_lookup_2 _ _ _ Pj). }
  unfold parseResourceReference. cbn [ToString new_URL plain_URLs].
  rewrite T, E, U. cbv zeta.
  cbn [pathname protocol host]. rewrite Sg, Ix.
  unfold decode_segment. rewrite (L 1%nat), (L 3%nat).
  change (["u"; eo; "resources"; ei] !! 1%nat) with (Some eo).
  change (["u"; eo; "resources"; ei] !! 3%nat) with (Some ei).
  change (default EmptyString (Some eo)) with eo.
  change (default EmptyString (Some ei)) with ei. unfold eo, ei.
  rewrite (decode_encode o Ao), (decode_encode i Ai). cbn [bind].
  rewrite To, Ti.
  apply is_empty_false in No. apply is_empty_false in Ni. rewrite No, Ni. cbn [orb].
  unfold segments. rewrite take_app_length.
  f_equal. f_equal.
  assert (B : strip_one_trailing_slash (scheme +:+ "//" +:+ h) = scheme +:+ "//" +:+ h).
  { destruct (host_ok_chars h Hh) as [Hc Hne].
    rewrite <- append_assoc. apply strip_one_app; [exact Hne|].
    apply plain_none; [intros a Ha; apply (plain_char a Ha) | apply host_is_plain, Hc]. }
  rewrite B. f_equal.
  destruct pre as [|x l]; [reflexivity|].
  rewrite join_serialized by discriminate.
  apply Forall_cons in Hpre as [(Nx & _) _].
  rewrite decide_False; [reflexivity|].
  change (serialize_path (x :: l)) with (String "/" (x +:+ serialize_path l)).
  destruct x; [contradiction | discriminate].
Qed.

(** X10.  The endpoint parses back.  For an ASCII owner and id that,
    trimmed, are not empty and not [.] or [..], and a store whose
    resolved portal prefix is empty or made of plain segments none of
    which is [u], [parseResourceReference] reads the URL that
    [buildResourceLogsEndpoint] builds as the reference with the base of
    the endpoint, that prefix, and the trimmed owner and id: the
    percent-encoding of owner and id is undone, and the trailing [logs]
    is not taken for the id.  (Shown on the plain-URL parser.) *)
Theorem endpoint_parses_back (cfg : Config) (owner id : string) (pre : list string) :
  forall_string is_ascii (trim owner) = true ->
  forall_string is_ascii (trim id) = true ->
  trim owner ∉ [EmptyString; "."; ".."] -> trim id ∉ [EmptyString; "."; ".."] ->
  resolvedPortalPrefix cfg = serialize_path pre ->
  Forall plain_segment pre -> "u" ∉ pre ->
  exists endpoint,
    buildResourceLogsEndpoint cfg (VStr owner) (VStr id) = Ok endpoint
    /\ parseResourceReference (VStr endpoint)
       = Ok (Some {| ref_baseUrl := endpoint_base cfg;
                     ref_portalPrefix := resolvedPortalPrefix cfg;
                     ref_resourceOwnerUsername := trim owner;
                     ref_resourceId := trim id |}).
Proof.
  intros Ao Ai Do Di Hp Hpre Hu.
  destruct (endpoint_base_origin cfg) as (scheme & h & Hs & Hh & B).
  assert (C : forall x, trim (ToString (or_else (VStr x) (VStr EmptyString))) = trim x).
  { intros x. rewrite or_else_string. destruct x; reflexivity. }
  unfold buildResourceLogsEndpoint. rewrite !C, B, Hp.
  set (o := trim owner) in *. set (i := trim id) in *.
  rewrite (encodeURIComponent_well_formed o (ascii_well_formed o Ao)),
    (encodeURIComponent_well_formed i (ascii_well_formed i Ai)).
  cbn [bind]. eexists. split; [reflexivity|].
  replace ((scheme +:+ "//" +:+ h) +:+ serialize_path pre +:+ "/u/"
           +:+ uri_encode o +:+ "/resources/" +:+ uri_encode i
           +:+ "/logs/")
    with (scheme +:+ "//" +:+ h
          +:+ serialize_path (pre ++ ["u"; uri_encode o; "resources";
                                      uri_encode i; "logs"; EmptyString])).
  2:{ rewrite serialize_path_app, !append_assoc. reflexivity. }
  apply built_url_parses; try assumption; try apply trim_idem;
    intros X;
    first [ apply Do; rewrite X; compute_done | apply Di; rewrite X; compute_done ].
Qed.

End EndpointRoundTrip.

Lemma endpoint_parses_back_witness :
  exists endpoint,
    buildResourceLogsEndpoint Samples.ready_config (VStr " a/b c ") (VStr "logs")
    = Ok endpoint
    /\ parseResourceReference (VStr endpoint)
       = Ok (Some {| ref_baseUrl := endpoint_base Samples.ready_config;
                     ref_portalPrefix := resolvedPortalPrefix Samples.ready_config;
                     ref_resourceOwnerUsername := trim " a/b c ";
                     ref_resourceId := trim "logs" |}).
Proof.
  apply (endpoint_parses_back Samples.ready_config " a/b c " "logs" []);
    try reflexivity; try apply Forall_nil_2; vm_compute;
    intros H; repeat (apply elem_of_cons in H as [H|H]; [discriminate H|]);
    inversion H.
Defined.

(** ** safeValue *)

Section SafeValues.

Lemma Data_induction (P : Data -> Prop) :
  (forall v, P (DPrim v)) ->
  (forall items, Forall P items -> P (DArray items)) ->
  (forall entries, Forall (fun kv => P kv.2) entries -> P (DObject entries)) ->
  (forall shown, P (DOther shown)) ->
  forall d, P d.
Proof.
  intros Hp Ha Ho Hx. fix IH 1. intros [v|items|entries|shown].
  - apply Hp.
  - apply Ha. induction items as [|d r IHr]; constructor; [apply IH | exact IHr].
  - apply Ho. induction entries as [|[k d] r IHr]; constructor; [apply IH | exact IHr].
  - apply Hx.
Qed.

Lemma put_keys (key : string) (item : Data) (out : list (string * Data)) :
  map fst (put key item out)
  = if bool_decide (key ∈ map fst out) then map fst out else map fst out ++ [key].
Proof.
  induction out as [|[k v] rest IH]; [reflexivity|]. cbn [put map fst].
  destruct (String.eqb_spec k key) as [->|N].
  - rewrite bool_decide_eq_true_2 by (left). reflexivity.
  - cbn [map fst]. rewrite IH.
    destruct (bool_decide_reflect (key ∈ map fst rest)) as [I|I].
    + rewrite bool_decide_eq_true_2 by (right; exact I). reflexivity.
    + rewrite bool_decide_eq_false_2; [reflexivity|].
      intros X. apply elem_of_cons in X as [X|X]; [congruence | contradiction].
Qed.

Lemma put_fresh (key : string) (item : Data) (out : list (string * Data)) :
  key ∉ map fst out -> put key item out = out ++ [(key, item)].
Proof.
  induction out as [|[k v] rest IH]; [reflexivity|]. cbn [put map fst]. intros N.
  destruct (String.eqb_spec k key) as [->|_].
  - exfalso. apply N. left.
  - rewrite IH; [reflexivity|]. intros X. apply N. right. exact X.
Qed.

Lemma put_all (q : string * Data -> bool) (key : string) (item : Data)
    (out : list (string * Data)) :
  q (key, item) = true -> forallb q out = true -> forallb q (put key item out) = true.
Proof.
  intros Hq. induction out as [|[k v] rest IH]; cbn [put forallb].
  - intros _. rewrite Hq. reflexivity.
  - intros H. apply andb_true_iff in H as [H1 H2].
    destruct (String.eqb_spec k key) as [->|_]; cbn [forallb].
    + rewrite Hq, H2. reflexivity.
    + rewrite H1, (IH H2). reflexivity.
Qed.

Lemma put_NoDup (key : string) (item : Data) (out : list (string * Data)) :
  NoDup (map fst out) -> NoDup (map fst (put key item out)).
Proof.
  intros H. rewrite put_keys.
  destruct (bool_decide_reflect (key ∈ map fst out)) as [I|I]; [exact H|].
  apply NoDup_app. split; [exact H|]. split.
  - intros x Hx Hk. apply list_elem_of_singleton in Hk. subst x. contradiction.
  - apply NoDup_singleton.
Qed.

(** What the loop of [safeValue] builds from properties whose values are
    already made safe. *)
Lemma assigned_shape (entries out : list (string * Data)) :
  let q := fun kv : string * Data =>
             negb (String.eqb kv.1 "__proto__") && json_like kv.2 in
  let built := fold_left (fun out kv => assign kv.1 (safeValue kv.2) out) entries out in
  Forall (fun kv => json_like (safeValue kv.2) = true) entries ->
  (forallb q out = true -> forallb q built = true)
  /\ (NoDup (map fst out) -> NoDup (map fst built))
  /\ (forallb (fun kv => distinct_keys kv.2) out = true ->
      Forall (fun kv => distinct_keys (safeValue kv.2) = true) entries ->
      forallb (fun kv => distinct_keys kv.2) built = true).
Proof.
  cbv zeta. intros F. revert out.
  induction F as [|[k d] rest Hd _ IH]; intros out; [cbn; tauto|].
  cbn [fold_left fst snd] in *. specialize (IH (assign k (safeValue d) out)).
  destruct IH as (I1 & I2 & I3). unfold assign in *.
  destruct (String.eqb_spec k "__proto__") as [->|N].
  - split; [exact I1|]. split; [exact I2|]. intros H G.
    apply Forall_cons in G as [_ G]. exact (I3 H G).
  - split; [|split].
    + intros H. apply I1. apply put_all; [|exact H].
      cbn [fst snd]. rewrite Hd.
      destruct (String.eqb_spec k "__proto__"); [contradiction | reflexivity].
    + intros H. apply I2, put_NoDup, H.
    + intros H G. apply Forall_cons in G as [G1 G]. apply I3; [|exact G].
      apply put_all; [exact G1 | exact H].
Qed.

Lemma assigned_fresh (entries out : list (string * Data)) :
  Forall (fun kv => safeValue kv.2 = kv.2) entries ->
  "__proto__" ∉ map fst entries ->
  NoDup (map fst out ++ map fst entries) ->
  fold_left (fun out kv => assign kv.1 (safeValue kv.2) out) entries out
  = out ++ entries.
Proof.
  intros F. revert out. induction F as [|[k d] rest Hd _ IH]; intros out P N.
  - cbn. rewrite app_nil_r. reflexivity.
  - cbn [fold_left fst snd map] in *. rewrite Hd. unfold assign.
    destruct (String.eqb_spec k "__proto__") as [->|_]; [exfalso; apply P; left|].
    apply NoDup_app in N as (N1 & N2 & N3).
    rewrite put_fresh.
    2:{ intros X. apply (N2 k X). left. }
    rewrite IH.
    + rewrite <- app_assoc. reflexivity.
    + intros X. apply P. right. exact X.
    + rewrite map_app. cbn [map fst]. rewrite <- app_assoc. cbn [app].
      apply NoDup_app. split; [exact N1|]. split; [exact N2 | exact N3].
Qed.

Lemma safeValue_json_like (d : Data) :
  json_like (safeValue d) = true /\ distinct_keys (safeValue d) = true.
Proof.
  induction d as [v|items IH|entries IH|shown] using Data_induction;
    [split; reflexivity| | |split; reflexivity].
  - cbn [safeValue json_like distinct_keys]. rewrite !forallb_forall.
    split; intros x Hx; apply in_map_iff in Hx as (y & <- & Hy);
      apply list_elem_of_In in Hy; rewrite Forall_forall in IH;
      destruct (IH y Hy); assumption.
  - cbn [safeValue json_like distinct_keys].
    assert (F1 : Forall (fun kv : string * Data => json_like (safeValue kv.2) = true)
                   entries)
      by (eapply Forall_impl; [exact IH|]; intros kv [H _]; exact H).
    assert (F2 : Forall (fun kv : string * Data =>
                           distinct_keys (safeValue kv.2) = true) entries)
      by (eapply Forall_impl; [exact IH|]; intros kv [_ H]; exact H).
    destruct (assigned_shape entries [] F1) as (A1 & A2 & A3).
    split; [exact (A1 eq_refl)|].
    apply andb_true_iff. split; [|exact (A3 eq_refl F2)].
    apply bool_decide_eq_true. apply A2. apply NoDup_nil_2.
Qed.

Lemma safeValue_fixes (d : Data) :
  json_like d = true -> distinct_keys d = true -> safeValue d = d.
Proof.
  induction d as [v|items IH|entries IH|shown] using Data_induction;
    [reflexivity| | |discriminate].
  - cbn [safeValue json_like distinct_keys]. intros J K. f_equal.
    rewrite forallb_forall in J, K. rewrite Forall_forall in IH.
    rewrite <- (map_id items) at 2. apply map_ext_in. intros x Hx.
    apply IH; [apply list_elem_of_In, Hx | apply J, Hx | apply K, Hx].
  - cbn [safeValue json_like distinct_keys]. intros J K. f_equal.
    apply andb_true_iff in K as [K1 K2]. apply bool_decide_eq_true in K1.
    rewrite forallb_forall in J, K2.
    change entries with ([] ++ entries) at 2. apply assigned_fresh.
    + apply Forall_forall. intros kv Hkv. rewrite Forall_forall in IH.
      pose proof (J kv (proj1 (list_elem_of_In _ _) Hkv)) as Jk.
      apply andb_true_iff in Jk as [_ Jk].
      exact (IH kv Hkv Jk (K2 kv (proj1 (list_elem_of_In _ _) Hkv))).
    + intros X. apply list_elem_of_In, in_map_iff in X as ([k v] & E & Hk).
      cbn [fst] in E. subst k. specialize (J _ Hk). cbn [fst] in J.
      discriminate J.
    + exact K1.
Qed.

(** X11.  [safeValue], on values without cycles.  What it returns is
    made of primitives, arrays and objects only: a function, symbol or
    bigint has become its text, and no object has a property named
    [__proto__].  It is idempotent, and it returns JSON-like data as it
    is: arrays keep their length and order, objects their properties and
    their order. *)
Theorem safeValue_is_json_like (d : Data) :
  json_like (safeValue d) = true
  /\ distinct_keys (safeValue d) = true
  /\ safeValue (safeValue d) = safeValue d
  /\ (json_like d = true -> distinct_keys d = true -> safeValue d = d).
Proof.
  destruct (safeValue_json_like d) as [J K].
  split; [exact J|]. split; [exact K|]. split; [exact (safeValue_fixes _ J K)|].
  exact (safeValue_fixes d).
Qed.

End SafeValues.

(** ** Attached loggers *)

Section ExternalLoggers.

Context {parser : Node}.

Lemma emit_each_result (hs : list CloudLogHandler) (cfg : Config) (r : LogRecord) :
  emit_each hs cfg r = (hs, flat_map (fun h => calls (emit h cfg r)) hs).
Proof.
  pose proof (emit_each_calls hs cfg r) as C.
  destruct (handlers_stay_idle hs (new_handler None None) cfg r) as (_ & K & _).
  destruct (emit_each hs cfg r) as [hs' cs]. cbn [fst snd] in *. congruence.
Qed.

Lemma wrapped_emit_calls (hs : list CloudLogHandler) (cfg : Config)
    (logger text : string) (method : ExternalMethod) (args : list Arg) :
  wrapped_emit hs cfg logger text method args
  = (hs, match buildExternalRecord logger text method args with
         | Ok (Some r) => flat_map (fun h => calls (emit h cfg r)) hs
         | _ => []
         end).
Proof.
  unfold wrapped_emit.
  destruct (buildExternalRecord logger text method args) as [[r|]|e];
    [apply emit_each_result | reflexivity | reflexivity].
Qed.

(** X12.  The wrapper [patchExternalLogger] puts around the methods of
    an attached logger.  After the original method, the record goes to
    the handlers attached to the target, which are left as they were,
    and makes at most one transport call per handler.  The record of
    [debug], [info], [warn]/[warning], [error] and [critical] has level
    10, 20, 30, 40 and 50; the record of [log] has the level its first
    argument coerces to when that is a number, a string or a boolean,
    and level INFO when it is anything else.  A [log] without arguments,
    with a disabling level, or with a level [coerceLevel] rejects makes
    no transport call and throws nothing: the error that
    [AlshivalLogger.log] throws to its caller is swallowed here. *)
Theorem wrapped_method_forwards (hs : list CloudLogHandler) (cfg : Config)
    (logger text : string) (method : ExternalMethod) (args : list Arg) :
  let out := wrapped_emit hs cfg logger text method args in
  let sent n :=
    flat_map (fun h => calls (emit h cfg (external_record logger n text))) hs in
  out.1 = hs
  /\ (length out.2 <= length hs)%nat
  /\ (forall n,
        (method, n) ∈ [(x_debug, 10); (x_info, 20); (x_warn, 30); (x_warning, 30);
                       (x_error, 40); (x_critical, 50)] -> out.2 = sent n)
  /\ (method = x_log ->
      (args = [] -> out.2 = [])
      /\ (forall v rest,
            args = APrim v :: rest ->
            (exists n, v = VNum n) \/ (exists s, v = VStr s) \/ (exists b, v = VBool b) ->
            (forall n, coerceLevel v = Ok (Some n) -> out.2 = sent n)
            /\ (coerceLevel v = Ok None -> out.2 = [])
            /\ (forall e, coerceLevel v = Throw e -> out.2 = []))
      /\ (forall rest,
            args = APrim VUndefined :: rest \/ args = APrim VNull :: rest
            \/ args = ANonPrim :: rest -> out.2 = sent 20)).
Proof.
  cbv beta zeta. rewrite wrapped_emit_calls. cbn [fst snd].
  split; [reflexivity|]. split.
  { destruct (buildExternalRecord _ _ _ _) as [[r|]|e]; cbn [length]; try lia.
    apply flat_map_short. intros h. apply emit_at_most_one. }
  split.
  { intros n H.
    repeat (apply elem_of_cons in H as [[= -> ->]|H]; [reflexivity|]). inversion H. }
  intros ->. split; [intros ->; reflexivity|]. split.
  - intros v rest -> K. unfold buildExternalRecord, normalizedLevelNo.
    destruct K as [[n ->]|[[s ->]|[b ->]]];
      (split; [intros k ->; reflexivity|]; split; [intros ->; reflexivity|];
       intros e ->; reflexivity).
  - intros rest [->|[->| ->]]; reflexivity.
Qed.

End ExternalLoggers.

(** ** Levels from the environment *)

Section EnvironmentLevels.

(** X13.  Levels read from the environment.  [envLevel] and
    [envCloudLevel] never throw: a variable that is unset, blank, or
    holds something the coercion rejects gives the default.  A set
    variable gives null for a disable token ([envCloudLevel]: for NONE
    only), the number of a level name, and the default otherwise; an
    environment variable is a string, so a number written in digits is
    not a level and gives the default.  [envBool] is true exactly for
    the six tokens, and never falls back to its default when the
    variable is set. *)
Theorem environment_levels (env : gmap string string) (name : string)
    (d : option Z) :
  (env !! name = None ->
     envLevel env name d = d /\ envCloudLevel env name d = d
     /\ forall b, envBool env name b = b)
  /\ (forall s, env !! name = Some s ->
      let token := toUpperCase (trim s) in
      let disable := ["NONE"; "NULL"; "FALSE"; "OFF"; "DISABLE"; "DISABLED"] in
      (token ∈ disable -> envLevel env name d = None)
      /\ (forall n, (token, n) ∈ LEVEL_TABLE -> envLevel env name d = Some n)
      /\ (token ∉ disable -> token ∉ LEVEL_TABLE.*1 -> envLevel env name d = d)
      /\ (token = "NONE" -> envCloudLevel env name d = None)
      /\ (forall n, (token, n) ∈ CLOUD_LEVEL_TABLE -> envCloudLevel env name d = Some n)
      /\ (token <> "NONE" -> token ∉ CLOUD_LEVEL_TABLE.*1 ->
          envCloudLevel env name d = d)
      /\ (forall b, envBool env name b
                    = bool_decide (toLowerCase (trim s)
                                   ∈ ["1"; "true"; "t"; "yes"; "y"; "on"])))
  /\ (forall s, env !! name = Some s ->
      forall_string is_digit (trim s) = true -> trim s <> EmptyString ->
      envLevel env name d = d /\ envCloudLevel env name d = d).
Proof.
  assert (B : forall s, is_empty (trim s) = true ->
                toUpperCase (trim s) = EmptyString).
  { intros s E. apply is_empty_true in E. rewrite E. reflexivity. }
  split; [|split].
  - intros E. unfold envLevel, envCloudLevel, envBool, getenv. rewrite E.
    repeat split.
  - intros s E. cbv zeta. unfold envLevel, envCloudLevel, envBool, getenv. rewrite E.
    cbn [ToString].
    destruct (is_empty (trim s)) eqn:Em.
    + rewrite (B s Em). repeat split.
      * intros H. exfalso. revert H. compute_done.
      * intros n H. exfalso. revert H. compute_done.
      * discriminate.
      * intros n H. exfalso. revert H. compute_done.
      * intros b. unfold TRUE_ENV_VALUES. apply bool_decide_ext.
        apply elem_of_list_to_set.
    + repeat split.
      * intros H. rewrite (coerceLevel_disabled s H). reflexivity.
      * intros n H. rewrite (coerceLevel_named s n H). reflexivity.
      * intros H1 H2. rewrite (coerceLevel_unrecognized s H1 H2). reflexivity.
      * intros H. cbn [coerceCloudLevel]. rewrite H. reflexivity.
      * intros n H. rewrite (proj2 (coerceCloudLevel_named s n) H). reflexivity.
      * intros H1 H2. cbn [coerceCloudLevel].
        destruct (decide _) as [|_]; [contradiction|].
        change (toUpperCase (trim s) ∉ CLOUD_LEVEL_TABLE.*1) in H2.
        unfold CLOUD_LEVEL_NAME_TO_NO.
        rewrite (not_elem_of_list_to_map_1 _ _ H2). reflexivity.
      * intros b. unfold TRUE_ENV_VALUES. apply bool_decide_ext.
        apply elem_of_list_to_set.
  - intros s E D N.
    assert (U : toUpperCase (trim s) = trim s).
    { rewrite toUpperCase_ascii.
      - apply map_string_fixed. revert D. apply forall_string_impl.
        intros a Ha. unfold upper_char.
        destruct a as [b0 b1 b2 b3 b4 b5 b6 b7].
        destruct b0, b1, b2, b3, b4, b5, b6, b7; try discriminate Ha; reflexivity.
      - revert D. apply forall_string_impl. intros a Ha.
        destruct a as [b0 b1 b2 b3 b4 b5 b6 b7].
        destruct b0, b1, b2, b3, b4, b5, b6, b7; try discriminate Ha; reflexivity. }
    assert (F : forall x, forall_string is_digit x = false -> trim s <> x)
      by (intros x Hx X; rewrite X in D; congruence).
    unfold envLevel, envCloudLevel, getenv. rewrite E. cbn [ToString].
    apply is_empty_false in N. rewrite N. split.
    + rewrite coerceLevel_unrecognized; [reflexivity| |]; rewrite U; intros H;
        unfold LEVEL_TABLE in H; cbn [fmap list_fmap fst] in H;
        repeat (apply elem_of_cons in H as [H|H]; [revert H; apply F; reflexivity|]);
        inversion H.
    + cbn [coerceCloudLevel]. rewrite U.
      destruct (decide _) as [X|_]; [exfalso; revert X; apply F; reflexivity|].
      unfold CLOUD_LEVEL_NAME_TO_NO. rewrite not_elem_of_list_to_map_1; [reflexivity|].
      intros H. unfold CLOUD_LEVEL_TABLE in H. cbn [fmap list_fmap fst] in H.
      repeat (apply elem_of_cons in H as [H|H]; [revert H; apply F; reflexivity|]);
        inversion H.
Qed.

End EnvironmentLevels.

(** ** What owner and id can do to the endpoint *)

Section EndpointSegments.

Context {parser : Node}.

(** X14.  For every parser of URLs, and whatever the user name and the
    resource id are: when both, trimmed, are well-formed strings, each
    of them is exactly one path segment of the endpoint, which is the
    base, the resolved prefix and the five segments u, <user>,
    resources, <id>, logs; otherwise [buildResourceLogsEndpoint] throws
    the URIError of [encodeURIComponent].  The two segments are made of
    unreserved characters and percent escapes only, so they hold no
    slash, backslash, question mark, hash or white space. *)
Theorem endpoint_keeps_its_shape (cfg : Config) (username resourceId : Val) :
  let user := trim (ToString (or_else username (VStr EmptyString))) in
  let id := trim (ToString (or_else resourceId (VStr EmptyString))) in
  let segments :=
    ["u"; uri_encode user; "resources"; uri_encode id; "logs"; EmptyString] in
  buildResourceLogsEndpoint cfg username resourceId
  = (if well_formed user && well_formed id
     then Ok (endpoint_base cfg +:+ resolvedPortalPrefix cfg
              +:+ serialize_path segments)
     else Throw URIError)
  /\ forall_string is_encoded (uri_encode user) = true
  /\ forall_string is_encoded (uri_encode id) = true
  /\ split is_slash (serialize_path segments) = EmptyString :: segments
  /\ (forall a, is_encoded a = true ->
        is_slash a = false /\ is_path_sep a = false /\ ends_path a = false
        /\ is_white_space a = false /\ is_c0_or_space a = false
        /\ starts_white_space a = false).
Proof.
  cbv zeta.
  set (user := trim (ToString (or_else username (VStr EmptyString)))).
  set (id := trim (ToString (or_else resourceId (VStr EmptyString)))).
  pose proof (encode_is_encoded user) as Eu.
  pose proof (encode_is_encoded id) as Ei.
  split.
  { unfold buildResourceLogsEndpoint. fold user. fold id. unfold encodeURIComponent.
    destruct (well_formed user); cbn [bind andb]; [|reflexivity].
    destruct (well_formed id); cbn [bind]; reflexivity. }
  split; [exact Eu|]. split; [exact Ei|]. split.
  - apply split_serialized_path; [reflexivity| |discriminate].
    apply encoded_segments_none; [intros a Ha; apply (encoded_char a Ha)|].
    repeat (apply Forall_cons; split); try reflexivity; try assumption.
    apply Forall_nil_2.
  - intros a Ha.
    destruct (encoded_char a Ha) as (W & C & _ & P & Q & _ & S & _ & Sw).
    repeat split; assumption.
Qed.

End EndpointSegments.

(** A user name that is no well-formed string (a lone surrogate in
    JavaScript) makes the endpoint throw, and [emit] catch it: there is
    no transport call. *)
Example malformed_user_is_not_forwarded :
  let cfg := set_resourceOwnerUsername (Some (String "237" (String "160" EmptyString)))
               Samples.ready_config in
  buildResourceLogsEndpoint cfg (VStr (String "237" (String "160" EmptyString))) (VStr "r")
  = Throw URIError
  /\ emit (new_handler None None) (set_debug true cfg) Samples.info_record
     = {| handler_after := new_handler None None; calls := [];
          diagnostics := ["cloud log emit failed: URI malformed"] |}.
Proof. split; vm_compute; reflexivity. Qed.

(** ** The loggers a program can hold *)

Section ReachableLoggers.

Context {parser : Node}.




End ReachableLoggers.


Section DuplicateDelivery.

Context {parser : Node}.





End DuplicateDelivery.


(** ** Calling configure again *)

Section ConfigureTwice.

Context {parser : Node}.

Ltac fields :=
  cbn [set_username set_apiKey set_baseUrl set_portalPrefix set_enabled
       set_cloudLevel set_timeoutSeconds set_verifySsl set_debug
       set_resourceOwnerUsername set_resourceId
       username resourceOwnerUsername apiKey baseUrl portalPrefix resourceId
       enabled cloudLevel timeoutSeconds verifySsl debug].

Ltac settle c :=
  destruct c;
  cbn [set_username set_apiKey set_baseUrl set_portalPrefix set_enabled
       set_cloudLevel set_timeoutSeconds set_verifySsl set_debug
       set_resourceOwnerUsername set_resourceId
       username resourceOwnerUsername apiKey baseUrl portalPrefix resourceId
       enabled cloudLevel timeoutSeconds verifySsl debug] in *;
  repeat match goal with
         | H : ?a = ?a -> _ |- _ => specialize (H eq_refl)
         | H : true = false -> _ |- _ => clear H
         | H : false = true -> _ |- _ => clear H
         end;
  subst; reflexivity.

(** A step that writes what the store already holds leaves it as it is. *)
Lemma resource_step_again (options : gmap string Val) (cfg c1 c : Config) :
  resource_step options cfg = Ok c1 ->
  resourceOwnerUsername c = resourceOwnerUsername c1 ->
  resourceId c = resourceId c1 ->
  (is_undefined (get2 options "baseUrl" "base_url") = true -> baseUrl c = baseUrl c1) ->
  (is_undefined (get2 options "portalPrefix" "portal_prefix") = true ->
   portalPrefix c = portalPrefix c1) ->
  resource_step options c = Ok c.
Proof.
  unfold resource_step, apply_resource.
  destruct (is_undefined (get options "resource")); [reflexivity|].
  destruct (parseResourceReference _) as [[ref|]|e]; cbn [bind]; [| |discriminate].
  - destruct (is_undefined (get2 options "baseUrl" "base_url")),
      (is_undefined (get2 options "portalPrefix" "portal_prefix"));
      intros [= <-] Ho Hi Hb Hp; f_equal; settle c.
  - intros [= <-] Ho Hi _ _. f_equal. settle c.
Qed.

Lemma apply_fields_again (u k bu pp en : Val) (c : Config) :
  (is_undefined u = false -> username c = u) ->
  (is_undefined k = false -> apiKey c = k) ->
  (is_undefined bu = false -> baseUrl c = strip_one_trailing_slash (ToString bu)) ->
  (is_undefined pp = false -> portalPrefix c = normalizePortalPrefix pp) ->
  (is_undefined en = false -> enabled c = truthy en) ->
  apply_fields u k bu pp en c = c.
Proof.
  unfold apply_fields, when_defined.
  destruct (is_undefined u), (is_undefined k), (is_undefined bu),
    (is_undefined pp), (is_undefined en); intros Hu Hk Hb Hp He; settle c.
Qed.

Lemma apply_tail_again (t v d : Val) (c : Config) :
  timeoutSeconds c
  = (match t with VNum (Finite q shown) => Finite q shown | _ => timeoutSeconds c end) ->
  (is_undefined v = false -> verifySsl c = truthy v) ->
  (is_undefined d = false -> debug c = truthy d) ->
  apply_tail t v d c = c.
Proof.
  unfold apply_tail, when_defined.
  destruct t as [| | |[]|]; cbn [is_undefined];
    destruct (is_undefined v), (is_undefined d); intros Ht Hv Hd; settle c.
Qed.

Lemma apply_cloud_level_again (options : gmap string Val) (d : Val) (c c3 c' : Config) :
  apply_cloud_level options d c = Ok c3 ->
  cloudLevel c' = cloudLevel c3 ->
  apply_cloud_level options d c' = Ok c'.
Proof.
  rewrite !apply_cloud_level_effect.
  destruct (has_cloud_level options).
  - destruct (coerceCloudLevel _) as [l|e]; [|discriminate].
    intros [= <-] H. f_equal. settle c'.
  - intros [= <-] H. f_equal. destruct (is_true d); [|reflexivity].
    revert H. fields. destruct (cloudLevel c); intros H; settle c'.
Qed.

(** X17.  [configure] is idempotent, in what it leaves and in what it
    throws: calling it again with the same options on the store the
    first call left gives that store again, and throws what the first
    call threw. *)
Theorem configure_twice (options : gmap string Val) (cfg : Config) :
  configure options (configure options cfg).1 = configure options cfg.
Proof.
  rewrite (configure_steps options cfg).
  destruct (resource_step options cfg) as [c1|e] eqn:R.
  2:{ cbn [fst]. rewrite configure_steps, R. reflexivity. }
  cbv zeta.
  pose proof (apply_fields_effect (get options "username")
                (get2 options "apiKey" "api_key") (get2 options "baseUrl" "base_url")
                (get2 options "portalPrefix" "portal_prefix") (get options "enabled") c1)
    as F. cbv zeta in F.
  set (c2 := apply_fields _ _ _ _ _ c1) in *.
  destruct F as (F1 & F2 & F3 & F4 & F5 & (F6 & F7) & _ & _).
  assert (S2 : forall c, same_identity c c2 -> same_target c c2 -> same_location c c2 ->
                 resource_step options c = Ok c
                 /\ apply_fields (get options "username")
                      (get2 options "apiKey" "api_key")
                      (get2 options "baseUrl" "base_url")
                      (get2 options "portalPrefix" "portal_prefix")
                      (get options "enabled") c = c).
  { intros c (I1 & I2 & I3) (T1 & T2) (L1 & L2). split.
    - apply (resource_step_again options cfg c1 c R); try congruence.
      + intros U. rewrite L1, F3, U. reflexivity.
      + intros U. rewrite L2, F4, U. reflexivity.
    - apply apply_fields_again; intros U.
      + rewrite I1, F1, U. reflexivity.
      + rewrite I2, F2, U. reflexivity.
      + rewrite L1, F3, U. reflexivity.
      + rewrite L2, F4, U. reflexivity.
      + rewrite I3, F5, U. reflexivity. }
  destruct (apply_cloud_level options (get options "debug") c2) as [c3|e] eqn:C;
    cbn [fst].
  - destruct (apply_cloud_level_keeps _ _ _ _ C) as (K1 & K2 & K3 & K4).
    match goal with |- context [apply_tail ?t ?v ?d c3] =>
      pose proof (apply_tail_effect t v d c3) as T; cbv zeta in T;
      set (c4 := apply_tail t v d c3) in *
    end.
    destruct T as (T1 & T2 & T3 & T4 & T5 & T6 & T7).
    assert (I : same_identity c4 c2)
      by (destruct T4 as (? & ? & ?), K1 as (? & ? & ?); repeat split; congruence).
    assert (G : same_target c4 c2)
      by (destruct T5 as (? & ?), K3 as (? & ?); split; congruence).
    assert (L : same_location c4 c2)
      by (destruct T6 as (? & ?), K4 as (? & ?); split; congruence).
    destruct (S2 c4 I G L) as [R4 A4].
    rewrite configure_steps, R4. cbv zeta. rewrite A4.
    rewrite (apply_cloud_level_again options (get options "debug") c2 c3 c4 C T7).
    f_equal. apply apply_tail_again.
    + rewrite T1. destruct (get2 options "timeoutSeconds" "timeout_seconds")
        as [| | |[]|]; reflexivity.
    + intros U. rewrite T2, U. reflexivity.
    + intros U. rewrite T3, U. reflexivity.
  - destruct (S2 c2) as [R2 A2]; [repeat split..|].
    rewrite configure_steps, R2. cbv zeta. rewrite A2, C. reflexivity.
Qed.

End ConfigureTwice.

Section ConfigureAndSetEnabled.

Context {parser : Node}.

(** X18.  [configure] with nothing to set changes nothing, and
    [setEnabled(v)] is [configure({ enabled: v })], except for undefined:
    [configure({ enabled: undefined })] leaves the store as it is, while
    [setEnabled()] disables it.  The store is enabled after
    [setEnabled(v)] exactly when [v] is truthy. *)
Theorem setEnabled_is_configure (cfg : Config) :
  configure ∅ cfg = (cfg, None)
  /\ (forall v, v <> VUndefined ->
        configure {[ "enabled" := v ]} cfg = (setEnabled v cfg, None))
  /\ configure {[ "enabled" := VUndefined ]} cfg = (cfg, None)
  /\ enabled (setEnabled VUndefined cfg) = false
  /\ (forall v, enabled (setEnabled v cfg) = truthy v)
  /\ (forall v w, setEnabled w (setEnabled v cfg) = setEnabled w cfg).
Proof.
  split; [|split; [|split; [|split; [|split]]]].
  - destruct cfg. vm_compute. reflexivity.
  - intros v N. destruct cfg. destruct v as [| |b|n|s]; [contradiction|..];
      vm_compute; reflexivity.
  - destruct cfg. vm_compute. reflexivity.
  - reflexivity.
  - reflexivity.
  - reflexivity.
Qed.

End ConfigureAndSetEnabled.

Section ParsedReferences.

Context {parser : Node}.

(** X19.  For every parser of URLs: what [parseResourceReference]
    returns, when it returns a reference.  The base URL is the scheme,
    two slashes and the host [new URL] read off the trimmed input, one
    trailing slash removed; the portal prefix is empty or a slash
    followed by a text that neither starts nor ends with a slash; owner
    and id are not empty and carry no white space at either end. *)
Theorem parsed_reference_is_well_formed (v : Val) (ref : ResourceReference) :
  parseResourceReference v = Ok (Some ref) ->
  (exists parsed,
      new_URL (trim (ToString v)) = Some parsed
      /\ ref_baseUrl ref
         = strip_one_trailing_slash (protocol parsed +:+ "//" +:+ host parsed))
  /\ prefix_ok (Some (ref_portalPrefix ref)) = true
  /\ trim (ref_resourceOwnerUsername ref) = ref_resourceOwnerUsername ref
  /\ ref_resourceOwnerUsername ref <> EmptyString
  /\ trim (ref_resourceId ref) = ref_resourceId ref
  /\ ref_resourceId ref <> EmptyString.
Proof.
  intros P. split; [|split; [exact (reference_prefix_ok v ref P)|]].
  - unfold parseResourceReference in P.
    destruct v; try discriminate P;
      (destruct (is_empty _); [discriminate P|];
       destruct (new_URL _) as [parsed|] eqn:U; [|discriminate P]; cbv zeta in P;
       destruct (find_resource_index _) as [i|]; [|discriminate P];
       destruct (decode_segment _ (i + 1)) as [o|e1]; cbn [bind] in P;
         [|discriminate P];
       destruct (decode_segment _ (i + 3)) as [r|e2]; cbn [bind] in P;
         [|discriminate P];
       destruct (is_empty o || is_empty r); [discriminate P|];
       injection P as <-; exists parsed; split; reflexivity).
  - unfold parseResourceReference in P.
    destruct v; try discriminate P;
      (destruct (is_empty _); [discriminate P|];
       destruct (new_URL _) as [parsed|]; [|discriminate P]; cbv zeta in P;
       destruct (find_resource_index _) as [i|]; [|discriminate P];
       destruct (decode_segment _ (i + 1)) as [o|e1] eqn:E1; cbn [bind] in P;
         [|discriminate P];
       destruct (decode_segment _ (i + 3)) as [r|e2] eqn:E2; cbn [bind] in P;
         [|discriminate P];
       destruct (is_empty o || is_empty r) eqn:E; [discriminate P|];
       apply orb_false_iff in E as [Eo Er];
       injection P as <-;
       cbn [ref_resourceOwnerUsername ref_resourceId];
       split; [exact (decode_segment_trimmed _ _ _ E1)|];
       split; [apply is_empty_false, Eo|];
       split; [exact (decode_segment_trimmed _ _ _ E2)|];
       apply is_empty_false, Er).
Qed.

End ParsedReferences.

Lemma parsed_reference_is_well_formed_witness :
  let ref := {| ref_baseUrl := "https://alshival.ai"; ref_portalPrefix := "/DevTools";
                ref_resourceOwnerUsername := "sam smith";
                ref_resourceId := "abc-123" |} in
  parseResourceReference
    (VStr " HTTPS://Alshival.AI/DevTools/u/sam%20smith/resources/abc-123/logs ")
  = Ok (Some ref)
  /\ prefix_ok (Some (ref_portalPrefix ref)) = true.
Proof.
  cbv zeta.
  assert (P : parseResourceReference
                (VStr " HTTPS://Alshival.AI/DevTools/u/sam%20smith/resources/abc-123/logs ")
              = Ok (Some {| ref_baseUrl := "https://alshival.ai";
                            ref_portalPrefix := "/DevTools";
                            ref_resourceOwnerUsername := "sam smith";
                            ref_resourceId := "abc-123" |}))
    by (vm_compute; reflexivity).
  split; [exact P|].
  destruct (parsed_reference_is_well_formed _ _ P) as (_ & W & _). exact W.
Defined.
